(** * Gate-mcq: the CSV import and the quiz session of [App.js]

    A shallow embedding of the logic of [src/App.js]: the CSV parser
    ([parseCSV] with its inner [mapHeader] and [parseLine]), the answer
    check ([checkAnswer]), the score ([calculateScore]) and the event
    handlers of the [App] component that drive the session.

    Conventions of the embedding.
    - A JavaScript string is a [string]; its characters are the code
      units 0 to 255, the characters of Latin-1.  White space and case
      mapping are those of [trim], [toLowerCase] and [toUpperCase] on
      these characters; the upper-case form of a text can hold code
      units above 255, so it is given as a list of code units.
    - Regular expressions are values of [Regex.regex], run by a
      backtracking matcher that follows the order of alternatives and the
      greediness of the JavaScript matcher.
    - A React state setter call is an [action]; a handler computes, from
      the state of the render it closes over, the list of setter calls it
      makes, and [dispatch] applies them in order.
    - Numbers that count things are [nat]; the one floating-point
      computation (the accuracy percentage) is done in binary64 with
      [SpecFloat]. *)

From Stdlib Require Import String Ascii List ZArith NArith Lia Bool Arith.
From Stdlib Require Import DecimalString DecimalN.
From Corelib Require Import SpecFloat.
From stdpp Require Import base list gmap strings sorting.

Local Open Scope nat_scope.

(** ** JavaScript strings *)

Module JS.

Definition dquote : ascii := ascii_of_nat 34.
Definition comma : ascii := ascii_of_nat 44.
Definition CR : ascii := ascii_of_nat 13.
Definition LF : ascii := ascii_of_nat 10.

Definition ascii_eqb (a b : ascii) : bool := Ascii.eqb a b.

(** The no-break space. *)
Definition NBSP : ascii := ascii_of_nat 160.

(** White space and line terminators as [String.prototype.trim] sees
    them: the characters 9 to 13, the space and the no-break space. *)
Definition isWhitespace (c : ascii) : bool :=
  let n := nat_of_ascii c in
  ((9 <=? n) && (n <=? 13)) || (n =? 32) || (n =? 160).

Fixpoint trimStart (s : string) : string :=
  match s with
  | EmptyString => EmptyString
  | String c s' => if isWhitespace c then trimStart s' else s
  end.

Fixpoint trimEnd (s : string) : string :=
  match s with
  | EmptyString => EmptyString
  | String c s' =>
      match trimEnd s' with
      | EmptyString => if isWhitespace c then EmptyString else String c EmptyString
      | t => String c t
      end
  end.

Definition trim (s : string) : string := trimEnd (trimStart s).

(** The lower-case form of a character: the letters A to Z and the
    capital letters of Latin-1 (192 to 222, but for the sign 215). *)
Definition lowerChar (c : ascii) : ascii :=
  let n := nat_of_ascii c in
  if ((65 <=? n) && (n <=? 90)) ||
     ((192 <=? n) && (n <=? 222) && negb (n =? 215))
  then ascii_of_nat (n + 32) else c.

(** The code units of a text. *)
Definition units (s : string) : list N :=
  map N_of_ascii (list_ascii_of_string s).

(** The upper-case form of a character, in code units: the letters a to
    z and the small letters of Latin-1 (224 to 254, but for the sign
    247) go 32 down, the sharp s (223) becomes SS, the y with diaeresis
    (255) and the micro sign (181) leave Latin-1. *)
Definition upperUnits (c : ascii) : list N :=
  let n := nat_of_ascii c in
  if ((97 <=? n) && (n <=? 122)) ||
     ((224 <=? n) && (n <=? 254) && negb (n =? 247))
  then [N.of_nat (n - 32)]
  else if n =? 223 then [83; 83]%N
  else if n =? 255 then [376]%N
  else if n =? 181 then [924]%N
  else [N.of_nat n].

Fixpoint mapChars (f : ascii -> ascii) (s : string) : string :=
  match s with
  | EmptyString => EmptyString
  | String c s' => String (f c) (mapChars f s')
  end.

Fixpoint toUpperCase (s : string) : list N :=
  match s with
  | EmptyString => []
  | String c s' => upperUnits c ++ toUpperCase s'
  end.

Definition toLowerCase : string -> string := mapChars lowerChar.

Definition startsWith (p s : string) : bool := String.prefix p s.

Definition endsWith (p s : string) : bool :=
  (String.length p <=? String.length s) &&
  String.eqb (String.substring (String.length s - String.length p) (String.length p) s) p.

(** [s.includes(needle)] *)
Fixpoint includes (needle s : string) : bool :=
  String.prefix needle s ||
  match s with
  | EmptyString => false
  | String _ s' => includes needle s'
  end.

(** [s.substring(a, b)]: both ends are clamped to the length and swapped
    when they come in the wrong order. *)
Definition substring (a b : nat) (s : string) : string :=
  let n := String.length s in
  let a' := Nat.min a n in
  let b' := Nat.min b n in
  String.substring (Nat.min a' b') (Nat.max a' b' - Nat.min a' b') s.

(** [s.split(sep)] for a separator of one character. *)
Fixpoint split (sep : ascii) (s : string) : list string :=
  match s with
  | EmptyString => [EmptyString]
  | String c s' =>
      if ascii_eqb c sep then EmptyString :: split sep s'
      else match split sep s' with
           | [] => [String c EmptyString]
           | p :: ps => String c p :: ps
           end
  end.

(** A value used as a condition: the empty string is falsy. *)
Definition truthy (s : string) : bool :=
  match s with EmptyString => false | _ => true end.

End JS.

(** ** Regular expressions *)

Module Regex.

Inductive regex : Type :=
| Eps
| Cls (p : ascii -> bool)
| Cat (r1 r2 : regex)
| Alt (r1 r2 : regex)
| Star (r : regex).

Definition Chr (c : ascii) : regex := Cls (JS.ascii_eqb c).
Definition NotChr (c : ascii) : regex := Cls (fun a => negb (JS.ascii_eqb c a)).
Definition Plus (r : regex) : regex := Cat r (Star r).
Definition Opt (r : regex) : regex := Alt r Eps.

(** A continuation receives what is left of the input and answers with
    what is left after the whole match, or fails. *)
Definition cont : Type := string -> option string.

(** Greedy iteration: one more round of [m] is tried first, and a round
    that consumes nothing is refused, as in the JavaScript matcher. *)
Fixpoint star_loop (m : string -> cont -> option string)
    (fuel : nat) (s : string) (k : cont) : option string :=
  match fuel with
  | 0 => k s
  | S fuel' =>
      match m s (fun s' =>
                   if String.length s' <? String.length s
                   then star_loop m fuel' s' k else None) with
      | Some r => Some r
      | None => k s
      end
  end.

Fixpoint run (r : regex) (s : string) (k : cont) {struct r} : option string :=
  match r with
  | Eps => k s
  | Cls p =>
      match s with
      | String c s' => if p c then k s' else None
      | EmptyString => None
      end
  | Cat r1 r2 => run r1 s (fun s' => run r2 s' k)
  | Alt r1 r2 =>
      match run r1 s k with
      | Some x => Some x
      | None => run r2 s k
      end
  | Star r1 => star_loop (run r1) (String.length s) s k
  end.

(** A match anchored at the start of [s]: what is left after it. *)
Definition exec (r : regex) (s : string) : option string := run r s Some.

(** The text consumed when [rest] is what is left of [s]. *)
Definition consumed (s rest : string) : string :=
  String.substring 0 (String.length s - String.length rest) s.

(** All matches of a global regular expression, left to right. *)
Fixpoint matchAll_from (r : regex) (fuel : nat) (s : string) : list string :=
  match fuel with
  | 0 => []
  | S fuel' =>
      match exec r s with
      | Some rest =>
          if String.length rest <? String.length s
          then consumed s rest :: matchAll_from r fuel' rest
          else match s with
               | EmptyString => [EmptyString]
               | String _ s' => EmptyString :: matchAll_from r fuel' s'
               end
      | None =>
          match s with
          | EmptyString => []
          | String _ s' => matchAll_from r fuel' s'
          end
      end
  end.

Definition matchAll (r : regex) (s : string) : list string :=
  matchAll_from r (S (String.length s)) s.

(** [s.match(/r/g)]: [None] stands for [null]. *)
Definition match_g (r : regex) (s : string) : option (list string) :=
  match matchAll r s with
  | [] => None
  | ms => Some ms
  end.

(** [s.replace(/r/g, rep)] *)
Fixpoint replace_from (r : regex) (rep : string) (fuel : nat) (s : string) : string :=
  match fuel with
  | 0 => s
  | S fuel' =>
      match exec r s with
      | Some rest =>
          if String.length rest <? String.length s
          then rep +:+ replace_from r rep fuel' rest
          else match s with
               | EmptyString => rep
               | String c s' => rep +:+ String c (replace_from r rep fuel' s')
               end
      | None =>
          match s with
          | EmptyString => EmptyString
          | String c s' => String c (replace_from r rep fuel' s')
          end
      end
  end.

Definition replace_g (r : regex) (rep : string) (s : string) : string :=
  replace_from r rep (S (String.length s)) s.

(** [s.split(/r/)]: [piece] is the text since the last separator. *)
Fixpoint split_from (r : regex) (fuel : nat) (piece s : string) : list string :=
  match fuel with
  | 0 => [piece +:+ s]
  | S fuel' =>
      match s with
      | EmptyString => [piece]
      | String c s' =>
          match exec r s with
          | Some rest =>
              if String.length rest <? String.length s
              then piece :: split_from r fuel' EmptyString rest
              else match piece with
                   | EmptyString => split_from r fuel' (String c EmptyString) s'
                   | _ => piece :: split_from r fuel' (String c EmptyString) s'
                   end
          | None => split_from r fuel' (piece +:+ String c EmptyString) s'
          end
      end
  end.

Definition split (r : regex) (s : string) : list string :=
  match s with
  | EmptyString =>
      match exec r s with
      | Some _ => []
      | None => [EmptyString]
      end
  | _ => split_from r (String.length s) EmptyString s
  end.

End Regex.

(** ** CSV parsing *)

(** A question object.  Every property may be absent: the parser creates
    the object empty and fills it column by column, and [id] is only
    added when a session starts. *)
Module Question.
Record t : Type := mk {
  q : option string;
  options : option (list string);
  correct : option string;
  explanation : option string;
  id : option string
}.
Definition empty : t := mk None None None None None.
Definition set_q (v : string) (x : t) : t :=
  mk (Some v) (options x) (correct x) (explanation x) (id x).
Definition set_options (v : list string) (x : t) : t :=
  mk (q x) (Some v) (correct x) (explanation x) (id x).
Definition set_correct (v : string) (x : t) : t :=
  mk (q x) (options x) (Some v) (explanation x) (id x).
Definition set_explanation (v : string) (x : t) : t :=
  mk (q x) (options x) (correct x) (Some v) (id x).
Definition set_id (v : string) (x : t) : t :=
  mk (q x) (options x) (correct x) (explanation x) (Some v).
End Question.

Module CSV.
Import JS Regex.

Definition isLowerAlnum (c : ascii) : bool :=
  let n := nat_of_ascii c in
  ((97 <=? n) && (n <=? 122)) || ((48 <=? n) && (n <=? 57)).

(** [/[^a-z0-9]/g] *)
Definition reNonAlnum : regex := Cls (fun c => negb (isLowerAlnum c)).

(** [mapHeader]: the role of a header cell, [None] for [null]. *)
Definition mapHeader (header : string) : option string :=
  let h := replace_g reNonAlnum "" (toLowerCase (trim header)) in
  if includes "optiona" h || includes "option1" h then Some "option1"
  else if includes "optionb" h || includes "option2" h then Some "option2"
  else if includes "optionc" h || includes "option3" h then Some "option3"
  else if includes "optiond" h || includes "option4" h then Some "option4"
  else if includes "question" h then Some "q"
  else if includes "correctanswer" h || includes "correct" h then Some "correct"
  else if includes "explanation" h then Some "explanation"
  else None.

Definition dq : string := String dquote EmptyString.

(** The pattern of [parseLine]: a quoted run whose inner quotes come in
    pairs, or else a run of characters other than the comma. *)
Definition reQuoted : regex :=
  Cat (Chr dquote)
      (Cat (Cat (Star (NotChr dquote))
                (Star (Cat (Chr dquote) (Cat (Chr dquote) (Star (NotChr dquote))))))
           (Chr dquote)).
Definition reBare : regex := Plus (NotChr comma).
Definition reField : regex := Alt reQuoted reBare.

(** [/""/g], written with the character code of the quote *)
Definition reTwoQuotes : regex := Cat (Chr dquote) (Chr dquote).

(** The function mapped over the matches. *)
Definition cleanMatch (m : string) : string :=
  if startsWith dq m && endsWith dq m
  then trim (replace_g reTwoQuotes dq (substring 1 (String.length m - 1) m))
  else trim m.

Definition parseLine (line : string) : list string :=
  match match_g reField line with
  | None => []
  | Some matches => map cleanMatch matches
  end.

(** The local variables of one pass of the row loop. *)
Record RowVars : Type := mkRow {
  question : Question.t;
  options : list string;
  hasQuestionText : bool
}.

Definition rowInit : RowVars := mkRow Question.empty [] false.

Definition isKey (k : string) (mappedKey : option string) : bool :=
  match mappedKey with
  | Some m => String.eqb m k
  | None => false
  end.

Definition isOptionKey (mappedKey : option string) : bool :=
  match mappedKey with
  | Some m => startsWith "option" m
  | None => false
  end.

(** The chain of tests on [mappedKey] in the loop over the columns. *)
Definition keyStep (v : RowVars) (mappedKey : option string) (value : string) : RowVars :=
  if isKey "q" mappedKey
  then mkRow (Question.set_q value (question v)) (options v) true
  else if isOptionKey mappedKey
  then mkRow (question v) (options v ++ [value]) (hasQuestionText v)
  else if isKey "correct" mappedKey
  then mkRow (Question.set_correct value (question v)) (options v) (hasQuestionText v)
  else if isKey "explanation" mappedKey
  then mkRow (Question.set_explanation value (question v)) (options v) (hasQuestionText v)
  else v.

(** The body of the loop over the columns [j]: [headerMap[j]] is
    [undefined] past the end of [headerMap], which no test accepts. *)
Definition fieldStep (headerMap : list (option string)) (values : list string)
    (v : RowVars) (j : nat) : RowVars :=
  match values !! j with
  | None => v
  | Some value =>
      keyStep v (match headerMap !! j with Some k => k | None => None end) value
  end.

Definition assemble (headerMap : list (option string)) (values : list string) : RowVars :=
  fold_left (fieldStep headerMap values) (seq 0 (length values)) rowInit.

Definition truthyOpt (o : option string) : bool :=
  match o with
  | Some s => truthy s
  | None => false
  end.

(** The test that guards [questions.push]. *)
Definition accepted (v : RowVars) : bool :=
  hasQuestionText v && (2 <=? length (options v)) && truthyOpt (Question.correct (question v)).

(** What the import has produced so far: the questions pushed and the
    line numbers that [console.warn] reported. *)
Record ImportRun : Type := mkImport {
  questions : list Question.t;
  warnings : list nat
}.

(** One pass of the loop over the lines, for [lines[i] = line]. *)
Definition processLine (rawHeaders : list string) (headerMap : list (option string))
    (st : ImportRun) (i : nat) (line : string) : ImportRun :=
  if negb (truthy (trim line)) then st
  else
    let values := parseLine line in
    if negb (length values =? length rawHeaders)
    then mkImport (questions st) (warnings st ++ [i + 1])
    else
      let v := assemble headerMap values in
      if accepted v
      then mkImport (questions st ++ [Question.set_options (options v) (question v)])
                    (warnings st)
      else st.

Fixpoint processLines (rawHeaders : list string) (headerMap : list (option string))
    (st : ImportRun) (i : nat) (rows : list string) : ImportRun :=
  match rows with
  | [] => st
  | line :: rows' =>
      processLines rawHeaders headerMap (processLine rawHeaders headerMap st i line) (S i) rows'
  end.

(** [/\r?\n/] *)
Definition reNewline : regex := Cat (Opt (Chr CR)) (Chr LF).

Definition parseCSV_log (csvText : string) : ImportRun :=
  if negb (truthy csvText) then mkImport [] []
  else
    match Regex.split reNewline (trim csvText) with
    | [] => mkImport [] []
    | header :: rows =>
        let rawHeaders := JS.split comma header in
        let headerMap := map mapHeader rawHeaders in
        processLines rawHeaders headerMap (mkImport [] []) 1 rows
    end.

Definition parseCSV (csvText : string) : list Question.t :=
  questions (parseCSV_log csvText).

End CSV.

(** ** JavaScript numbers *)

Module Num.

Definition prec : Z := 53.
Definition emax : Z := 1024.

(** The binary64 value of a count. *)
Definition ofNat (n : nat) : spec_float :=
  binary_normalize prec emax (Z.of_nat n) 0 false.

Definition div (x y : spec_float) : spec_float := SFdiv prec emax x y.
Definition mul (x y : spec_float) : spec_float := SFmul prec emax x y.

(** [Math.round]: the integer nearest to the value, the upper one of the
    two when the value lies half-way.  Zero is returned for the values
    that are not finite; [calculateScore] never produces them. *)
Definition round (x : spec_float) : Z :=
  match x with
  | S754_finite s m e =>
      let v := if s then Z.neg m else Z.pos m in
      if (0 <=? e)%Z then (v * 2 ^ e)%Z
      else ((2 * v + 2 ^ (- e)) / 2 ^ (1 - e))%Z
  | _ => 0%Z
  end.

(** [n.toString()] for a count, in decimal. *)
Definition toString (n : N) : string :=
  DecimalString.NilEmpty.string_of_uint (N.to_uint n).

End Num.

(** ** The application state *)

Inductive QuizState : Type := TOPIC_SELECT | PRACTICE | SUMMARY.

Record Topic : Type := mkTopic {
  topic_id : string;
  topicName : string;
  topic_questions : list Question.t
}.

(** An entry of [userResponses].  [selectedOption] and [isCorrect] are
    absent in the entries that navigation creates. *)
Record Response : Type := mkResponse {
  selectedOption : option string;
  isCorrect : option bool;
  isExplanationVisible : bool
}.

Record AppState : Type := mkState {
  loading : bool;
  topics : list Topic;
  quizState : QuizState;
  csvContent : string;
  fileName : option string;
  newTopicName : string;
  currentQuestions : list Question.t;
  currentQuestionIndex : nat;
  userResponses : gmap nat Response;
  isDrawerOpen : bool;
  message : string;
  selectedTopicIds : list string;
  openMenuId : option string
}.

(** The state of the first render. *)
Definition initialState : AppState :=
  mkState false [] TOPIC_SELECT "" None "" [] 0 ∅ false "" [] None.

(** A call of a state setter.  The setters called with a function
    ([setX(prev => ...)]) carry that function. *)
Inductive action : Type :=
| setTopics (f : list Topic -> list Topic)
| setQuizState (v : QuizState)
| setCsvContent (v : string)
| setFileName (v : option string)
| setNewTopicName (v : string)
| setCurrentQuestions (v : list Question.t)
| setCurrentQuestionIndex (v : nat)
| setUserResponses (f : gmap nat Response -> gmap nat Response)
| setIsDrawerOpen (f : bool -> bool)
| setMessage (v : string)
| setTimeout (ms : nat) (later : action).

Definition apply (s : AppState) (a : action) : AppState :=
  match a with
  | setTopics f =>
      mkState (loading s) (f (topics s)) (quizState s) (csvContent s) (fileName s)
        (newTopicName s) (currentQuestions s) (currentQuestionIndex s)
        (userResponses s) (isDrawerOpen s) (message s) (selectedTopicIds s) (openMenuId s)
  | setQuizState v =>
      mkState (loading s) (topics s) v (csvContent s) (fileName s)
        (newTopicName s) (currentQuestions s) (currentQuestionIndex s)
        (userResponses s) (isDrawerOpen s) (message s) (selectedTopicIds s) (openMenuId s)
  | setCsvContent v =>
      mkState (loading s) (topics s) (quizState s) v (fileName s)
        (newTopicName s) (currentQuestions s) (currentQuestionIndex s)
        (userResponses s) (isDrawerOpen s) (message s) (selectedTopicIds s) (openMenuId s)
  | setFileName v =>
      mkState (loading s) (topics s) (quizState s) (csvContent s) v
        (newTopicName s) (currentQuestions s) (currentQuestionIndex s)
        (userResponses s) (isDrawerOpen s) (message s) (selectedTopicIds s) (openMenuId s)
  | setNewTopicName v =>
      mkState (loading s) (topics s) (quizState s) (csvContent s) (fileName s)
        v (currentQuestions s) (currentQuestionIndex s)
        (userResponses s) (isDrawerOpen s) (message s) (selectedTopicIds s) (openMenuId s)
  | setCurrentQuestions v =>
      mkState (loading s) (topics s) (quizState s) (csvContent s) (fileName s)
        (newTopicName s) v (currentQuestionIndex s)
        (userResponses s) (isDrawerOpen s) (message s) (selectedTopicIds s) (openMenuId s)
  | setCurrentQuestionIndex v =>
      mkState (loading s) (topics s) (quizState s) (csvContent s) (fileName s)
        (newTopicName s) (currentQuestions s) v
        (userResponses s) (isDrawerOpen s) (message s) (selectedTopicIds s) (openMenuId s)
  | setUserResponses f =>
      mkState (loading s) (topics s) (quizState s) (csvContent s) (fileName s)
        (newTopicName s) (currentQuestions s) (currentQuestionIndex s)
        (f (userResponses s)) (isDrawerOpen s) (message s) (selectedTopicIds s) (openMenuId s)
  | setIsDrawerOpen f =>
      mkState (loading s) (topics s) (quizState s) (csvContent s) (fileName s)
        (newTopicName s) (currentQuestions s) (currentQuestionIndex s)
        (userResponses s) (f (isDrawerOpen s)) (message s) (selectedTopicIds s) (openMenuId s)
  | setMessage v =>
      mkState (loading s) (topics s) (quizState s) (csvContent s) (fileName s)
        (newTopicName s) (currentQuestions s) (currentQuestionIndex s)
        (userResponses s) (isDrawerOpen s) v (selectedTopicIds s) (openMenuId s)
  | setTimeout _ _ => s
  end.

(** The state after a handler has run: its setter calls in order.  What
    a timer will do later is not part of it. *)
Definition dispatch (acts : list action) (s : AppState) : AppState :=
  fold_left apply acts s.

(** ** The session: answer check, score and handlers *)

Module App.
Import JS.

(** [array.indexOf(x)] on texts given by their code units, [None] for
    -1. *)
Fixpoint indexOf (x : list N) (l : list (list N)) : option nat :=
  match l with
  | [] => None
  | y :: l' => if bool_decide (y = x) then Some 0 else S <$> indexOf x l'
  end.

Definition letters : list (list N) := map units ["A"; "B"; "C"; "D"].

Definition checkAnswer (selectedOption : string) (question : option Question.t) : bool :=
  match question with
  | None => false
  | Some qu =>
      if match Question.correct qu with
         | Some c => String.eqb selectedOption c
         | None => false
         end
      then true
      else
        let correctChar := (fun c => toUpperCase (trim c)) <$> Question.correct qu in
        let idx := correctChar ≫= (fun c => indexOf c letters) in
        match idx, Question.options qu with
        | Some i, Some opts =>
            match opts !! i with
            | Some o => String.eqb o selectedOption
            | None => false
            end
        | _, _ => false
        end
  end.

Definition currentQuestion (s : AppState) : option Question.t :=
  currentQuestions s !! currentQuestionIndex s.

(** [userResponses[i] || { selectedOption: null, isCorrect: false,
    isExplanationVisible: false }] *)
Definition responseAt (responses : gmap nat Response) (i : nat) : Response :=
  default (mkResponse None (Some false) false) (responses !! i).

Definition currentResponse (s : AppState) : Response :=
  responseAt (userResponses s) (currentQuestionIndex s).

(** [{ ...(prev[i] || {}), isExplanationVisible: v }] *)
Definition withVisibility (prev : gmap nat Response) (i : nat) (v : bool) : Response :=
  mkResponse (prev !! i ≫= selectedOption) (prev !! i ≫= isCorrect) v.

(** [Date.now()] is read once for each question: [clock i] is the reading
    in the callback of the question at index [i]. *)
Definition startPractice (clock : nat -> N) (questionsList : option (list Question.t))
    : list action :=
  match questionsList with
  | None | Some [] => [setMessage "No questions to practice."]
  | Some l =>
      let withIds :=
        imap (fun i qu =>
                Question.set_id
                  (Num.toString (N.of_nat i) +:+ "-" +:+ Num.toString (clock i)) qu) l in
      [setCurrentQuestions withIds; setCurrentQuestionIndex 0;
       setUserResponses (fun _ => ∅); setQuizState PRACTICE;
       setIsDrawerOpen (fun _ => false)]
  end.

Definition nameTaken (name : string) (ts : list Topic) : bool :=
  existsb (fun t => String.eqb (toLowerCase (topicName t)) (toLowerCase (trim name))) ts.

Definition handleImport (now : N) (s : AppState) : list action :=
  if negb (truthy (trim (csvContent s)))
  then [setMessage "Please select a file OR paste content."]
  else if negb (truthy (trim (newTopicName s)))
  then [setMessage "Enter topic name."]
  else
    let parsed := CSV.parseCSV (csvContent s) in
    if length parsed =? 0
    then [setMessage "No valid questions parsed from content."]
    else if nameTaken (newTopicName s) (topics s)
    then [setMessage "Topic with this name already exists."]
    else
      let newTopic :=
        mkTopic ("topic-" +:+ Num.toString now) (trim (newTopicName s)) parsed in
      [setTopics (fun prev => newTopic :: prev); setCsvContent "";
       setNewTopicName ""; setFileName None;
       setMessage ("Saved '" +:+ topicName newTopic +:+ "' (" +:+
                   Num.toString (N.of_nat (length parsed)) +:+ " questions)");
       setTimeout 3000 (setMessage "")].

Definition handleOptionSelect (option : string) (s : AppState) : list action :=
  let isCorrect := checkAnswer option (currentQuestion s) in
  let i := currentQuestionIndex s in
  [setUserResponses (fun prev =>
     <[i := mkResponse (Some option) (Some isCorrect)
              (match prev !! i with
               | Some r => isExplanationVisible r
               | None => false
               end)]> prev)].

Definition toggleExplanation (s : AppState) : list action :=
  let i := currentQuestionIndex s in
  [setUserResponses (fun prev =>
     <[i := withVisibility prev i (negb (isExplanationVisible (currentResponse s)))]> prev)].

(** The Previous button. *)
Definition previous (s : AppState) : list action :=
  if 0 <? currentQuestionIndex s
  then
    let newIndex := currentQuestionIndex s - 1 in
    [setUserResponses (fun prev => <[newIndex := withVisibility prev newIndex false]> prev);
     setCurrentQuestionIndex newIndex]
  else [setQuizState TOPIC_SELECT].

Definition isLast (s : AppState) : bool :=
  currentQuestionIndex s + 1 =? length (currentQuestions s).

(** The Next button. *)
Definition next (s : AppState) : list action :=
  if isLast s
  then [setQuizState SUMMARY]
  else
    let newIndex := currentQuestionIndex s + 1 in
    [setUserResponses (fun prev => <[newIndex := withVisibility prev newIndex false]> prev);
     setCurrentQuestionIndex newIndex].

(** A button of the "Jump To" list. *)
Definition jumpTo (i : nat) : list action :=
  [setCurrentQuestionIndex i; setIsDrawerOpen (fun _ => false)].

(** [Object.entries]: the keys are array indices, which come in
    ascending order. *)
Definition keyLe (a b : nat * Response) : Prop := a.1 ≤ b.1.
#[global] Instance keyLe_dec a b : Decision (keyLe a b) := decide (a.1 ≤ b.1).

Definition entries (responses : gmap nat Response) : list (nat * Response) :=
  merge_sort keyLe (map_to_list responses).

Record Tally : Type := mkTally {
  t_attempted : nat;
  t_corrects : nat;
  t_incorrects : list Question.t
}.

Definition selected (r : Response) : bool :=
  match selectedOption r with
  | Some o => truthy o
  | None => false
  end.

Definition markedCorrect (r : Response) : bool :=
  match isCorrect r with
  | Some b => b
  | None => false
  end.

(** The callback of [forEach]. *)
Definition scoreStep (currentQuestions : list Question.t) (t : Tally)
    (kr : nat * Response) : Tally :=
  let '(k, r) := kr in
  if selected r then
    if markedCorrect r
    then mkTally (t_attempted t + 1) (t_corrects t + 1) (t_incorrects t)
    else
      match currentQuestions !! k with
      | Some orig => mkTally (t_attempted t + 1) (t_corrects t) (t_incorrects t ++ [orig])
      | None => mkTally (t_attempted t + 1) (t_corrects t) (t_incorrects t)
      end
  else t.

Record Score : Type := mkScore {
  finalScore : nat;
  attempted : nat;
  total : nat;
  incorrects : list Question.t;
  unanswered : Z;
  accuracy : Z
}.

Definition percent (corrects attempted : nat) : Z :=
  if 0 <? attempted
  then Num.round (Num.mul (Num.div (Num.ofNat corrects) (Num.ofNat attempted)) (Num.ofNat 100))
  else 0%Z.

Definition calculateScore (s : AppState) : Score :=
  let t := fold_left (scoreStep (currentQuestions s)) (entries (userResponses s))
             (mkTally 0 0 []) in
  let total := length (currentQuestions s) in
  mkScore (t_corrects t) (t_attempted t) total (t_incorrects t)
    (Z.of_nat total - Z.of_nat (t_attempted t))
    (percent (t_corrects t) (t_attempted t)).

(** The controls that the statements below are about.  A control acts
    only on the screen that shows it, and only while it is shown and
    enabled; while [loading] is set no screen with controls is shown. *)
Inductive event : Type :=
| TypeTopicName (text : string)
| TypeContent (text : string)
| PressPractice (questionsList : list Question.t)
| PressSaveTopic
| PressMenu
| PressList
| PressOption (option : string)
| PressExplanation
| PressPrevious
| PressNext
| PressJump (i : nat)
| PressBackToTopics
| PressReview.

(** The setter calls that an event leads to.  [clock] gives the readings
    of [Date.now()] during the handler. *)
Definition handler (clock : nat -> N) (e : event) (s : AppState) : list action :=
  if loading s then [] else
  match quizState s, e with
  | TOPIC_SELECT, TypeTopicName text => [setNewTopicName text]
  | TOPIC_SELECT, TypeContent text =>
      if CSV.truthyOpt (fileName s) then [] else [setCsvContent text]
  | TOPIC_SELECT, PressPractice l => startPractice clock (Some l)
  | TOPIC_SELECT, PressSaveTopic =>
      if truthy (trim (newTopicName s)) then handleImport (clock 0) s else []
  | PRACTICE, PressMenu => [setQuizState TOPIC_SELECT]
  | PRACTICE, PressList => [setIsDrawerOpen negb]
  | PRACTICE, PressOption o =>
      match currentQuestion s ≫= Question.options with
      | Some opts => if bool_decide (o ∈ opts) then handleOptionSelect o s else []
      | None => []
      end
  | PRACTICE, PressExplanation => toggleExplanation s
  | PRACTICE, PressPrevious => previous s
  | PRACTICE, PressNext => next s
  | PRACTICE, PressJump i =>
      if isDrawerOpen s && (i <? length (currentQuestions s)) then jumpTo i else []
  | SUMMARY, PressBackToTopics => [setQuizState TOPIC_SELECT]
  | SUMMARY, PressReview =>
      match incorrects (calculateScore s) with
      | [] => []
      | l => startPractice clock (Some l)
      end
  | _, _ => []
  end.

Definition step (clock : nat -> N) (e : event) (s : AppState) : AppState :=
  dispatch (handler clock e s) s.

End App.


(** * Vocabulary of the statements *)

(** ** Records and rows *)

Module Spec.
Import JS CSV.

(** The id that [startPractice] gives to the question at index [i]. *)
Definition sessionId (clock : nat -> N) (i : nat) : string :=
  Num.toString (N.of_nat i) +:+ "-" +:+ Num.toString (clock i).

(** The values of the columns whose mapped key satisfies [p], in the
    order of the columns. *)
Fixpoint columnValues (p : option string -> bool) (headerMap : list (option string))
    (values : list string) : list string :=
  match headerMap, values with
  | k :: headerMap', v :: values' =>
      if p k then v :: columnValues p headerMap' values'
      else columnValues p headerMap' values'
  | _, _ => []
  end.

(** The loop over the columns, column by column. *)
Fixpoint walk (headerMap : list (option string)) (values : list string)
    (v : RowVars) : RowVars :=
  match headerMap, values with
  | k :: headerMap', value :: values' => walk headerMap' values' (keyStep v k value)
  | _, _ => v
  end.

(** The first value if there is one, else the second. *)
Definition orElse {A} (a b : option A) : option A :=
  match a with Some x => Some x | None => b end.

(** The blank characters, by their codes: tab, line feed, vertical tab,
    form feed, carriage return, space, no-break space. *)
Definition blankCodes : list nat := [9; 10; 11; 12; 13; 32; 160].

Definition blank (c : ascii) : bool :=
  existsb (Nat.eqb (nat_of_ascii c)) blankCodes.

Fixpoint blanks (s : string) : bool :=
  match s with
  | EmptyString => true
  | String c s' => blank c && blanks s'
  end.

Definition firstBlank (s : string) : bool :=
  match s with
  | EmptyString => false
  | String c _ => blank c
  end.

Fixpoint lastBlank (s : string) : bool :=
  match s with
  | EmptyString => false
  | String c EmptyString => blank c
  | String _ s' => lastBlank s'
  end.

(** The text has no blank at its start and none at its end. *)
Definition tight (s : string) : bool := negb (firstBlank s) && negb (lastBlank s).

(** The index that a letter stands for: A or a is 0, up to D or d, 3. *)
Definition letterIndex (x : ascii) : option nat :=
  let n := nat_of_ascii x in
  if (n =? 65) || (n =? 97) then Some 0
  else if (n =? 66) || (n =? 98) then Some 1
  else if (n =? 67) || (n =? 99) then Some 2
  else if (n =? 68) || (n =? 100) then Some 3
  else None.

(** The text is one of the letters A to D, in either case, with blanks
    before and after it or none: the letter of index [i]. *)
Definition resolves (c : string) (i : nat) : Prop :=
  exists pre x post,
    c = pre +:+ String x post /\ blanks pre = true /\ blanks post = true /\
    letterIndex x = Some i.

(** A data line whose number of fields differs from the header's. *)
Definition mismatch (rawHeaders : list string) (line : string) : bool :=
  negb (length (parseLine line) =? length rawHeaders).

(** The questions that one line contributes. *)
Definition lineRecords (rawHeaders : list string) (headerMap : list (option string))
    (line : string) : list Question.t :=
  questions (processLine rawHeaders headerMap (mkImport [] []) 0 line).

End Spec.

(** ** Fields and tokens *)

Module Row.
Import JS Regex CSV.

(** The greedy loop over one character class, written out: the longest
    run is tried first, then the shorter ones. *)
Fixpoint greedy (p : ascii -> bool) (s : string) (k : cont) : option string :=
  match s with
  | EmptyString => k EmptyString
  | String a s' =>
      if p a
      then match greedy p s' k with
           | Some x => Some x
           | None => k s
           end
      else k s
  end.

(** Writing a text inside quotes doubles each quote of it. *)
Fixpoint escape (s : string) : string :=
  match s with
  | EmptyString => EmptyString
  | String a s' =>
      if ascii_eqb dquote a then String dquote (String dquote (escape s'))
      else String a (escape s')
  end.

(** The quotes of the text come in pairs. *)
Fixpoint pairedQuotes (s : string) : bool :=
  match s with
  | EmptyString => true
  | String a s' =>
      if ascii_eqb dquote a
      then match s' with
           | String b s'' => ascii_eqb dquote b && pairedQuotes s''
           | EmptyString => false
           end
      else pairedQuotes s'
  end.

(** A field of a row: bare text, or a text written inside quotes. *)
Inductive Field : Type :=
| Bare (w : string)
| Quoted (content : string).

Definition render (f : Field) : string :=
  match f with
  | Bare w => w
  | Quoted c => dq +:+ escape c +:+ dq
  end.

Fixpoint noChar (c : ascii) (s : string) : bool :=
  match s with
  | EmptyString => true
  | String a s' => negb (ascii_eqb c a) && noChar c s'
  end.

(** Bare text holds no comma and does not start with a quote. *)
Definition wellFormed (f : Field) : bool :=
  match f with
  | Bare w => noChar comma w && negb (startsWith dq w)
  | Quoted _ => true
  end.

Definition isEmptyBare (f : Field) : bool :=
  match f with
  | Bare EmptyString => true
  | _ => false
  end.

Definition fieldValue (f : Field) : string :=
  match f with
  | Bare w => trim w
  | Quoted c => trim c
  end.

(** The row that the fields make, commas between them. *)
Definition joinFields (fs : list Field) : string :=
  String.concat "," (map render fs).

(** The fields that leave a token. *)
Definition tokenFields (fs : list Field) : list Field :=
  List.filter (fun f => negb (isEmptyBare f)) fs.

(** What follows a field in a row: nothing after the last one, else a
    comma and the fields that remain. *)
Definition afterField (fs : list Field) : string :=
  match fs with
  | [] => EmptyString
  | _ => String comma (joinFields fs)
  end.

End Row.

Module Pattern.
Import JS Regex CSV.

(** The parts of [reQuoted]: a pair of quotes with the text after it, and
    the closing quote as the continuation of the loop over the pairs. *)
Definition rePair : regex :=
  Cat (Chr dquote) (Cat (Chr dquote) (Star (NotChr dquote))).

Definition closing : cont := fun s => run (Chr dquote) s Some.

Definition notQuote (a : ascii) : bool := negb (ascii_eqb dquote a).

(** The text does not go on with a quote. *)
Definition noQuoteAhead (s : string) : Prop :=
  match s with
  | EmptyString => True
  | String a _ => ascii_eqb dquote a = false
  end.

(** The text is over or goes on with a comma. *)
Definition fieldEnd (s : string) : Prop :=
  match s with
  | EmptyString => True
  | String a _ => ascii_eqb comma a = true
  end.

End Pattern.

(** ** Scores *)

Module Tally.
Import JS App.

(** An entry that counts as attempted, as answered rightly, as answered
    wrongly. *)
Definition isAttempted (kr : nat * Response) : bool := selected kr.2.
Definition isRight (kr : nat * Response) : bool := selected kr.2 && markedCorrect kr.2.
Definition isWrong (kr : nat * Response) : bool :=
  selected kr.2 && negb (markedCorrect kr.2).

(** The integer nearest to [num / den], the upper one at a tie, in exact
    arithmetic. *)
Definition roundHalfUp (num den : Z) : Z := ((2 * num + den) / (2 * den))%Z.

End Tally.

(** ** Sample data *)

Module Sample.
Import JS CSV App.

(** A question whose options are four capitals. *)
Definition capitals (correct : string) : Question.t :=
  Question.mk (Some "Which city is the capital of Italy?")
    (Some ["Paris"; "Rome"; "Berlin"; "Madrid"]) (Some correct) None None.

(** A question whose right answer is yes. *)
Definition plain (text : string) : Question.t :=
  Question.mk (Some text) (Some ["yes"; "no"]) (Some "A") None None.

Definition nl : string := String LF EmptyString.

Definition header : string := "Question,Option A,Option B,Correct Answer".

(** A file of two valid rows. *)
Definition csv : string :=
  header +:+ nl +:+ "1+1?,2,3,A" +:+ nl +:+ "2+2?,3,4,B".

(** Three data rows, the second with two fields only, and the file they
    make under the header. *)
Definition rows : list string := ["1+1?,2,3,A"; "bad,row"; "2+2?,3,4,B"].

Definition text : string :=
  header +:+ nl +:+ "1+1?,2,3,A" +:+ nl +:+ "bad,row" +:+ nl +:+ "2+2?,3,4,B".

(** A row of five positions, the second of them empty. *)
Definition shifted : string := "2+2?,,3,4,B".

(** A row of three positions, the second of them empty, in which text
    follows a closing quote. *)
Definition glued : string := dq +:+ "a" +:+ dq +:+ "b,,c".

(** The field of the quoted-field example, quotes included, and its value. *)
Definition quotedField : string :=
  dq +:+ "a, " +:+ dq +:+ dq +:+ "b" +:+ dq +:+ dq +:+ " c" +:+ dq.

Definition quotedValue : string := "a, " +:+ dq +:+ "b" +:+ dq +:+ " c".

(** The text x y between blanks, among them a tab and no-break spaces. *)
Definition padded : string :=
  String " " (String NBSP (String (ascii_of_nat 9) ("x y" +:+ String NBSP " "))).

Definition paddedValue : string := "x y".

(** The letter b, small, after a no-break space and before a line feed. *)
Definition paddedB : string := String NBSP (String "b" (String LF " ")).

(** A name whose first letter is an E with an acute accent, in capitals
    but for the rest, and the same name with the cases exchanged, a
    no-break space before it. *)
Definition ecole : string := String (ascii_of_nat 201) "cole".

Definition ecoleVariant : string :=
  String NBSP (String (ascii_of_nat 233) "COLE").

(** A clock that advances by one millisecond from one reading to the next. *)
Definition clock (i : nat) : N := 1700000000000 + N.of_nat i.

(** The user types a topic name and pastes content on the topic screen. *)
Definition typed (name content : string) (s : AppState) : AppState :=
  step clock (TypeContent content) (step clock (TypeTopicName name) s).

(** The store after a first import under the name Math. *)
Definition mathStore : AppState :=
  step clock PressSaveTopic (typed "Math" csv initialState).

(** The store after a first import under the accented name. *)
Definition ecoleStore : AppState :=
  step clock PressSaveTopic (typed ecole csv initialState).

(** A session of three questions, just started. *)
Definition started : AppState :=
  step clock (PressPractice [plain "first"; plain "second"; plain "third"]) initialState.

(** That session at its second question, the explanation of the third
    one left open and the list of questions shown. *)
Definition session : AppState :=
  step clock PressList
    (step clock PressPrevious
       (step clock PressExplanation
          (step clock PressNext (step clock PressNext started)))).

(** The user answers the current question and presses Next, for each
    answer of the list in turn. *)
Definition answerAll (answers : list string) (s : AppState) : AppState :=
  fold_left (fun s a => step clock PressNext (step clock (PressOption a) s)) answers s.

(** A session of [n] questions played to the end, with [right] right
    answers followed by wrong ones. *)
Definition played (n right : nat) : AppState :=
  answerAll (replicate right "yes" ++ replicate (n - right) "no")
    (step clock (PressPractice (replicate n (plain "Is it so?"))) initialState).

(** Ten questions, six of them answered, four of these rightly. *)
Definition sixOfTen : AppState :=
  answerAll ["yes"; "yes"; "yes"; "yes"; "no"; "no"]
    (step clock (PressPractice (replicate 10 (plain "Is it so?"))) initialState).

End Sample.

(** * The topic screen, the files and the views *)

(** ** Shuffling *)

Module Shuffle.

(** The source of randomness of [shuffleArray].  [Math.random()] is a
    number of the interval from 0 (included) to 1 (excluded), so that
    [Math.floor(Math.random() * currentIndex)] is an index below
    [currentIndex]: [pick k n] is its value at pass [k] of the loop, when
    [currentIndex] is [n + 1]. *)
Definition Picks : Type := nat -> forall n : nat, fin (S n).

(** The draws of [pick], but for [j] when [currentIndex] is [c + 1]. *)
Definition pickAt (c : nat) (j : fin (S c)) (pick : Picks) : Picks :=
  fun k n =>
    match decide (c = n) with
    | left e => eq_rect c (fun m => fin (S m)) j n e
    | right _ => pick k n
    end.

Section Shuffle.
Context {A : Type}.

(** [[a[i], a[j]] = [a[j], a[i]]]: the right-hand side is read first,
    then [a[i]] and [a[j]] are written in this order.  Both indices lie
    inside the array in every pass of the loop. *)
Definition swap (i j : nat) (a : list A) : list A :=
  match a !! i, a !! j with
  | Some x, Some y => <[j := x]> (<[i := y]> a)
  | _, _ => a
  end.

(** The [while] loop, from pass [k] on. *)
Fixpoint loop (pick : Picks) (k currentIndex : nat) (a : list A) : list A :=
  match currentIndex with
  | 0 => a
  | S c =>
      let randomIndex := fin_to_nat (pick k c) in
      loop pick (S k) c (swap c randomIndex a)
  end.

(** [array.slice()] is a copy: the argument itself is left as it is. *)
Definition shuffleArray (pick : Picks) (array : list A) : list A :=
  loop pick 0 (length array) array.

End Shuffle.

End Shuffle.

(** ** The handlers of the topic screen *)

Module Topics.
Import JS App.

(** A setter call of the topic screen: one of the calls above, or a
    call of one of the three other setters. *)
Inductive call : Type :=
| state (a : action)
| setSelectedTopicIds (f : list string -> list string)
| setOpenMenuId (v : option string)
| setLoading (v : bool).

Definition perform (s : AppState) (c : call) : AppState :=
  match c with
  | state a => apply s a
  | setSelectedTopicIds f =>
      mkState (loading s) (topics s) (quizState s) (csvContent s) (fileName s)
        (newTopicName s) (currentQuestions s) (currentQuestionIndex s)
        (userResponses s) (isDrawerOpen s) (message s) (f (selectedTopicIds s)) (openMenuId s)
  | setOpenMenuId v =>
      mkState (loading s) (topics s) (quizState s) (csvContent s) (fileName s)
        (newTopicName s) (currentQuestions s) (currentQuestionIndex s)
        (userResponses s) (isDrawerOpen s) (message s) (selectedTopicIds s) v
  | setLoading v =>
      mkState v (topics s) (quizState s) (csvContent s) (fileName s)
        (newTopicName s) (currentQuestions s) (currentQuestionIndex s)
        (userResponses s) (isDrawerOpen s) (message s) (selectedTopicIds s) (openMenuId s)
  end.

Definition run (calls : list call) (s : AppState) : AppState :=
  fold_left perform calls s.

(** [ids.includes(id)] *)
Definition includesId (id : string) (ids : list string) : bool :=
  existsb (fun tId => String.eqb tId id) ids.

(** [ids.filter(tId => tId !== id)] *)
Definition withoutId (id : string) (ids : list string) : list string :=
  List.filter (fun tId => negb (String.eqb tId id)) ids.

(** [topics.filter(t => t.id !== id)] *)
Definition withoutTopic (id : string) (ts : list Topic) : list Topic :=
  List.filter (fun t => negb (String.eqb (topic_id t) id)) ts.

(** The function that [handleTopicToggle] passes to the setter. *)
Definition toggled (id : string) (prev : list string) : list string :=
  if includesId id prev then withoutId id prev else prev ++ [id].

Definition handleTopicToggle (id : string) : list call :=
  [setSelectedTopicIds (toggled id)].

(** The button of the alert that the user presses. *)
Inductive AlertButton : Type := Cancel | Delete.

Definition handleDeleteTopic (id name : string) (answer : AlertButton) : list call :=
  setOpenMenuId None ::
  match answer with
  | Cancel => []
  | Delete => [state (setTopics (withoutTopic id)); setSelectedTopicIds (withoutId id)]
  end.

(** The questions of the selected topics, in the order of the topics. *)
Definition selectedQuestions (s : AppState) : list Question.t :=
  flat_map topic_questions
    (List.filter (fun t => includesId (topic_id t) (selectedTopicIds s)) (topics s)).

Definition practiceRandomFromSelected (clock : nat -> N) (pick : Shuffle.Picks)
    (s : AppState) : list call :=
  if length (selectedTopicIds s) =? 0
  then [state (setMessage "Please select at least one topic for random practice.");
        state (setTimeout 3000 (setMessage ""))]
  else
    let shuffledQuestions := Shuffle.shuffleArray pick (selectedQuestions s) in
    map state (startPractice clock (Some shuffledQuestions)).

End Topics.

(** ** Files *)

Module Files.
Import JS Regex.

Definition dot : ascii := ascii_of_nat 46.
Definition slash : ascii := ascii_of_nat 47.

(** The characters of a word, one after the other. *)
Fixpoint lit (w : string) : regex :=
  match w with
  | EmptyString => Eps
  | String c w' => Cat (Chr c) (lit w')
  end.

(** [$]: the match has to reach the end of the text. *)
Definition atEnd : cont :=
  fun s => match s with EmptyString => Some EmptyString | _ => None end.

(** The search for a pattern that ends in [$]: the positions are tried
    from the left, and the answer is the text before the match. *)
Fixpoint searchEnd (r : regex) (s : string) : option string :=
  match run r s atEnd with
  | Some _ => Some EmptyString
  | None =>
      match s with
      | EmptyString => None
      | String c s' => String c <$> searchEnd r s'
      end
  end.

(** [/\.(csv|txt|xls|xlsx)$/] without its [$] *)
Definition reExtension : regex :=
  Cat (Chr dot) (Alt (lit "csv") (Alt (lit "txt") (Alt (lit "xls") (lit "xlsx")))).

(** [/\.[^/.]+$/] without its [$] *)
Definition reSuffix : regex :=
  Cat (Chr dot) (Plus (Cls (fun c => negb (ascii_eqb c slash || ascii_eqb c dot)))).

(** [name.match(/\.(csv|txt|xls|xlsx)$/)] used as a condition *)
Definition hasExtension (name : string) : bool :=
  match searchEnd reExtension name with Some _ => true | None => false end.

(** [name.replace(/\.[^/.]+$/, "")] *)
Definition stripSuffix (name : string) : string :=
  match searchEnd reSuffix name with Some before => before | None => name end.

(** A file: its name and the text that reading it gives, [None] when the
    reading fails. *)
Record File : Type := mkFile {
  file_name : string;
  file_text : option string
}.

Import Topics.

(** [handleWebFileChange]: [file] is [event.target.files[0]].  The calls
    of [reader.onload] or [reader.onerror] come last, as they happen
    when the reading is over. *)
Definition handleWebFileChange (file : option File) : list call :=
  match file with
  | None => []
  | Some f =>
      let name := toLowerCase (file_name f) in
      if negb (hasExtension name)
      then [state (setMessage "Invalid file type. Please select CSV, TXT, XLS, or XLSX.")]
      else
        [state (setFileName (Some (file_name f)));
         state (setNewTopicName (stripSuffix (file_name f)))] ++
        match file_text f with
        | Some content =>
            [state (setCsvContent content);
             state (setMessage ("File loaded: " +:+ file_name f +:+
                                ". Enter/confirm topic name and save."));
             state (setTimeout 4000 (setMessage ""))]
        | None => [state (setMessage "Error reading file.")]
        end
  end.

Inductive Platform : Type := web | ios | android | otherOS.

(** What [DocumentPicker.getDocumentAsync] comes to: it throws, the
    selection is cancelled, the result is neither a selection nor a
    cancellation, or it is an asset, whose text is what [fetch] gives
    ([None] when [fetch] throws). *)
Inductive Picking : Type :=
| Throws
| Cancelled
| Neither
| Asset (f : File).

(** [handleNativeFileSelect]: [picker] is [None] when the module
    [expo-document-picker] could not be loaded. *)
Definition handleNativeFileSelect (os : Platform) (picker : option Picking) : list call :=
  match picker with
  | None =>
      [state (setMessage ("File picking is only available after the app is built natively " +:+
                          "(APK/IPA). Please use Paste Content for now."))]
  | Some result =>
      [setLoading true] ++
      match result with
      | Asset f =>
          match os with
          | ios | android =>
              match file_text f with
              | Some content =>
                  [state (setCsvContent content);
                   state (setFileName (Some (file_name f)));
                   state (setNewTopicName (stripSuffix (file_name f)));
                   state (setMessage ("File loaded: " +:+ file_name f +:+ ". Ready to save."));
                   state (setTimeout 4000 (setMessage ""))]
              | None =>
                  [state (setMessage "Error picking file. Ensure permissions are granted.")]
              end
          | _ => []
          end
      | Cancelled => [state (setMessage "File selection cancelled.")]
      | Neither => []
      | Throws => [state (setMessage "Error picking file. Ensure permissions are granted.")]
      end ++
      [setLoading false]
  end.

(** [handleFileSelectPress]: on the web the click opens the file dialog,
    and [chosen] is the file of the change event that follows, if one
    follows. *)
Definition handleFileSelectPress (os : Platform) (chosen : option File)
    (picker : option Picking) : list call :=
  [state (setCsvContent ""); state (setFileName None)] ++
  match os with
  | web => handleWebFileChange chosen
  | _ => handleNativeFileSelect os picker
  end.

End Files.

(** ** What the practice screen shows *)

Module View.
Import JS App.

(** The colours of an option: plain, selected and right, selected and
    wrong, right but not selected. *)
Inductive Highlight : Type := Plain | Right | Wrong | Reveal.

Definition isSelected (s : AppState) (opt : string) : bool :=
  match selectedOption (currentResponse s) with
  | Some o => String.eqb o opt
  | None => false
  end.

(** The colours chosen in the callback of [options.map]. *)
Definition optionStyle (s : AppState) (opt : string) : Highlight :=
  let isAnswered := selected (currentResponse s) in
  let isCorrectOption := checkAnswer opt (currentQuestion s) in
  if isAnswered then
    if isSelected s opt && isCorrectOption then Right
    else if isSelected s opt && negb (markedCorrect (currentResponse s)) then Wrong
    else if negb (isSelected s opt) && isCorrectOption then Reveal
    else Plain
  else Plain.

(** The explanation box of the practice screen:
    [currentResponse.isExplanationVisible && currentQuestion.explanation].
    Reading [explanation] of a question that does not exist throws; the
    outer [None] stands for that. *)
Definition explanationBox (s : AppState) : option (option string) :=
  if isExplanationVisible (currentResponse s)
  then
    match currentQuestion s with
    | Some qu =>
        Some (match Question.explanation qu with
              | Some e => if truthy e then Some e else None
              | None => None
              end)
    | None => None
    end
  else Some None.

End View.

(** ** The controls of the three screens *)

Module Ui.
Import JS App Topics Files.

(** The controls: those of [App.event], and the other controls of the
    topic screen.  A row of the topic list is named by its place in
    [topics].  [TimerFires] is the callback of a pending timer. *)
Inductive control : Type :=
| Quiz (e : event)
| PressCheckbox (row : nat)
| PressDots (row : nat)
| PressDelete (row : nat) (answer : AlertButton)
| PressRandom
| PressSelectFile (os : Platform) (chosen : option File) (picker : option Picking)
| TimerFires.

Definition onTopicScreen (s : AppState) : bool :=
  match quizState s with TOPIC_SELECT => true | _ => false end.

Definition isMenuOpen (s : AppState) (t : Topic) : bool :=
  match openMenuId s with
  | Some id => String.eqb id (topic_id t)
  | None => false
  end.

Definition handle (clock : nat -> N) (pick : Shuffle.Picks) (c : control) (s : AppState)
    : list call :=
  match c with
  | TimerFires => [state (setMessage "")]
  | Quiz e => map state (handler clock e s)
  | _ =>
      if loading s || negb (onTopicScreen s) then []
      else
        match c with
        | PressCheckbox row =>
            match topics s !! row with
            | Some t => handleTopicToggle (topic_id t)
            | None => []
            end
        | PressDots row =>
            match topics s !! row with
            | Some t => [setOpenMenuId (if isMenuOpen s t then None else Some (topic_id t))]
            | None => []
            end
        | PressDelete row answer =>
            match topics s !! row with
            | Some t =>
                if isMenuOpen s t then handleDeleteTopic (topic_id t) (topicName t) answer
                else []
            | None => []
            end
        | PressRandom =>
            if (0 <? length (topics s)) && negb (length (selectedTopicIds s) =? 0)
            then practiceRandomFromSelected clock pick s
            else []
        | PressSelectFile os chosen picker => handleFileSelectPress os chosen picker
        | _ => []
        end
  end.

(** What the environment supplies to a handler: the clock, the random
    indices, and the control that the user operates. *)
Record input : Type := mkInput {
  clock : nat -> N;
  pick : Shuffle.Picks;
  operated : control
}.

Definition step (i : input) (s : AppState) : AppState :=
  run (handle (clock i) (pick i) (operated i) s) s.

(** The state after a sequence of inputs, from the first render on,
    each handler having run to its end (the file handlers with what
    they await). *)
Definition after (trace : list input) : AppState :=
  fold_left (fun s i => step i s) trace initialState.

End Ui.

(** * Vocabulary of the further statements *)

Module Text.
Import JS CSV.





(** The lines of a text, put together with a line separator. *)
Definition LFs : string := String LF EmptyString.
Definition CRLF : string := String CR (String LF EmptyString).

Definition plainLine (line : string) : bool :=
  Row.noChar LF line && Row.noChar CR line.

(** A cell of a row does not start with a quote. *)
Definition bareCell (cell : string) : bool := negb (startsWith dq cell).

End Text.

(** The fields of a state, each under its name. *)
Ltac open_state u :=
  destruct u;
  cbn [loading topics quizState csvContent fileName newTopicName currentQuestions
       currentQuestionIndex userResponses isDrawerOpen message selectedTopicIds
       openMenuId] in *.

Module Valid.
Import JS CSV.

(** What [parseCSV] asks of a record before it keeps it: a question
    text, two options or more, a correct answer that is not empty; the
    parser sets no [id]. *)
Definition record (x : Question.t) : bool :=
  match Question.q x, Question.options x, Question.correct x, Question.id x with
  | Some _, Some os, Some c, None => (2 <=? length os) && truthy c
  | _, _, _, _ => false
  end.

End Valid.

(** ** What holds in every state *)

Module Inv.
Import JS App.

(** The names of the topics, in lower case. *)
Definition lowerNames (ts : list Topic) : list string :=
  map (fun t => toLowerCase (topicName t)) ts.

(** The topic store: the names differ even when case is ignored, every
    topic has a name and complete records, the selection and the open
    menu name topics of the store, and no file is being processed. *)
Record store (s : AppState) : Prop := mkStore {
  shown : loading s = false;
  names_distinct : NoDup (lowerNames (topics s));
  topics_filled :
    forall t, t ∈ topics s ->
      topicName t <> "" /\ topic_questions t <> [] /\
      Forall (fun x => Valid.record x = true) (topic_questions t);
  selection_distinct : NoDup (selectedTopicIds s);
  selection_known :
    forall id, id ∈ selectedTopicIds s -> exists t, t ∈ topics s /\ topic_id t = id;
  menu_known :
    forall id, openMenuId s = Some id -> exists t, t ∈ topics s /\ topic_id t = id
}.

(** The session: off the topic screen there are questions; the index
    and the keys of the responses are indices of the question list; and
    a stored answer is an option of its question, marked as
    [checkAnswer] judges it. *)
Definition sessionOk (st : QuizState) (qs : list Question.t) (i : nat)
    (rs : gmap nat Response) : Prop :=
  (st <> TOPIC_SELECT -> qs <> []) /\
  (qs <> [] -> i < length qs) /\
  (forall k r, rs !! k = Some r -> k < length qs) /\
  (forall k r o, rs !! k = Some r -> selectedOption r = Some o ->
     isCorrect r = Some (checkAnswer o (qs !! k)) /\
     exists opts, qs !! k ≫= Question.options = Some opts /\ o ∈ opts).

Definition session (s : AppState) : Prop :=
  sessionOk (quizState s) (currentQuestions s) (currentQuestionIndex s) (userResponses s).

End Inv.

(** ** File names *)

Module FileName.
Import JS Files.

(** The extensions that the web handler accepts. *)
Definition extensions : list string := ["csv"; "txt"; "xls"; "xlsx"].

Definition dots : string := String dot EmptyString.

Fixpoint allChars (p : ascii -> bool) (s : string) : bool :=
  match s with
  | EmptyString => true
  | String c s' => p c && allChars p s'
  end.

(** A character other than the slash and the dot. *)
Definition plainChar (c : ascii) : bool := negb (ascii_eqb c slash || ascii_eqb c dot).

(** An extension that [/\.[^/.]+$/] takes off: it is not empty and holds
    neither a dot nor a slash. *)
Definition plainExt (ext : string) : bool := truthy ext && allChars plainChar ext.

(** The id of a topic saved when the clock reads [now]. *)
Definition topicId (now : N) : string := "topic-" +:+ Num.toString now.

End FileName.

(** ** A pass through a session *)

Module Play.
Import JS App.

(** A move at a question: an option is pressed, or none is, and then
    the Next button is pressed. *)
Definition move (clock : nat -> N) (m : option string) (s : AppState) : AppState :=
  step clock PressNext
    (match m with
     | Some a => step clock (PressOption a) s
     | None => s
     end).

Definition pass (clock : nat -> N) (moves : list (option string)) (s : AppState)
    : AppState :=
  fold_left (fun s m => move clock m s) moves s.

(** The option pressed is one of those that the question shows. *)
Definition allowed (m : option string) (qu : Question.t) : Prop :=
  match m with
  | Some a => exists opts, Question.options qu = Some opts /\ a ∈ opts
  | None => True
  end.

(** The move is an answer: an option was pressed, and its text is not
    empty. *)
Definition answered (m : option string) : bool :=
  match m with
  | Some a => truthy a
  | None => false
  end.

Definition answeredAt (moves : list (option string)) (i : nat) : bool :=
  match moves !! i with
  | Some m => answered m
  | None => false
  end.

(** The move at index [i] is an answer that [checkAnswer] accepts for
    the question at [i]. *)
Definition rightAt (moves : list (option string)) (qs : list Question.t) (i : nat) : bool :=
  match moves !! i with
  | Some (Some a) => truthy a && checkAnswer a (qs !! i)
  | _ => false
  end.

Definition wrongAt (moves : list (option string)) (qs : list Question.t) (i : nat) : bool :=
  answeredAt moves i && negb (rightAt moves qs i).

(** What the responses hold once the first [k] moves are made. *)
Definition stored (moves : list (option string)) (qs : list Question.t) (k : nat)
    (rs : gmap nat Response) : Prop :=
  (forall i m, i < k -> moves !! i = Some m ->
     rs !! i ≫= selectedOption = m /\
     forall a, m = Some a -> rs !! i ≫= isCorrect = Some (checkAnswer a (qs !! i))) /\
  (forall i, k <= i -> rs !! i ≫= selectedOption = None).

End Play.
(** * Properties *)

(** ** Strings *)

Section Strings.
Import JS.

Lemma append_nil (b : string) : EmptyString +:+ b = b.
Proof. reflexivity. Qed.

Lemma append_cons (c : ascii) (a b : string) : String c a +:+ b = String c (a +:+ b).
Proof. reflexivity. Qed.

Lemma append_nil_r (a : string) : a +:+ EmptyString = a.
Proof. induction a as [|c a IH]; [reflexivity|]. rewrite append_cons, IH. reflexivity. Qed.

Lemma string_append_assoc (a b c : string) : (a +:+ b) +:+ c = a +:+ (b +:+ c).
Proof.
  induction a as [|x a IH]; [reflexivity|].
  rewrite !append_cons, IH. reflexivity.
Qed.

Lemma string_length_append (a b : string) :
  String.length (a +:+ b) = String.length a + String.length b.
Proof. induction a as [|c a IH]; simpl; [reflexivity|]. rewrite IH. reflexivity. Qed.

Lemma substring_prefix (a b : string) :
  String.substring 0 (String.length a) (a +:+ b) = a.
Proof.
  induction a as [|c a IH].
  - rewrite append_nil. destruct b; reflexivity.
  - rewrite append_cons. cbn [String.length String.substring]. rewrite IH. reflexivity.
Qed.

Lemma substring_skip (a b : string) (n : nat) :
  String.substring (String.length a) n (a +:+ b) = String.substring 0 n b.
Proof.
  induction a as [|c a IH]; [reflexivity|].
  rewrite append_cons. cbn [String.length String.substring]. exact IH.
Qed.

Lemma ascii_eqb_refl (a : ascii) : ascii_eqb a a = true.
Proof. apply Ascii.eqb_refl. Qed.

Lemma ascii_eqb_true (a b : ascii) : ascii_eqb a b = true -> a = b.
Proof. apply Ascii.eqb_eq. Qed.

End Strings.

(** ** The matcher *)

Section Matcher.
Import JS Regex CSV Row.

(** The scans have fuel enough: more of it changes nothing. *)
Lemma matchAll_from_fuel (r : regex) (n : nat) :
  forall (m : nat) (s : string),
    String.length s < n -> String.length s < m ->
    matchAll_from r n s = matchAll_from r m s.
Proof.
  induction n as [|n IH]; intros m s Hn Hm; [lia|].
  destruct m as [|m]; [lia|]. cbn [matchAll_from].
  destruct (exec r s) as [rest|].
  - destruct (String.length rest <? String.length s) eqn:Hlt.
    + apply Nat.ltb_lt in Hlt. f_equal. apply IH; lia.
    + destruct s as [|c s]; [reflexivity|]. cbn in Hn, Hm. f_equal. apply IH; lia.
  - destruct s as [|c s]; [reflexivity|]. cbn in Hn, Hm. apply IH; lia.
Qed.

Lemma consumed_app (tok rest : string) : consumed (tok +:+ rest) rest = tok.
Proof.
  unfold consumed. rewrite string_length_append.
  replace (String.length tok + String.length rest - String.length rest)
    with (String.length tok) by lia.
  apply substring_prefix.
Qed.

Lemma replace_from_fuel (r : regex) (rep : string) (n : nat) :
  forall (m : nat) (s : string),
    String.length s < n -> String.length s < m ->
    replace_from r rep n s = replace_from r rep m s.
Proof.
  induction n as [|n IH]; intros m s Hn Hm; [lia|].
  destruct m as [|m]; [lia|]. cbn [replace_from].
  destruct (exec r s) as [rest|].
  - destruct (String.length rest <? String.length s) eqn:Hlt.
    + apply Nat.ltb_lt in Hlt. f_equal. apply IH; lia.
    + destruct s as [|c s]; [reflexivity|]. cbn in Hn, Hm. do 2 f_equal. apply IH; lia.
  - destruct s as [|c s]; [reflexivity|]. cbn in Hn, Hm. f_equal. apply IH; lia.
Qed.

Lemma split_from_fuel (r : regex) (n : nat) :
  forall (m : nat) (piece s : string),
    String.length s <= n -> String.length s <= m ->
    split_from r n piece s = split_from r m piece s.
Proof.
  induction n as [|n IH]; intros m piece s Hn Hm.
  - destruct s as [|c s]; [|cbn in Hn; lia].
    destruct m; cbn [split_from]; rewrite ?append_nil_r; reflexivity.
  - destruct m as [|m].
    + destruct s as [|c s]; [|cbn in Hm; lia].
      cbn [split_from]. rewrite append_nil_r. reflexivity.
    + cbn [split_from]. destruct s as [|c s]; [reflexivity|]. cbn in Hn, Hm.
      destruct (exec r (String c s)) as [rest|].
      * destruct (String.length rest <? String.length (String c s)) eqn:Hlt.
        -- apply Nat.ltb_lt in Hlt. cbn in Hlt. f_equal. apply IH; lia.
        -- destruct piece; [|f_equal]; apply IH; lia.
      * apply IH; lia.
Qed.

(** The scan, one match at a time. *)
Lemma matchAll_unfold (r : regex) (s : string) :
  matchAll r s =
  match exec r s with
  | Some rest =>
      if String.length rest <? String.length s
      then consumed s rest :: matchAll r rest
      else match s with
           | EmptyString => [EmptyString]
           | String _ s' => EmptyString :: matchAll r s'
           end
  | None =>
      match s with
      | EmptyString => []
      | String _ s' => matchAll r s'
      end
  end.
Proof.
  unfold matchAll at 1. cbn [matchAll_from].
  destruct (exec r s) as [rest|].
  - destruct (String.length rest <? String.length s) eqn:Hlt.
    + apply Nat.ltb_lt in Hlt. f_equal. apply matchAll_from_fuel; lia.
    + destruct s as [|c s]; reflexivity.
  - destruct s as [|c s]; reflexivity.
Qed.

(** A match that consumes [tok] yields [tok] and the scan goes on after it. *)
Lemma matchAll_token (r : regex) (tok rest : string) :
  tok <> EmptyString -> exec r (tok +:+ rest) = Some rest ->
  matchAll r (tok +:+ rest) = tok :: matchAll r rest.
Proof.
  intros Hne Hex. rewrite matchAll_unfold, Hex.
  assert (Hlen : String.length rest < String.length (tok +:+ rest)).
  { rewrite string_length_append. destruct tok; [congruence|cbn; lia]. }
  apply Nat.ltb_lt in Hlen. rewrite Hlen, consumed_app. reflexivity.
Qed.

(** Where nothing matches, the scan moves on by one character. *)
Lemma matchAll_skip (r : regex) (c : ascii) (s : string) :
  exec r (String c s) = None -> matchAll r (String c s) = matchAll r s.
Proof. intros Hex. rewrite matchAll_unfold, Hex. reflexivity. Qed.

(** The matcher looks at its continuation through its values only. *)
Lemma run_ext (r : regex) :
  forall (s : string) (k1 k2 : cont),
    (forall s', k1 s' = k2 s') -> run r s k1 = run r s k2.
Proof.
  induction r as [|p|r1 IH1 r2 IH2|r1 IH1 r2 IH2|r IH]; intros s k1 k2 Hk; cbn [run].
  - apply Hk.
  - destruct s as [|a s]; [reflexivity|]. destruct (p a); [apply Hk|reflexivity].
  - apply IH1. intros s'. apply IH2. exact Hk.
  - rewrite (IH1 s k1 k2 Hk), (IH2 s k1 k2 Hk). reflexivity.
  - generalize (String.length s) as n. intros n. revert s.
    induction n as [|n IHn]; intros s; cbn [star_loop]; [apply Hk|].
    rewrite Hk. erewrite IH; [reflexivity|].
    intros s'. cbv beta. rewrite IHn. reflexivity.
Qed.

(** A match succeeds through its continuation only. *)
Lemma run_fail (r : regex) :
  forall s, run r s (fun _ => None) = None.
Proof.
  induction r as [|p|r1 IH1 r2 IH2|r1 IH1 r2 IH2|r IH]; intros s; cbn [run].
  - reflexivity.
  - destruct s as [|a s]; [reflexivity|]. destruct (p a); reflexivity.
  - rewrite (run_ext r1 s _ (fun _ => None)); [apply IH1|]. intros s'. apply IH2.
  - rewrite IH1, IH2. reflexivity.
  - generalize (String.length s) as n. intros n. revert s.
    induction n as [|n IHn]; intros s; cbn [star_loop]; [reflexivity|].
    rewrite (run_ext r s _ (fun _ => None)); [rewrite IH; reflexivity|].
    intros s'. cbv beta. rewrite IHn. destruct (_ <? _); reflexivity.
Qed.

(** The fuel of the loop is enough: more of it changes nothing. *)
Lemma star_loop_more (r : regex) (k : cont) (n : nat) :
  forall s, String.length s <= n ->
    star_loop (run r) (S n) s k = star_loop (run r) n s k.
Proof.
  induction n as [|n IHn]; intros s Hs.
  - destruct s as [|a s]; [|cbn in Hs; lia].
    cbn [star_loop]. rewrite (run_ext r _ _ (fun _ => None)); [|reflexivity].
    rewrite run_fail. reflexivity.
  - cbn [star_loop].
    rewrite (run_ext r s _
               (fun s' => if String.length s' <? String.length s
                          then star_loop (run r) n s' k else None)); [reflexivity|].
    intros s'. cbv beta. destruct (String.length s' <? String.length s) eqn:Hlt;
      [|reflexivity].
    apply Nat.ltb_lt in Hlt. apply IHn. lia.
Qed.

Lemma star_loop_enough (r : regex) (k : cont) (s : string) (n : nat) :
  String.length s <= n -> star_loop (run r) n s k = run (Star r) s k.
Proof.
  cbn [run]. induction 1 as [|n Hle IH]; [reflexivity|].
  rewrite star_loop_more by exact Hle. exact IH.
Qed.

(** A match consumes a prefix of the input: the continuation that
    succeeds was given a suffix of it. *)
Lemma run_suffix (r : regex) :
  forall (s : string) (k : cont) (x : string),
    run r s k = Some x ->
    exists tok s', s = tok +:+ s' /\ k s' = Some x.
Proof.
  induction r as [|p|r1 IH1 r2 IH2|r1 IH1 r2 IH2|r IH]; intros s k x; cbn [run].
  - intros H. exists EmptyString, s. auto.
  - destruct s as [|a s]; [discriminate|]. destruct (p a); [|discriminate].
    intros H. exists (String a EmptyString), s. auto.
  - intros H. apply IH1 in H as (tok1 & s1 & -> & H).
    apply IH2 in H as (tok2 & s2 & -> & H).
    exists (tok1 +:+ tok2), s2. split; [|exact H].
    symmetry. apply string_append_assoc.
  - destruct (run r1 s k) as [y|] eqn:H1.
    + intros [= ->]. apply IH1 in H1. exact H1.
    + apply IH2.
  - generalize (String.length s) as n. intros n. revert s.
    induction n as [|n IHn]; intros s; cbn [star_loop].
    + intros H. exists EmptyString, s. auto.
    + destruct (run r s _) as [y|] eqn:H1.
      * intros [= ->]. apply IH in H1 as (tok1 & s1 & -> & H1).
        destruct (String.length s1 <? String.length (tok1 +:+ s1)); [|discriminate].
        apply IHn in H1 as (tok2 & s2 & -> & H1).
        exists (tok1 +:+ tok2), s2. split; [|exact H1].
        symmetry. apply string_append_assoc.
      * intros H. exists EmptyString, s. auto.
Qed.

Lemma exec_suffix (r : regex) (s rest : string) :
  exec r s = Some rest -> exists tok, s = tok +:+ rest.
Proof.
  intros H. apply run_suffix in H as (tok & s' & -> & [= ->]). eauto.
Qed.

(** The loop over a character class is the greedy scan. *)
Lemma star_class (p : ascii -> bool) (k : cont) (n : nat) :
  forall s, String.length s <= n -> star_loop (run (Cls p)) n s k = greedy p s k.
Proof.
  induction n as [|n IH]; intros s Hs.
  - destruct s; [reflexivity|cbn in Hs; lia].
  - cbn [star_loop]. destruct s as [|a s]; [reflexivity|].
    cbn [run greedy]. destruct (p a); [|reflexivity].
    cbn [String.length]. rewrite (proj2 (Nat.ltb_lt _ _)) by lia.
    rewrite IH by (cbn in Hs; lia). reflexivity.
Qed.

Lemma run_star_class (p : ascii -> bool) (s : string) (k : cont) :
  run (Star (Cls p)) s k = greedy p s k.
Proof. cbn [run]. apply star_class. lia. Qed.

(** The greedy scan over text free of [c], up to the end of the input or
    to an occurrence of [c]. *)
Lemma greedy_bare (c : ascii) (w rest : string) :
  noChar c w = true ->
  match rest with EmptyString => True | String a _ => ascii_eqb c a = true end ->
  greedy (fun a => negb (ascii_eqb c a)) (w +:+ rest) Some = Some rest.
Proof.
  intros Hw Hrest. induction w as [|a w IH].
  - rewrite append_nil. destruct rest as [|b rest]; [reflexivity|].
    cbn [greedy]. rewrite Hrest. reflexivity.
  - rewrite append_cons. cbn [greedy]. cbn [noChar] in Hw.
    apply andb_true_iff in Hw as [Ha Hw]. rewrite Ha, (IH Hw). reflexivity.
Qed.

End Matcher.

(** ** The pattern of [parseLine] *)

Section FieldPattern.
Import JS Regex CSV Row Pattern.

Lemma run_pair (s : string) (k : cont) :
  run rePair s k =
  match s with
  | String a (String b t) =>
      if ascii_eqb dquote a && ascii_eqb dquote b then Row.greedy notQuote t k else None
  | _ => None
  end.
Proof.
  unfold rePair, Chr. cbn [run].
  destruct s as [|a [|b t]]; [reflexivity|destruct (ascii_eqb dquote a); reflexivity|].
  destruct (ascii_eqb dquote a); [|reflexivity].
  destruct (ascii_eqb dquote b); [|reflexivity].
  cbn [andb]. apply star_class. lia.
Qed.

(** The body of a quoted field.  [escape c] followed by a quote and by
    text that does not go on with a quote is matched up to that quote,
    both from inside the first run of plain characters and from the loop
    over the pairs. *)
Lemma quoted_body (rest : string) (Hrest : noQuoteAhead rest) (c : string) :
  (forall k : cont,
     (forall s', String.length s' <= String.length (escape c +:+ String dquote rest) ->
        exists n, String.length s' <= n /\ k s' = star_loop (run rePair) n s' closing) ->
     Row.greedy notQuote (escape c +:+ String dquote rest) k = Some rest) /\
  (match c with EmptyString => True | String a _ => ascii_eqb dquote a = true end ->
   forall n, String.length (escape c +:+ String dquote rest) <= n ->
     star_loop (run rePair) n (escape c +:+ String dquote rest) closing = Some rest).
Proof.
  induction c as [|a c [IHg IHm]].
  - assert (Hm : forall n, String.length (String dquote rest) <= n ->
                   star_loop (run rePair) n (String dquote rest) closing = Some rest).
    { intros [|n] Hn; [cbn in Hn; lia|]. cbn [star_loop]. rewrite run_pair.
      assert (Hnone : match rest with
                      | String b t =>
                          if ascii_eqb dquote dquote && ascii_eqb dquote b
                          then Row.greedy notQuote t
                                 (fun s' =>
                                    if String.length s' <? String.length (String dquote rest)
                                    then star_loop (run rePair) n s' closing else None)
                          else None
                      | EmptyString => None
                      end = None).
      { destruct rest as [|b t]; [reflexivity|]. cbn in Hrest. rewrite Hrest.
        rewrite andb_false_r. reflexivity. }
      rewrite Hnone. unfold closing, Chr. cbn [run]. rewrite ascii_eqb_refl. reflexivity. }
    cbn [escape]. rewrite append_nil. split; [|intros _; exact Hm].
    intros k Hk. cbn [Row.greedy]. unfold notQuote at 1. rewrite ascii_eqb_refl. cbn [negb].
    destruct (Hk (String dquote rest) (le_n _)) as (n & Hn & ->). apply Hm. assumption.
  - cbn [escape]. destruct (ascii_eqb dquote a) eqn:Ha.
    + rewrite !append_cons.
      assert (Hm : forall n,
                 String.length (String dquote (String dquote (escape c +:+ String dquote rest)))
                   <= n ->
                 star_loop (run rePair) n
                   (String dquote (String dquote (escape c +:+ String dquote rest))) closing
                 = Some rest).
      { intros [|n] Hn; [cbn in Hn; lia|]. cbn [star_loop]. rewrite run_pair.
        rewrite ascii_eqb_refl. cbn [andb]. rewrite IHg; [reflexivity|].
        intros s' Hs'. exists n. cbn [String.length] in Hn |- *. split; [lia|].
        rewrite (proj2 (Nat.ltb_lt _ _)) by lia. reflexivity. }
      split; [|intros _; exact Hm].
      intros k Hk. cbn [Row.greedy]. unfold notQuote at 1. rewrite ascii_eqb_refl. cbn [negb].
      destruct (Hk _ (le_n _)) as (n & Hn & ->). apply Hm. assumption.
    + rewrite append_cons. split; [|intros H; discriminate].
      intros k Hk. cbn [Row.greedy]. unfold notQuote at 1. rewrite Ha. cbn [negb].
      rewrite IHg; [reflexivity|].
      intros s' Hs'. apply Hk. cbn [String.length]. lia.
Qed.

Lemma run_cat (r1 r2 : regex) (s : string) (k : cont) :
  run (Cat r1 r2) s k = run r1 s (fun s' => run r2 s' k).
Proof. reflexivity. Qed.

Lemma run_cls (p : ascii -> bool) (a : ascii) (s : string) (k : cont) :
  run (Cls p) (String a s) k = if p a then k s else None.
Proof. reflexivity. Qed.

Lemma run_alt (r1 r2 : regex) (s : string) (k : cont) :
  run (Alt r1 r2) s k =
  match run r1 s k with Some x => Some x | None => run r2 s k end.
Proof. reflexivity. Qed.

(** A quoted field is matched whole by the first alternative. *)
Lemma exec_quoted (c rest : string) :
  noQuoteAhead rest ->
  exec reField (String dquote (escape c +:+ String dquote rest)) = Some rest.
Proof.
  intros Hrest. unfold exec, reField. rewrite run_alt.
  assert (Hq : run reQuoted (String dquote (escape c +:+ String dquote rest)) Some
               = Some rest).
  { unfold reQuoted. rewrite run_cat. unfold Chr at 1.
    rewrite run_cls, ascii_eqb_refl, !run_cat.
    change (NotChr dquote) with (Cls notQuote). rewrite run_star_class.
    apply (proj1 (quoted_body rest Hrest c)).
    intros s' _. exists (String.length s'). split; [lia|]. reflexivity. }
  rewrite Hq. reflexivity.
Qed.

(** Bare text is matched by the second alternative up to the comma or
    the end of the line. *)
Lemma exec_bare (a : ascii) (w rest : string) :
  ascii_eqb dquote a = false -> noChar comma (String a w) = true -> fieldEnd rest ->
  exec reField (String a w +:+ rest) = Some rest.
Proof.
  intros Hq Hw Hrest. cbn [noChar] in Hw. apply andb_true_iff in Hw as [Ha Hw].
  rewrite append_cons. unfold exec, reField. rewrite run_alt.
  assert (Hnone : run reQuoted (String a (w +:+ rest)) Some = None).
  { unfold reQuoted. rewrite run_cat. unfold Chr at 1. rewrite run_cls, Hq. reflexivity. }
  rewrite Hnone. unfold reBare, Plus. rewrite run_cat. unfold NotChr.
  rewrite run_cls, Ha, run_star_class. apply greedy_bare; assumption.
Qed.

Lemma exec_comma (s : string) : exec reField (String comma s) = None.
Proof. reflexivity. Qed.

Lemma exec_empty : exec reField EmptyString = None.
Proof. reflexivity. Qed.

(** Both alternatives start with a character: a match consumes one at
    least. *)
Lemma exec_field_shrinks (s rest : string) :
  exec reField s = Some rest -> String.length rest < String.length s.
Proof.
  unfold exec, reField. rewrite run_alt.
  destruct s as [|a s]; [discriminate|].
  assert (Hlen : forall r, run r s Some = Some rest ->
                   String.length rest < String.length (String a s)).
  { intros r H. apply run_suffix in H as (tok & s' & -> & [= ->]).
    cbn [String.length]. rewrite string_length_append. lia. }
  destruct (run reQuoted (String a s) Some) as [x|] eqn:H1.
  - intros [= ->]. unfold reQuoted in H1. rewrite run_cat in H1.
    unfold Chr at 1 in H1. rewrite run_cls in H1.
    destruct (ascii_eqb dquote a); [|discriminate]. exact (Hlen _ H1).
  - unfold reBare, Plus. rewrite run_cat. unfold NotChr at 1. rewrite run_cls.
    destruct (negb (ascii_eqb comma a)); [|discriminate]. apply Hlen.
Qed.

(** No match of the pattern is empty, in any line. *)
Lemma matches_nonempty (n : nat) :
  forall line, String.length line < n ->
    forall m, In m (matchAll reField line) -> m <> EmptyString.
Proof.
  induction n as [|n IH]; intros line Hn m; [lia|].
  rewrite matchAll_unfold.
  destruct (exec reField line) as [rest|] eqn:Hex.
  - pose proof (exec_field_shrinks _ _ Hex) as Hlt.
    rewrite (proj2 (Nat.ltb_lt _ _) Hlt).
    apply exec_suffix in Hex as (tok & ->). rewrite consumed_app.
    intros [<-|Hin].
    + rewrite string_length_append in Hlt. intros ->. cbn in Hlt. lia.
    + apply (IH rest); [lia|exact Hin].
  - destruct line as [|c line]; [intros []|]. apply IH. cbn in Hn. lia.
Qed.

End FieldPattern.

(** ** The tokens of a row *)

Section Tokens.
Import JS Regex CSV Row Pattern.

Lemma joinFields_cons (f : Field) (fs : list Field) :
  joinFields (f :: fs) = render f +:+ afterField fs.
Proof.
  unfold joinFields, afterField. destruct fs as [|g fs]; cbn [map String.concat].
  - rewrite append_nil_r. reflexivity.
  - reflexivity.
Qed.

Lemma afterField_matchAll (fs : list Field) :
  matchAll reField (afterField fs) = matchAll reField (joinFields fs).
Proof.
  destruct fs as [|g fs]; [reflexivity|].
  unfold afterField. apply matchAll_skip. apply exec_comma.
Qed.

Lemma afterField_end (fs : list Field) :
  fieldEnd (afterField fs) /\ noQuoteAhead (afterField fs).
Proof. destruct fs; split; reflexivity. Qed.

Lemma startsWith_dq (a : ascii) (w : string) :
  startsWith dq (String a w) = ascii_eqb dquote a.
Proof.
  unfold startsWith, dq, ascii_eqb. cbn [String.prefix].
  destruct (ascii_dec dquote a) as [<-|Hne].
  - rewrite Ascii.eqb_refl. destruct w; reflexivity.
  - symmetry. apply Ascii.eqb_neq. assumption.
Qed.

(** The matches of a row of well-formed fields: one for each field
    except the empty bare ones. *)
Lemma matchAll_fields (fs : list Field) :
  forallb wellFormed fs = true ->
  matchAll reField (joinFields fs) = map render (tokenFields fs).
Proof.
  induction fs as [|f fs IH]; intros Hwf; [reflexivity|].
  cbn [forallb] in Hwf. apply andb_true_iff in Hwf as [Hf Hfs].
  specialize (IH Hfs). rewrite joinFields_cons.
  destruct (afterField_end fs) as [Hend Hnq].
  unfold tokenFields. cbn [List.filter]. fold (tokenFields fs).
  destruct f as [[|a w]|c].
  - cbn [render isEmptyBare negb]. rewrite append_nil, afterField_matchAll. exact IH.
  - cbn [render isEmptyBare negb map]. cbn [wellFormed] in Hf.
    apply andb_true_iff in Hf as [Hcomma Hq].
    rewrite startsWith_dq in Hq. apply negb_true_iff in Hq.
    rewrite matchAll_token; [|discriminate|apply exec_bare; assumption].
    rewrite afterField_matchAll, IH. reflexivity.
  - cbn [render isEmptyBare negb map].
    rewrite matchAll_token; [|discriminate|].
    + rewrite afterField_matchAll, IH. reflexivity.
    + unfold dq. rewrite !string_append_assoc, !append_cons, !append_nil.
      apply exec_quoted. assumption.
Qed.

Lemma parseLine_matchAll (line : string) :
  parseLine line = map cleanMatch (matchAll reField line).
Proof. unfold parseLine, match_g. destruct (matchAll reField line); reflexivity. Qed.

Lemma replace_escape (c : string) :
  forall n, String.length (escape c) < n ->
    replace_from reTwoQuotes dq n (escape c) = c.
Proof.
  induction c as [|a c IH]; intros n Hn.
  - destruct n; [lia|]. reflexivity.
  - destruct n as [|n]; [lia|]. cbn [escape] in Hn |- *.
    destruct (ascii_eqb dquote a) eqn:Ha.
    + apply ascii_eqb_true in Ha as <-. cbn [String.length] in Hn.
      cbn [replace_from].
      assert (Hex : exec reTwoQuotes (String dquote (String dquote (escape c)))
                    = Some (escape c)).
      { unfold exec, reTwoQuotes, Chr. rewrite run_cat, run_cls, ascii_eqb_refl.
        rewrite run_cls, ascii_eqb_refl. reflexivity. }
      rewrite Hex. cbn [String.length].
      rewrite (proj2 (Nat.ltb_lt _ _)) by lia.
      rewrite IH by lia. reflexivity.
    + cbn [String.length] in Hn. cbn [replace_from].
      assert (Hex : exec reTwoQuotes (String a (escape c)) = None).
      { unfold exec, reTwoQuotes, Chr. rewrite run_cat, run_cls, Ha. reflexivity. }
      rewrite Hex, IH by lia. reflexivity.
Qed.

(** Undoing the doubling of the quotes gives the text back. *)
Lemma unescape_escape (c : string) : replace_g reTwoQuotes dq (escape c) = c.
Proof. unfold replace_g. apply replace_escape. lia. Qed.

Lemma cleanMatch_quoted (c : string) :
  cleanMatch (dq +:+ escape c +:+ dq) = trim c.
Proof.
  unfold cleanMatch.
  assert (Hs : startsWith dq (dq +:+ escape c +:+ dq) = true).
  { unfold dq at 2. rewrite append_cons, append_nil, startsWith_dq. apply ascii_eqb_refl. }
  assert (He : endsWith dq (dq +:+ escape c +:+ dq) = true).
  { unfold endsWith. rewrite <- string_append_assoc.
    rewrite (string_length_append (dq +:+ escape c) dq).
    apply andb_true_iff. split; [apply Nat.leb_le; cbn; lia|].
    replace (String.length (dq +:+ escape c) + String.length dq - String.length dq)
      with (String.length (dq +:+ escape c)) by lia.
    rewrite substring_skip. reflexivity. }
  rewrite Hs, He. cbn [andb]. f_equal.
  assert (Hsub : substring 1 (String.length (dq +:+ escape c +:+ dq) - 1)
                   (dq +:+ escape c +:+ dq) = escape c).
  { unfold substring. rewrite !string_length_append.
    change (String.length dq) with 1.
    replace (Nat.min 1 (1 + (String.length (escape c) + 1))) with 1 by lia.
    replace (Nat.min (1 + (String.length (escape c) + 1) - 1)
               (1 + (String.length (escape c) + 1)))
      with (String.length (escape c) + 1) by lia.
    replace (Nat.min 1 (String.length (escape c) + 1)) with 1 by lia.
    replace (Nat.max 1 (String.length (escape c) + 1) - 1)
      with (String.length (escape c)) by lia.
    unfold dq at 1. rewrite append_cons, append_nil. cbn [String.substring].
    apply substring_prefix. }
  rewrite Hsub. apply unescape_escape.
Qed.

Lemma cleanMatch_field (f : Field) :
  wellFormed f = true -> cleanMatch (render f) = fieldValue f.
Proof.
  destruct f as [w|c]; intros Hwf; [|apply cleanMatch_quoted].
  cbn [wellFormed] in Hwf. apply andb_true_iff in Hwf as [_ Hq].
  apply negb_true_iff in Hq. unfold cleanMatch. cbn [render fieldValue].
  rewrite Hq. reflexivity.
Qed.

Lemma tokenFields_wellFormed (fs : list Field) :
  forallb wellFormed fs = true -> forallb wellFormed (tokenFields fs) = true.
Proof.
  induction fs as [|f fs IH]; [reflexivity|]. cbn [forallb].
  intros H. apply andb_true_iff in H as [Hf Hfs].
  unfold tokenFields. cbn [List.filter]. fold (tokenFields fs).
  destruct (negb (isEmptyBare f)); [cbn [forallb]; rewrite Hf|]; auto.
Qed.

(** The tokens of a row of well-formed fields. *)
Lemma parseLine_fields (fs : list Field) :
  forallb wellFormed fs = true ->
  parseLine (joinFields fs) = map fieldValue (tokenFields fs).
Proof.
  intros Hwf. rewrite parseLine_matchAll, (matchAll_fields fs Hwf).
  apply tokenFields_wellFormed in Hwf.
  induction (tokenFields fs) as [|f l IH]; [reflexivity|].
  cbn [forallb] in Hwf. apply andb_true_iff in Hwf as [Hf Hl].
  cbn [map]. rewrite (cleanMatch_field f Hf), (IH Hl). reflexivity.
Qed.

Lemma tokenFields_length (fs : list Field) :
  length (tokenFields fs) + length (List.filter isEmptyBare fs) = length fs.
Proof.
  induction fs as [|f fs IH]; [reflexivity|].
  unfold tokenFields in *. cbn [List.filter].
  destruct (isEmptyBare f); cbn [negb length]; lia.
Qed.

End Tokens.

Section Trimming.
Import JS Spec.

Lemma blank_spec (c : ascii) : blank c = isWhitespace c.
Proof. destruct c as [[] [] [] [] [] [] [] []]; vm_compute; reflexivity. Qed.

Lemma trimStart_blanks (pre s : string) :
  blanks pre = true -> trimStart (pre +:+ s) = trimStart s.
Proof.
  induction pre as [|c pre IH]; intros H; [reflexivity|].
  cbn [blanks] in H. apply andb_prop in H as [Hc Hpre].
  rewrite append_cons. cbn [trimStart]. rewrite <- blank_spec, Hc. apply IH, Hpre.
Qed.

Lemma trimStart_all_blank (s : string) : blanks s = true -> trimStart s = EmptyString.
Proof.
  intros H. rewrite <- (append_nil_r s). rewrite (trimStart_blanks s "" H). reflexivity.
Qed.

Lemma trimStart_tight (s : string) : firstBlank s = false -> trimStart s = s.
Proof.
  destruct s as [|c s]; [reflexivity|]. cbn [firstBlank trimStart].
  rewrite <- blank_spec. intros ->. reflexivity.
Qed.

Lemma trimEnd_blanks (post : string) : blanks post = true -> trimEnd post = EmptyString.
Proof.
  induction post as [|c post IH]; intros H; [reflexivity|].
  cbn [blanks] in H. apply andb_prop in H as [Hc Hpost].
  cbn [trimEnd]. rewrite (IH Hpost), <- blank_spec, Hc. reflexivity.
Qed.

Lemma trimEnd_tight (core post : string) :
  lastBlank core = false -> blanks post = true -> trimEnd (core +:+ post) = core.
Proof.
  intros Hcore Hpost. induction core as [|c core IH].
  - rewrite append_nil. apply trimEnd_blanks, Hpost.
  - rewrite append_cons. cbn [trimEnd]. destruct core as [|d core].
    + rewrite append_nil, (trimEnd_blanks post Hpost), <- blank_spec.
      cbn [lastBlank] in Hcore. rewrite Hcore. reflexivity.
    + rewrite IH by exact Hcore. reflexivity.
Qed.

(** What [trim] does, said without it: of a text made of blanks, a text
    with no blank at either end, and blanks, the middle is left. *)
Lemma trim_spec (pre core post : string) :
  blanks pre = true -> blanks post = true -> tight core = true ->
  trim (pre +:+ core +:+ post) = core.
Proof.
  intros Hpre Hpost Hcore. unfold tight in Hcore.
  apply andb_prop in Hcore as [Hf Hl].
  apply negb_true_iff in Hf. apply negb_true_iff in Hl.
  unfold trim. rewrite (trimStart_blanks pre _ Hpre).
  destruct core as [|c core].
  - rewrite append_nil, (trimStart_all_blank post Hpost). reflexivity.
  - rewrite trimStart_tight by (rewrite append_cons; exact Hf).
    apply trimEnd_tight; assumption.
Qed.

Lemma trimStart_decomp (s : string) :
  exists pre, s = pre +:+ trimStart s /\ blanks pre = true.
Proof.
  induction s as [|c s IH]; [exists EmptyString; split; reflexivity|].
  cbn [trimStart]. destruct (isWhitespace c) eqn:Hc.
  - destruct IH as (pre & Hs & Hpre). exists (String c pre).
    rewrite append_cons, <- Hs. split; [reflexivity|].
    cbn [blanks]. rewrite blank_spec, Hc. exact Hpre.
  - exists EmptyString. split; reflexivity.
Qed.

Lemma trimEnd_decomp (s : string) :
  exists post, s = trimEnd s +:+ post /\ blanks post = true.
Proof.
  induction s as [|c s IH]; [exists EmptyString; split; reflexivity|].
  destruct IH as (post & Hs & Hpost). cbn [trimEnd].
  destruct (trimEnd s) as [|d t] eqn:Ht.
  - rewrite append_nil in Hs. subst post.
    destruct (isWhitespace c) eqn:Hc.
    + exists (String c s). rewrite append_nil. split; [reflexivity|].
      cbn [blanks]. rewrite blank_spec, Hc. exact Hpost.
    + exists s. split; [reflexivity|exact Hpost].
  - exists post. rewrite append_cons, <- Hs. split; [reflexivity|exact Hpost].
Qed.

Lemma trim_decomp (s : string) :
  exists pre post,
    s = pre +:+ trim s +:+ post /\ blanks pre = true /\ blanks post = true.
Proof.
  destruct (trimStart_decomp s) as (pre & Hs & Hpre).
  destruct (trimEnd_decomp (trimStart s)) as (post & Ht & Hpost).
  exists pre, post. unfold trim. rewrite <- Ht. auto.
Qed.

End Trimming.

Section TokenizerClaims.
Import JS Regex CSV Row Pattern.

Lemma tokenFields_app (pre post : list Field) :
  tokenFields (pre ++ post) = tokenFields pre ++ tokenFields post.
Proof. unfold tokenFields. apply List.filter_app. Qed.

Lemma wellFormed_app (pre post : list Field) :
  forallb wellFormed (pre ++ post) = forallb wellFormed pre && forallb wellFormed post.
Proof. apply forallb_app. Qed.

(** A text whose quotes come in pairs is some text with its quotes
    doubled. *)
Lemma paired_is_escaped (n : nat) :
  forall body, String.length body <= n -> pairedQuotes body = true ->
    exists content, body = escape content.
Proof.
  induction n as [|n IH]; intros body Hn Hp.
  - destruct body; [|cbn in Hn; lia]. exists EmptyString. reflexivity.
  - destruct body as [|a body]; [exists EmptyString; reflexivity|].
    cbn [pairedQuotes] in Hp. cbn in Hn.
    destruct (ascii_eqb dquote a) eqn:Ha.
    + destruct body as [|b body]; [discriminate|].
      apply andb_true_iff in Hp as [Hb Hp].
      apply ascii_eqb_true in Ha as <-. apply ascii_eqb_true in Hb as <-.
      destruct (IH body) as (content & ->); [cbn in Hn; lia|exact Hp|].
      exists (String dquote content). cbn [escape]. rewrite ascii_eqb_refl. reflexivity.
    + destruct (IH body) as (content & ->); [lia|exact Hp|].
      exists (String a content). cbn [escape]. rewrite Ha. reflexivity.
Qed.

(** C3. [parseLine] maps a field written inside quotes, its inner quotes
    doubled, to the text itself: the doubled quotes become single ones
    and the result is trimmed, that is, of a text made of blanks (tabs,
    line feeds, vertical tabs, form feeds, carriage returns, spaces,
    no-break spaces), a text with no blank at either end, and blanks,
    the middle is the token.  This holds for the field alone and for
    the field at any place in a row of well-formed fields, commas inside
    the quotes not splitting it.  The field of the example gives the one
    string of the example, and a padded field gives its text without the
    padding. *)
Theorem quoted_field_unescaped :
  (forall content : string,
     replace_g reTwoQuotes dq (escape content) = content /\
     parseLine (dq +:+ escape content +:+ dq) = [trim content]) /\
  (forall pre core post : string,
     Spec.blanks pre = true -> Spec.blanks post = true -> Spec.tight core = true ->
     trim (pre +:+ core +:+ post) = core /\
     parseLine (dq +:+ escape (pre +:+ core +:+ post) +:+ dq) = [core]) /\
  (forall (pre core post : string) (before after : list Field),
     Spec.blanks pre = true -> Spec.blanks post = true -> Spec.tight core = true ->
     forallb wellFormed before = true -> forallb wellFormed after = true ->
     parseLine (joinFields (before ++ Quoted (pre +:+ core +:+ post) :: after))
     = parseLine (joinFields before) ++ core :: parseLine (joinFields after)) /\
  parseLine (dq +:+ Sample.padded +:+ dq) = [Sample.paddedValue] /\
  (forall body : string,
     pairedQuotes body = true ->
     parseLine (dq +:+ body +:+ dq) = [trim (replace_g reTwoQuotes dq body)]) /\
  (forall (content : string) (pre post : list Field),
     forallb wellFormed pre = true -> forallb wellFormed post = true ->
     parseLine (joinFields (pre ++ Quoted content :: post))
     = parseLine (joinFields pre) ++ trim content :: parseLine (joinFields post)) /\
  parseLine Sample.quotedField = [Sample.quotedValue].
Proof.
  assert (Hrow : forall (content : string) (pre post : list Field),
     forallb wellFormed pre = true -> forallb wellFormed post = true ->
     parseLine (joinFields (pre ++ Quoted content :: post))
     = parseLine (joinFields pre) ++ trim content :: parseLine (joinFields post)).
  { intros content pre post Hpre Hpost.
    rewrite (parseLine_fields (pre ++ Quoted content :: post)).
    2:{ rewrite wellFormed_app, Hpre. cbn [forallb wellFormed andb]. exact Hpost. }
    rewrite (parseLine_fields pre Hpre), (parseLine_fields post Hpost).
    rewrite tokenFields_app, map_app. reflexivity. }
  split; [|split; [|split; [|split; [|split; [|split]]]]].
  - intros content. split; [apply unescape_escape|].
    exact (parseLine_fields [Quoted content] eq_refl).
  - intros pre core post Hpre Hpost Hcore.
    pose proof (trim_spec pre core post Hpre Hpost Hcore) as Ht.
    split; [exact Ht|]. rewrite <- Ht at 2.
    exact (parseLine_fields [Quoted (pre +:+ core +:+ post)] eq_refl).
  - intros pre core post before after Hpre Hpost Hcore Hb Ha.
    rewrite (Hrow _ before after Hb Ha), (trim_spec pre core post Hpre Hpost Hcore).
    reflexivity.
  - vm_compute. reflexivity.
  - intros body Hp.
    destruct (paired_is_escaped (String.length body) body (le_n _) Hp) as (content & ->).
    rewrite unescape_escape. exact (parseLine_fields [Quoted content] eq_refl).
  - exact Hrow.
  - vm_compute. reflexivity.
Qed.

Lemma existsb_filter_length (fs : list Field) :
  existsb isEmptyBare fs = true -> 1 <= length (List.filter isEmptyBare fs).
Proof.
  induction fs as [|f fs IH]; [discriminate|]. cbn [existsb List.filter].
  destruct (isEmptyBare f); cbn [orb length]; [lia|assumption].
Qed.

Lemma parseLine_leading_comma (s : string) : parseLine (String comma s) = parseLine s.
Proof.
  rewrite !parseLine_matchAll, (matchAll_skip reField comma s (exec_comma s)). reflexivity.
Qed.

(** C10, as the code has it.  In a row of well-formed fields (bare text
    without comma that does not start with a quote, or text inside quotes
    with its quotes doubled) every field leaves one token except the
    empty bare ones, which leave none; in any line a leading comma leaves
    no token and no match of the pattern is empty.  So such a row with at
    most as many fields as the header has columns, one of them empty and
    bare, has fewer tokens than the header has columns and adds no record:
    if it is not blank the column check skips it with a warning. *)
Theorem empty_fields_leave_no_token (fs : list Field) (rawHeaders : list string)
    (Hwf : forallb wellFormed fs = true) :
  parseLine (joinFields fs) = map fieldValue (tokenFields fs) /\
  length (parseLine (joinFields fs)) + length (List.filter isEmptyBare fs) = length fs /\
  (forall s, parseLine (String comma s) = parseLine s) /\
  (forall line m, In m (matchAll reField line) -> m <> "") /\
  (length fs <= length rawHeaders -> existsb isEmptyBare fs = true ->
   length (parseLine (joinFields fs)) < length rawHeaders /\
   forall headerMap st i,
     questions (processLine rawHeaders headerMap st i (joinFields fs)) = questions st /\
     (truthy (trim (joinFields fs)) = true ->
      processLine rawHeaders headerMap st i (joinFields fs)
      = mkImport (questions st) (warnings st ++ [i + 1]))).
Proof.
  pose proof (parseLine_fields fs Hwf) as Hp.
  pose proof (tokenFields_length fs) as Hl.
  assert (Hlen : length (parseLine (joinFields fs)) + length (List.filter isEmptyBare fs)
                 = length fs).
  { rewrite Hp, length_map. exact Hl. }
  split; [exact Hp|]. split; [exact Hlen|]. split; [exact parseLine_leading_comma|].
  split; [intros line; exact (matches_nonempty (S (String.length line)) line (le_n _))|].
  intros Hle Hex. apply existsb_filter_length in Hex.
  assert (Hlt : length (parseLine (joinFields fs)) < length rawHeaders) by lia.
  split; [exact Hlt|]. intros headerMap st i.
  assert (Hne : (length (parseLine (joinFields fs)) =? length rawHeaders) = false).
  { apply Nat.eqb_neq. lia. }
  unfold processLine. rewrite Hne. cbn [negb].
  destruct (truthy (trim (joinFields fs))); cbn [negb]; split; try reflexivity.
  intros H. discriminate.
Qed.

(** The row 1+1?,,3,A under the header of four columns. *)
Lemma empty_fields_leave_no_token_witness :
  parseLine "1+1?,,3,A" = ["1+1?"; "3"; "A"] /\
  length (parseLine "1+1?,,3,A") < length (JS.split comma Sample.header).
Proof.
  pose proof (empty_fields_leave_no_token
                [Bare "1+1?"; Bare ""; Bare "3"; Bare "A"]
                (JS.split comma Sample.header) eq_refl) as (Hp & _ & _ & _ & Hskip).
  split; [exact Hp|].
  apply Hskip; [vm_compute; lia|reflexivity].
Defined.

(** C10, rows on which the sentence of the specification fails.  A row
    with an empty bare field and one position more than the header has as many tokens
    as the header has columns, passes the column check and becomes a
    record.  A row with an empty bare field and exactly as many positions
    as the header, in which text follows a closing quote, also has as
    many tokens as the header has columns. *)
Lemma empty_field_row_not_skipped :
  ("" ∈ JS.split comma Sample.shifted /\
   length (parseLine Sample.shifted) = length (JS.split comma Sample.header) /\
   parseCSV (Sample.header +:+ Sample.nl +:+ Sample.shifted)
   = [Question.mk (Some "2+2?") (Some ["3"; "4"]) (Some "B") None None]) /\
  ("" ∈ JS.split comma Sample.glued /\
   length (JS.split comma Sample.glued)
   = length (JS.split comma "Question,Option A,Option B") /\
   length (parseLine Sample.glued)
   = length (JS.split comma "Question,Option A,Option B")).
Proof.
  split; (split; [apply list_elem_of_In; vm_compute; tauto|]); split; vm_compute; reflexivity.
Qed.

End TokenizerClaims.

(** ** Building the records *)

Section RecordBuilder.
Import JS CSV Spec.

(** The tests of [keyStep] exclude one another. *)
Lemma key_cases (k : option string) :
  (isKey "q" k = true /\ isOptionKey k = false /\
   isKey "correct" k = false /\ isKey "explanation" k = false) \/
  (isKey "q" k = false /\ isOptionKey k = true /\
   isKey "correct" k = false /\ isKey "explanation" k = false) \/
  (isKey "q" k = false /\ isOptionKey k = false /\
   isKey "correct" k = true /\ isKey "explanation" k = false) \/
  (isKey "q" k = false /\ isOptionKey k = false /\
   isKey "correct" k = false /\ isKey "explanation" k = true) \/
  (isKey "q" k = false /\ isOptionKey k = false /\
   isKey "correct" k = false /\ isKey "explanation" k = false).
Proof.
  destruct k as [m|]; [|right; right; right; right; auto].
  unfold isKey, isOptionKey.
  destruct (String.eqb_spec m "q") as [->|Hq]; [left; auto|].
  destruct (String.eqb_spec m "correct") as [->|Hc]; [right; right; left; auto|].
  destruct (String.eqb_spec m "explanation") as [->|He]; [right; right; right; left; auto|].
  destruct (startsWith "option" m); [right; left; auto|right; right; right; right; auto].
Qed.

Lemma assemble_from (vs : list string) :
  forall (hm hp : list (option string)) (vp : list string) (st : RowVars),
    length hp = length vp -> length hm = length vs ->
    fold_left (fieldStep (hp ++ hm) (vp ++ vs)) (seq (length vp) (length vs)) st
    = walk hm vs st.
Proof.
  induction vs as [|v vs IH]; intros hm hp vp st Hp Hm.
  - destruct hm; reflexivity.
  - destruct hm as [|k hm]; [discriminate|].
    cbn [length seq fold_left walk].
    assert (Hstep : fieldStep (hp ++ k :: hm) (vp ++ v :: vs) st (length vp)
                    = keyStep st k v).
    { unfold fieldStep. rewrite list_lookup_middle by reflexivity.
      rewrite list_lookup_middle by (symmetry; assumption). reflexivity. }
    rewrite Hstep.
    replace (hp ++ k :: hm) with ((hp ++ [k]) ++ hm) by (rewrite <- app_assoc; reflexivity).
    replace (vp ++ v :: vs) with ((vp ++ [v]) ++ vs) by (rewrite <- app_assoc; reflexivity).
    replace (S (length vp)) with (length (vp ++ [v])) by (rewrite length_app; cbn; lia).
    apply IH.
    + rewrite !length_app. cbn. lia.
    + cbn in Hm. lia.
Qed.

Lemma assemble_walk (hm : list (option string)) (vs : list string) :
  length hm = length vs -> assemble hm vs = walk hm vs rowInit.
Proof.
  intros H. unfold assemble. exact (assemble_from vs hm [] [] rowInit eq_refl H).
Qed.

Lemma last_cons_orElse {A} (x : A) (l : list A) (o : option A) :
  orElse (last (x :: l)) o = orElse (last l) (Some x).
Proof. rewrite last_cons. destruct (last l); reflexivity. Qed.

(** What the loop over the columns leaves in its variables. *)
Lemma walk_fields (hm : list (option string)) :
  forall (vs : list string) (st : RowVars),
    let r := walk hm vs st in
    Question.q (question r)
      = orElse (last (columnValues (isKey "q") hm vs)) (Question.q (question st)) /\
    Question.correct (question r)
      = orElse (last (columnValues (isKey "correct") hm vs)) (Question.correct (question st)) /\
    Question.explanation (question r)
      = orElse (last (columnValues (isKey "explanation") hm vs))
          (Question.explanation (question st)) /\
    Question.options (question r) = Question.options (question st) /\
    Question.id (question r) = Question.id (question st) /\
    options r = options st ++ columnValues isOptionKey hm vs /\
    hasQuestionText r
      = hasQuestionText st || bool_decide (columnValues (isKey "q") hm vs <> []).
Proof.
  induction hm as [|k hm IH]; intros vs st; cbn zeta.
  { cbn. rewrite app_nil_r, orb_false_r. repeat split; reflexivity. }
  destruct vs as [|v vs].
  { cbn. rewrite app_nil_r, orb_false_r. repeat split; reflexivity. }
  cbn [walk columnValues].
  specialize (IH vs (keyStep st k v)). cbn zeta in IH.
  destruct IH as (Hq & Hc & He & Ho & Hi & Hopts & Hhas).
  rewrite Hq, Hc, He, Ho, Hi, Hopts, Hhas. unfold keyStep.
  destruct (key_cases k) as [H|[H|[H|[H|H]]]];
    destruct H as (-> & -> & -> & ->); cbn [question options hasQuestionText
      Question.q Question.correct Question.explanation Question.options Question.id
      Question.set_q Question.set_correct Question.set_explanation];
    rewrite ?last_cons_orElse, ?orb_true_l, <- ?app_assoc; repeat split; try reflexivity.
  rewrite bool_decide_eq_true_2 by discriminate. rewrite orb_true_r. reflexivity.
Qed.

End RecordBuilder.

Section BlankLines.
Import JS Regex CSV Row Spec.

Lemma trimEnd_head (c : ascii) (s : string) :
  isWhitespace c = false -> trimEnd (String c s) <> EmptyString.
Proof.
  intros Hc. cbn [trimEnd]. destruct (trimEnd s); [rewrite Hc|]; discriminate.
Qed.

Lemma trimStart_head (s : string) :
  match trimStart s with
  | EmptyString => True
  | String c _ => isWhitespace c = false
  end.
Proof.
  induction s as [|c s IH]; [exact I|]. cbn [trimStart].
  destruct (isWhitespace c) eqn:Hc; [exact IH|exact Hc].
Qed.

Lemma trim_empty (s : string) : trim s = EmptyString -> trimStart s = EmptyString.
Proof.
  unfold trim. intros H. pose proof (trimStart_head s) as Hh.
  destruct (trimStart s) as [|c t]; [reflexivity|].
  exfalso. exact (trimEnd_head c t Hh H).
Qed.

(** A line of white space only is one bare field. *)
Lemma blank_wellFormed (s : string) :
  trimStart s = EmptyString -> wellFormed (Bare s) = true.
Proof.
  intros H. cbn [wellFormed]. apply andb_true_iff. split.
  - induction s as [|c s IH]; [reflexivity|]. cbn [trimStart] in H.
    destruct (isWhitespace c) eqn:Hc; [|discriminate].
    cbn [noChar]. rewrite (IH H), andb_true_r. apply negb_true_iff.
    destruct (ascii_eqb comma c) eqn:Heq; [|reflexivity].
    apply Ascii.eqb_eq in Heq. subst c. discriminate.
  - destruct s as [|c s]; [reflexivity|]. cbn [trimStart] in H.
    destruct (isWhitespace c) eqn:Hc; [|discriminate].
    rewrite startsWith_dq. apply negb_true_iff.
    destruct (ascii_eqb dquote c) eqn:Heq; [|reflexivity].
    apply Ascii.eqb_eq in Heq. subst c. discriminate.
Qed.

Lemma blank_tokens (line : string) :
  truthy (trim line) = false -> length (parseLine line) <= 1.
Proof.
  intros H. assert (Ht : trim line = EmptyString).
  { destruct (trim line); [reflexivity|discriminate]. }
  apply trim_empty, blank_wellFormed in Ht.
  assert (Hwf : forallb wellFormed [Bare line] = true) by (cbn [forallb]; rewrite Ht; reflexivity).
  pose proof (parseLine_fields [Bare line] Hwf) as Hp.
  change (joinFields [Bare line]) with line in Hp. rewrite Hp, length_map.
  unfold tokenFields. cbn [List.filter]. destruct (negb _); cbn; lia.
Qed.

Lemma columnValues_length (p : option string -> bool) (hm : list (option string)) :
  forall vs, length (columnValues p hm vs) <= length vs.
Proof.
  induction hm as [|k hm IH]; intros [|v vs]; cbn; try lia.
  specialize (IH vs). destruct (p k); cbn; lia.
Qed.

End BlankLines.

Section RowLoop.
Import JS CSV Spec.

Lemma processLine_questions (rh : list string) (hm : list (option string))
    (st : ImportRun) (i : nat) (line : string) :
  questions (processLine rh hm st i line) = questions st ++ lineRecords rh hm line.
Proof.
  unfold lineRecords, processLine.
  destruct (negb (truthy (trim line))); [cbn; rewrite app_nil_r; reflexivity|].
  destruct (negb (length (parseLine line) =? length rh));
    [cbn; rewrite app_nil_r; reflexivity|].
  destruct (accepted (assemble hm (parseLine line)));
    [reflexivity|cbn; rewrite app_nil_r; reflexivity].
Qed.

(** Every line is looked at, and contributes on its own. *)
Lemma processLines_questions (rh : list string) (hm : list (option string))
    (rows : list string) :
  forall (st : ImportRun) (i : nat),
    questions (processLines rh hm st i rows)
    = questions st ++ flat_map (lineRecords rh hm) rows.
Proof.
  induction rows as [|line rows IH]; intros st i; cbn [processLines flat_map].
  - rewrite app_nil_r. reflexivity.
  - rewrite IH, processLine_questions, <- app_assoc. reflexivity.
Qed.

Lemma lineRecords_length (rh : list string) (hm : list (option string)) (line : string) :
  length (lineRecords rh hm line) <= 1.
Proof.
  unfold lineRecords, processLine.
  destruct (negb (truthy (trim line))); [cbn; lia|].
  destruct (negb (length (parseLine line) =? length rh)); [cbn; lia|].
  destruct (accepted (assemble hm (parseLine line))); cbn; lia.
Qed.

Lemma lineRecords_mismatch (rh : list string) (hm : list (option string)) (line : string) :
  mismatch rh line = true -> lineRecords rh hm line = [].
Proof.
  unfold mismatch, lineRecords, processLine. intros H. rewrite H.
  destruct (negb (truthy (trim line))); reflexivity.
Qed.

Lemma records_bound (rh : list string) (hm : list (option string)) (rows : list string) :
  length (flat_map (lineRecords rh hm) rows) + length (List.filter (mismatch rh) rows)
  <= length rows.
Proof.
  induction rows as [|line rows IH]; [cbn; lia|].
  cbn [flat_map List.filter]. rewrite length_app.
  destruct (mismatch rh line) eqn:Hm.
  - rewrite (lineRecords_mismatch _ hm _ Hm). cbn. lia.
  - pose proof (lineRecords_length rh hm line). cbn [length]. lia.
Qed.

Lemma parseCSV_rows (csvText header : string) (rows : list string) :
  truthy csvText = true ->
  Regex.split reNewline (trim csvText) = header :: rows ->
  parseCSV csvText
  = flat_map (lineRecords (JS.split comma header) (map mapHeader (JS.split comma header))) rows.
Proof.
  intros Ht Hs. unfold parseCSV, parseCSV_log. rewrite Ht, Hs. cbn [negb].
  rewrite processLines_questions. reflexivity.
Qed.

(** C2. A line that has as many fields as the header is appended to the
    result exactly when a column mapped to the question text is present,
    at least two columns mapped to options were collected, and the value
    of the correct-answer column is present and not empty; otherwise the
    result is left as it is.  Either way the loop goes on with the lines
    that follow. *)
Theorem record_accepted_iff (rawHeaders : list string) (st : ImportRun) (i : nat)
    (line : string)
    (Hcount : length (parseLine line) = length rawHeaders) :
  let headerMap := map mapHeader rawHeaders in
  let values := parseLine line in
  let qs := columnValues (isKey "q") headerMap values in
  let os := columnValues isOptionKey headerMap values in
  let cs := columnValues (isKey "correct") headerMap values in
  let es := columnValues (isKey "explanation") headerMap values in
  let record := Question.mk (last qs) (Some os) (last cs) (last es) None in
  let ok := qs <> [] /\ 2 <= length os /\ exists c, last cs = Some c /\ c <> "" in
  ((ok /\
    processLine rawHeaders headerMap st i line
    = mkImport (questions st ++ [record]) (warnings st)) \/
   (~ ok /\ processLine rawHeaders headerMap st i line = st)) /\
  forall rows,
    questions (processLines rawHeaders headerMap st i (line :: rows))
    = questions (processLine rawHeaders headerMap st i line)
      ++ flat_map (lineRecords rawHeaders headerMap) rows.
Proof.
  cbn zeta. split.
  2:{ intros rows. cbn [processLines]. apply processLines_questions. }
  unfold processLine. destruct (truthy (trim line)) eqn:Hline; cbn [negb].
  2:{ right. split; [|reflexivity]. intros (_ & Hos & _).
      pose proof (blank_tokens line Hline) as Hb.
      pose proof (columnValues_length isOptionKey (map mapHeader rawHeaders)
                    (parseLine line)) as Hl.
      lia. }
  rewrite Hcount, Nat.eqb_refl. cbn [negb].
  rewrite assemble_walk by (rewrite length_map; symmetry; assumption).
  pose proof (walk_fields (map mapHeader rawHeaders) (parseLine line) rowInit) as H.
  cbn zeta in H. destruct H as (Hq & Hc & He & Ho & Hi & Hopts & Hhas).
  set (r := walk (map mapHeader rawHeaders) (parseLine line) rowInit) in *.
  cbn in Hq, Hc, He, Ho, Hi, Hopts, Hhas.
  unfold accepted. rewrite Hhas, Hopts, Hc.
  set (qs := columnValues (isKey "q") (map mapHeader rawHeaders) (parseLine line)) in *.
  set (os := columnValues isOptionKey (map mapHeader rawHeaders) (parseLine line)) in *.
  set (cs := columnValues (isKey "correct") (map mapHeader rawHeaders) (parseLine line)) in *.
  assert (Hrec : Question.set_options os (question r)
                 = Question.mk (last qs) (Some os) (last cs)
                     (last (columnValues (isKey "explanation")
                              (map mapHeader rawHeaders) (parseLine line))) None).
  { unfold Question.set_options. rewrite Hq, Hc, He, Hi.
    destruct (last qs), (last cs), (last _); reflexivity. }
  destruct (bool_decide (qs <> [])) eqn:Hqs.
  2:{ right. split; [|reflexivity]. intros (H & _).
      apply bool_decide_eq_false in Hqs. contradiction. }
  apply bool_decide_eq_true in Hqs.
  destruct (2 <=? length os) eqn:Hos.
  2:{ right. split; [|reflexivity]. intros (_ & H & _).
      apply Nat.leb_gt in Hos. lia. }
  apply Nat.leb_le in Hos.
  destruct (last cs) as [c|] eqn:Hcs; cbn [orElse truthyOpt].
  2:{ right. split; [|reflexivity]. intros (_ & _ & c & H & _). discriminate. }
  destruct c as [|a c]; cbn [truthy andb].
  { right. split; [|reflexivity]. intros (_ & _ & c & [= <-] & H). congruence. }
  left. split.
  - repeat split; [assumption..|]. eexists. split; [reflexivity|discriminate].
  - rewrite Hrec. reflexivity.
Qed.

(** The first data row of the sample file. *)
Lemma record_accepted_iff_witness :
  processLine (JS.split comma "Question,Option A,Option B,Correct Answer")
    (map mapHeader (JS.split comma "Question,Option A,Option B,Correct Answer"))
    (mkImport [] []) 1 "1+1?,2,3,A"
  = mkImport [Question.mk (Some "1+1?") (Some ["2"; "3"]) (Some "A") None None] [].
Proof.
  destruct (record_accepted_iff
              (JS.split comma "Question,Option A,Option B,Correct Answer")
              (mkImport [] []) 1 "1+1?,2,3,A" eq_refl) as [[[_ H]|[_ H]] _].
  - exact H.
  - vm_compute. reflexivity.
Defined.

(** C4. A line whose number of fields differs from the header's adds no
    record, and the import goes on: the result is what the other lines
    contribute.  If the line is not blank, the column check is what skips
    it, with a warning that gives its number.  So the number of records
    plus the number of such lines is at most the number of data rows; with
    exactly one such line among N rows there are at most N - 1 records. *)
Theorem mismatch_skipped (csvText header : string) (rows : list string)
    (Htext : truthy csvText = true)
    (Hsplit : Regex.split reNewline (trim csvText) = header :: rows) :
  let rawHeaders := JS.split comma header in
  let headerMap := map mapHeader rawHeaders in
  (forall st i line,
     length (parseLine line) <> length rawHeaders ->
     questions (processLine rawHeaders headerMap st i line) = questions st /\
     (truthy (trim line) = true ->
      processLine rawHeaders headerMap st i line
      = mkImport (questions st) (warnings st ++ [i + 1]))) /\
  (forall pre line post,
     rows = pre ++ line :: post ->
     length (parseLine line) <> length rawHeaders ->
     parseCSV csvText
     = flat_map (lineRecords rawHeaders headerMap) pre
       ++ flat_map (lineRecords rawHeaders headerMap) post) /\
  length (parseCSV csvText) + length (List.filter (mismatch rawHeaders) rows)
    <= length rows /\
  (length (List.filter (mismatch rawHeaders) rows) = 1 ->
   length (parseCSV csvText) <= length rows - 1).
Proof.
  cbn zeta.
  pose proof (parseCSV_rows csvText header rows Htext Hsplit) as Hrows.
  pose proof (records_bound (JS.split comma header)
                (map mapHeader (JS.split comma header)) rows) as Hb.
  rewrite <- Hrows in Hb.
  split; [|split; [|split]].
  - intros st i line Hn. apply Nat.eqb_neq in Hn. unfold processLine. rewrite Hn.
    destruct (truthy (trim line)); cbn [negb]; split; try reflexivity.
    intros H. discriminate.
  - intros pre line post -> Hn. rewrite Hrows, flat_map_app. cbn [flat_map].
    rewrite lineRecords_mismatch; [reflexivity|].
    unfold mismatch. apply Nat.eqb_neq in Hn. rewrite Hn. reflexivity.
  - exact Hb.
  - lia.
Qed.

End RowLoop.

Section RowLoopWitness.
Import JS CSV Spec.

(** Three data rows of which one has two fields: at most two records. *)
Lemma mismatch_skipped_witness :
  length (parseCSV Sample.text) <= length Sample.rows - 1.
Proof.
  pose proof (mismatch_skipped Sample.text Sample.header Sample.rows eq_refl eq_refl)
    as (_ & _ & _ & H).
  apply H. vm_compute. reflexivity.
Defined.

End RowLoopWitness.

(** ** The answer check *)

Section CheckAnswer.
Import JS App.

Lemma indexOf_lookup (x : list N) (l : list (list N)) (i : nat) :
  indexOf x l = Some i -> l !! i = Some x.
Proof.
  revert i. induction l as [|y l IH]; intros i; simpl; [discriminate|].
  destruct (bool_decide_reflect (y = x)) as [->|Hne].
  - intros [= <-]. reflexivity.
  - destruct (indexOf x l) as [j|]; simpl; [|discriminate].
    intros [= <-]. simpl. apply IH. reflexivity.
Qed.

Lemma lookup_indexOf (x : list N) (l : list (list N)) (i : nat) :
  NoDup l -> l !! i = Some x -> indexOf x l = Some i.
Proof.
  intros Hnd. revert i. induction Hnd as [|y l Hy Hnd IH]; intros i; [discriminate|].
  destruct i as [|i]; simpl.
  - intros [= ->]. rewrite bool_decide_eq_true_2 by reflexivity. reflexivity.
  - intros Hi. destruct (bool_decide_reflect (y = x)) as [->|Hne].
    + exfalso. apply Hy. apply list_elem_of_lookup. eauto.
    + rewrite (IH _ Hi). reflexivity.
Qed.

Lemma letters_NoDup : NoDup letters.
Proof. apply (bool_decide_unpack _). vm_compute. reflexivity. Qed.

(** The two rules of the answer check, on any question object. *)
Lemma checkAnswer_rules (sel : string) (qu : Question.t) :
  checkAnswer sel (Some qu) = true <->
  Question.correct qu = Some sel \/
  exists c i opts,
    Question.correct qu = Some c /\
    letters !! i = Some (toUpperCase (trim c)) /\
    Question.options qu = Some opts /\
    opts !! i = Some sel.
Proof.
  unfold checkAnswer.
  destruct (Question.correct qu) as [c|]; cbn [fmap option_fmap option_map mbind option_bind].
  2:{ split; [discriminate|]. intros [[=]|(c & i & opts & [=] & _)]. }
  destruct (String.eqb_spec sel c) as [->|Hne].
  { split; auto. }
  destruct (indexOf (toUpperCase (trim c)) letters) as [i|] eqn:Hi.
  - apply indexOf_lookup in Hi as Hl.
    destruct (Question.options qu) as [opts|].
    + destruct (opts !! i) as [o|] eqn:Ho.
      * destruct (String.eqb_spec o sel) as [->|Hno].
        -- split; [|reflexivity]. intros _. right. exists c, i, opts. auto.
        -- split; [discriminate|].
           intros [[= ->]|(c' & i' & opts' & [= <-] & Hl' & [= <-] & Ho')]; [congruence|].
           apply (lookup_indexOf _ _ _ letters_NoDup) in Hl'.
           rewrite Hl' in Hi. injection Hi as ->. congruence.
      * split; [discriminate|].
        intros [[= ->]|(c' & i' & opts' & [= <-] & Hl' & [= <-] & Ho')]; [congruence|].
        apply (lookup_indexOf _ _ _ letters_NoDup) in Hl'.
        rewrite Hl' in Hi. injection Hi as ->. congruence.
    + split; [discriminate|].
      intros [[= ->]|(c' & i' & opts' & _ & _ & [=] & _)]; congruence.
  - split; [discriminate|].
    intros [[= ->]|(c' & i' & opts' & [= <-] & Hl' & _)]; [congruence|].
    apply (lookup_indexOf _ _ _ letters_NoDup) in Hl'. congruence.
Qed.

(** The upper-case form of one character is a letter A to D exactly for
    the eight letters. *)
Lemma upper_letter (x : ascii) (i : nat) :
  letters !! i = Some (upperUnits x) <-> Spec.letterIndex x = Some i.
Proof.
  destruct i as [|[|[|[|i]]]];
    destruct x as [[] [] [] [] [] [] [] []]; vm_compute; split; congruence.
Qed.

Lemma upperUnits_length (x : ascii) : 1 <= length (upperUnits x).
Proof. destruct x as [[] [] [] [] [] [] [] []]; vm_compute; lia. Qed.

Lemma letters_length (i : nat) (u : list N) : letters !! i = Some u -> length u = 1.
Proof. destruct i as [|[|[|[|i]]]]; vm_compute; intros [= <-]; reflexivity. Qed.

Lemma letter_not_blank (x : ascii) (i : nat) :
  Spec.letterIndex x = Some i -> isWhitespace x = false.
Proof. destruct x as [[] [] [] [] [] [] [] []]; vm_compute; congruence. Qed.

(** [correct], trimmed and in upper case, is the letter of index [i]
    exactly when it is that letter, in either case, between blanks. *)
Lemma resolves_letters (c : string) (i : nat) :
  Spec.resolves c i <-> letters !! i = Some (toUpperCase (trim c)).
Proof.
  split.
  - intros (pre & x & post & -> & Hpre & Hpost & Hx).
    assert (Ht : trim (pre +:+ String x post) = String x EmptyString).
    { unfold trim. rewrite (trimStart_blanks pre _ Hpre). cbn [trimStart].
      rewrite (letter_not_blank x i Hx). cbn [trimEnd].
      rewrite (trimEnd_blanks post Hpost), (letter_not_blank x i Hx). reflexivity. }
    rewrite Ht. cbn [toUpperCase]. rewrite app_nil_r. apply upper_letter. exact Hx.
  - intros Hl. destruct (trim_decomp c) as (pre & post & Hc & Hpre & Hpost).
    pose proof (letters_length i _ Hl) as Hlen.
    destruct (trim c) as [|x [|y t]] eqn:Ht.
    + cbn in Hlen. lia.
    + cbn [toUpperCase] in Hl. rewrite app_nil_r in Hl.
      exists pre, x, post. rewrite Hc, append_cons, append_nil.
      repeat split; try assumption. apply upper_letter. exact Hl.
    + cbn [toUpperCase] in Hlen. rewrite !length_app in Hlen.
      pose proof (upperUnits_length x). pose proof (upperUnits_length y). lia.
Qed.

End CheckAnswer.

Section CheckAnswerClaim.
Import JS App.

(** C1. [checkAnswer] accepts a selected string exactly when it equals
    [correct], or, that failing, when [correct] is one of the letters A
    to D, in either case and with or without blanks around it (which is
    what trimming and upper-casing it to one of the letters A, B, C, D
    comes to), and the option at the index of that letter (A is 0, ..., D
    is 3) equals the selected string.  With the options Paris, Rome,
    Berlin, Madrid only Rome is judged correct when [correct] is the
    letter B, when it is the text Rome, and when it is the letter b
    written small or between blanks; no option is, when [correct] is
    another letter. *)
Theorem checkAnswer_correct :
  (forall (sel : string) (qu : Question.t),
     checkAnswer sel (Some qu) = true <->
     Question.correct qu = Some sel \/
     (Question.correct qu <> Some sel /\
      exists c i opts,
        Question.correct qu = Some c /\
        Spec.resolves c i /\
        Question.options qu = Some opts /\
        opts !! i = Some sel)) /\
  (forall (c : string) (i : nat),
     Spec.resolves c i <->
     map units ["A"; "B"; "C"; "D"] !! i = Some (toUpperCase (trim c))) /\
  (forall sel : string, checkAnswer sel None = false) /\
  map (fun o => checkAnswer o (Some (Sample.capitals "B")))
      ["Paris"; "Rome"; "Berlin"; "Madrid"] = [false; true; false; false] /\
  map (fun o => checkAnswer o (Some (Sample.capitals "Rome")))
      ["Paris"; "Rome"; "Berlin"; "Madrid"] = [false; true; false; false] /\
  map (fun o => checkAnswer o (Some (Sample.capitals "b")))
      ["Paris"; "Rome"; "Berlin"; "Madrid"] = [false; true; false; false] /\
  map (fun o => checkAnswer o (Some (Sample.capitals Sample.paddedB)))
      ["Paris"; "Rome"; "Berlin"; "Madrid"] = [false; true; false; false] /\
  map (fun o => checkAnswer o (Some (Sample.capitals "E")))
      ["Paris"; "Rome"; "Berlin"; "Madrid"] = [false; false; false; false].
Proof.
  split; [|split; [exact resolves_letters|split; [reflexivity|repeat split; reflexivity]]].
  intros sel qu. rewrite checkAnswer_rules.
  destruct (decide (Question.correct qu = Some sel)) as [Heq|Hne]; [tauto|].
  split.
  - intros [H|(c & i & opts & Hc & Hl & Ho)]; [contradiction|].
    right. split; [exact Hne|]. exists c, i, opts.
    rewrite resolves_letters. auto.
  - intros [H|(_ & c & i & opts & Hc & Hl & Ho)]; [contradiction|].
    right. exists c, i, opts. rewrite <- resolves_letters. auto.
Qed.

End CheckAnswerClaim.

(** ** Navigation *)

Section Navigation.
Import JS App.

Lemma withVisibility_fields (prev : gmap nat Response) (i : nat) (v : bool) :
  selectedOption (withVisibility prev i v) = prev !! i ≫= selectedOption /\
  isCorrect (withVisibility prev i v) = prev !! i ≫= isCorrect /\
  isExplanationVisible (withVisibility prev i v) = v.
Proof. unfold withVisibility. auto. Qed.

(** What a sequential move to [j] does to the response map. *)
Lemma hide_at (m : gmap nat Response) (j : nat) :
  let m' := <[j := withVisibility m j false]> m in
  isExplanationVisible (responseAt m' j) = false /\
  m' !! j ≫= selectedOption = m !! j ≫= selectedOption /\
  m' !! j ≫= isCorrect = m !! j ≫= isCorrect /\
  selected (responseAt m' j) = selected (responseAt m j) /\
  markedCorrect (responseAt m' j) = markedCorrect (responseAt m j) /\
  forall k, k <> j -> m' !! k = m !! k.
Proof.
  cbn zeta. unfold responseAt. rewrite lookup_insert_eq. cbn.
  repeat split.
  - unfold selected. cbn. destruct (m !! j); reflexivity.
  - unfold markedCorrect. cbn. destruct (m !! j); reflexivity.
  - intros k Hk. apply lookup_insert_ne. congruence.
Qed.

Lemma step_next (clock : nat -> N) (s : AppState) :
  loading s = false -> quizState s = PRACTICE -> isLast s = false ->
  step clock PressNext s =
  apply (apply s (setUserResponses (fun prev =>
            <[currentQuestionIndex s + 1 :=
                withVisibility prev (currentQuestionIndex s + 1) false]> prev)))
        (setCurrentQuestionIndex (currentQuestionIndex s + 1)).
Proof.
  intros Hs Hq Hl. unfold step, handler, next. rewrite Hs, Hq, Hl. reflexivity.
Qed.

Lemma step_next_last (clock : nat -> N) (s : AppState) :
  loading s = false -> quizState s = PRACTICE -> isLast s = true ->
  step clock PressNext s = apply s (setQuizState SUMMARY).
Proof.
  intros Hs Hq Hl. unfold step, handler, next. rewrite Hs, Hq, Hl. reflexivity.
Qed.

Lemma step_previous (clock : nat -> N) (s : AppState) :
  loading s = false -> quizState s = PRACTICE -> 0 < currentQuestionIndex s ->
  step clock PressPrevious s =
  apply (apply s (setUserResponses (fun prev =>
            <[currentQuestionIndex s - 1 :=
                withVisibility prev (currentQuestionIndex s - 1) false]> prev)))
        (setCurrentQuestionIndex (currentQuestionIndex s - 1)).
Proof.
  intros Hs Hq Hl. unfold step, handler, previous. rewrite Hs, Hq.
  apply Nat.ltb_lt in Hl. rewrite Hl. reflexivity.
Qed.

Lemma step_previous_first (clock : nat -> N) (s : AppState) :
  loading s = false -> quizState s = PRACTICE -> currentQuestionIndex s = 0 ->
  step clock PressPrevious s = apply s (setQuizState TOPIC_SELECT).
Proof.
  intros Hs Hq Hl. unfold step, handler, previous. rewrite Hs, Hq, Hl. reflexivity.
Qed.

Lemma step_jump (clock : nat -> N) (s : AppState) (j : nat) :
  loading s = false -> quizState s = PRACTICE -> isDrawerOpen s = true -> j < length (currentQuestions s) ->
  step clock (PressJump j) s =
  apply (apply s (setCurrentQuestionIndex j)) (setIsDrawerOpen (fun _ => false)).
Proof.
  intros Hs Hq Hd Hj. unfold step, handler, jumpTo. rewrite Hs, Hq, Hd.
  apply Nat.ltb_lt in Hj. rewrite Hj. reflexivity.
Qed.

(** C6. On the practice screen (the state is [PRACTICE] and nothing is
    loading) a move by Next or Previous hides the explanation of the
    question moved to, and a jump from the list leaves every response
    entry as it is.  In all three cases the selected option and the
    correctness of the destination, and the entries of all other indices,
    are unchanged. *)
Theorem navigation_explanation_visibility (clock : nat -> N) (s : AppState) (j : nat)
    (Hshown : loading s = false)
    (Hpractice : quizState s = PRACTICE) :
  (isLast s = false ->
   let i := currentQuestionIndex s + 1 in
   let s' := step clock PressNext s in
   currentQuestionIndex s' = i /\
   isExplanationVisible (responseAt (userResponses s') i) = false /\
   userResponses s' !! i ≫= selectedOption = userResponses s !! i ≫= selectedOption /\
   userResponses s' !! i ≫= isCorrect = userResponses s !! i ≫= isCorrect /\
   selected (responseAt (userResponses s') i) = selected (responseAt (userResponses s) i) /\
   markedCorrect (responseAt (userResponses s') i) =
     markedCorrect (responseAt (userResponses s) i) /\
   forall k, k <> i -> userResponses s' !! k = userResponses s !! k) /\
  (0 < currentQuestionIndex s ->
   let i := currentQuestionIndex s - 1 in
   let s' := step clock PressPrevious s in
   currentQuestionIndex s' = i /\
   isExplanationVisible (responseAt (userResponses s') i) = false /\
   userResponses s' !! i ≫= selectedOption = userResponses s !! i ≫= selectedOption /\
   userResponses s' !! i ≫= isCorrect = userResponses s !! i ≫= isCorrect /\
   selected (responseAt (userResponses s') i) = selected (responseAt (userResponses s) i) /\
   markedCorrect (responseAt (userResponses s') i) =
     markedCorrect (responseAt (userResponses s) i) /\
   forall k, k <> i -> userResponses s' !! k = userResponses s !! k) /\
  (isDrawerOpen s = true -> j < length (currentQuestions s) ->
   let s' := step clock (PressJump j) s in
   currentQuestionIndex s' = j /\
   userResponses s' = userResponses s /\
   isExplanationVisible (responseAt (userResponses s') j) =
     isExplanationVisible (responseAt (userResponses s) j)).
Proof.
  split; [|split].
  - intros Hl i s'. subst s'. rewrite step_next by assumption. cbn.
    split; [reflexivity|]. apply hide_at.
  - intros Hl i s'. subst s'. rewrite step_previous by assumption. cbn.
    split; [reflexivity|]. apply hide_at.
  - intros Hd Hj s'. subst s'. rewrite step_jump by assumption. cbn. auto.
Qed.

(** From the second question of the sample session, Next hides the
    explanation of the third question and a jump to it leaves it open. *)
Lemma navigation_explanation_visibility_witness :
  quizState Sample.session = PRACTICE /\
  isExplanationVisible (responseAt (userResponses Sample.session) 2) = true /\
  isExplanationVisible
    (responseAt (userResponses (step Sample.clock PressNext Sample.session)) 2) = false /\
  isExplanationVisible
    (responseAt (userResponses (step Sample.clock (PressJump 2) Sample.session)) 2) = true.
Proof.
  split; [reflexivity|]. split; [reflexivity|].
  pose proof (navigation_explanation_visibility Sample.clock Sample.session 2 eq_refl eq_refl)
    as (Hnext & _ & Hjump).
  split.
  - apply (Hnext eq_refl).
  - destruct (Hjump eq_refl) as (_ & _ & ->); [cbn; lia|]. reflexivity.
Defined.

(** C7. On the practice screen, Previous at index 0 leads to the topic
    screen and Next at the last index leads to the summary, the index
    staying as it was; at every other index Previous decrements and Next
    increments the index, which stays inside the list of questions. *)
Theorem navigation_transitions (clock : nat -> N) (s : AppState)
    (Hshown : loading s = false)
    (Hpractice : quizState s = PRACTICE)
    (Hbound : currentQuestionIndex s < length (currentQuestions s)) :
  (currentQuestionIndex s = 0 ->
   quizState (step clock PressPrevious s) = TOPIC_SELECT /\
   currentQuestionIndex (step clock PressPrevious s) = currentQuestionIndex s) /\
  (currentQuestionIndex s + 1 = length (currentQuestions s) ->
   quizState (step clock PressNext s) = SUMMARY /\
   currentQuestionIndex (step clock PressNext s) = currentQuestionIndex s) /\
  (0 < currentQuestionIndex s ->
   quizState (step clock PressPrevious s) = PRACTICE /\
   currentQuestions (step clock PressPrevious s) = currentQuestions s /\
   currentQuestionIndex (step clock PressPrevious s) = currentQuestionIndex s - 1 /\
   currentQuestionIndex (step clock PressPrevious s)
     < length (currentQuestions (step clock PressPrevious s))) /\
  (currentQuestionIndex s + 1 <> length (currentQuestions s) ->
   quizState (step clock PressNext s) = PRACTICE /\
   currentQuestions (step clock PressNext s) = currentQuestions s /\
   currentQuestionIndex (step clock PressNext s) = currentQuestionIndex s + 1 /\
   currentQuestionIndex (step clock PressNext s)
     < length (currentQuestions (step clock PressNext s))).
Proof.
  repeat split.
  - rewrite step_previous_first by assumption. reflexivity.
  - rewrite step_previous_first by assumption. reflexivity.
  - rewrite step_next_last; [reflexivity|assumption|assumption|].
    unfold isLast. apply Nat.eqb_eq. assumption.
  - rewrite step_next_last; [reflexivity|assumption|assumption|].
    unfold isLast. apply Nat.eqb_eq. assumption.
  - rewrite step_previous by assumption. cbn. assumption.
  - rewrite step_previous by assumption. reflexivity.
  - rewrite step_previous by assumption. reflexivity.
  - rewrite step_previous by assumption. cbn. lia.
  - rewrite step_next; [cbn; assumption|assumption|assumption|].
    unfold isLast. apply Nat.eqb_neq. assumption.
  - rewrite step_next; [reflexivity|assumption|assumption|].
    unfold isLast. apply Nat.eqb_neq. assumption.
  - rewrite step_next; [reflexivity|assumption|assumption|].
    unfold isLast. apply Nat.eqb_neq. assumption.
  - rewrite step_next; [cbn; lia|assumption|assumption|].
    unfold isLast. apply Nat.eqb_neq. assumption.
Qed.

End Navigation.

Section NavigationWitness.
Import JS App.

(** A session of three questions: Previous at the first one, Next at the
    last one, Next at the first one. *)
Lemma navigation_transitions_witness :
  quizState (step Sample.clock PressPrevious Sample.started) = TOPIC_SELECT /\
  quizState (step Sample.clock PressNext (step Sample.clock PressNext (step Sample.clock PressNext Sample.started)))
    = SUMMARY /\
  currentQuestionIndex (step Sample.clock PressNext Sample.started) = 1.
Proof.
  split; [|split].
  - apply (navigation_transitions Sample.clock Sample.started eq_refl eq_refl); [cbn; lia|reflexivity].
  - apply (navigation_transitions Sample.clock (step Sample.clock PressNext (step Sample.clock PressNext Sample.started))
             eq_refl eq_refl); [cbn; lia|reflexivity].
  - apply (navigation_transitions Sample.clock Sample.started eq_refl eq_refl); [cbn; lia|cbn; lia].
Defined.

End NavigationWitness.

(** ** Answering *)

Section Answering.
Import JS App.

(** Selecting an option records it with its correctness at the current
    index and keeps the explanation flag of that index; the explanation
    button flips that flag and keeps the selection and the correctness.
    Neither touches the entries of the other indices, the index or the
    list of questions. *)
Theorem select_and_toggle (clock : nat -> N) (s : AppState) (o : string)
    (opts : list string)
    (Hload : loading s = false)
    (Hpractice : quizState s = PRACTICE)
    (Hopts : currentQuestion s ≫= Question.options = Some opts)
    (Hshown : o ∈ opts) :
  let i := currentQuestionIndex s in
  let s1 := step clock (PressOption o) s in
  let s2 := step clock PressExplanation s in
  (userResponses s1 !! i
   = Some (mkResponse (Some o) (Some (checkAnswer o (currentQuestion s)))
             (isExplanationVisible (currentResponse s))) /\
   (forall k, k <> i -> userResponses s1 !! k = userResponses s !! k) /\
   currentQuestionIndex s1 = i /\ currentQuestions s1 = currentQuestions s /\
   quizState s1 = PRACTICE) /\
  (isExplanationVisible (responseAt (userResponses s2) i)
   = negb (isExplanationVisible (currentResponse s)) /\
   userResponses s2 !! i ≫= selectedOption = userResponses s !! i ≫= selectedOption /\
   userResponses s2 !! i ≫= isCorrect = userResponses s !! i ≫= isCorrect /\
   (forall k, k <> i -> userResponses s2 !! k = userResponses s !! k) /\
   currentQuestionIndex s2 = i /\ currentQuestions s2 = currentQuestions s /\
   quizState s2 = PRACTICE).
Proof.
  cbn zeta. unfold step, handler. rewrite Hload, Hpractice, Hopts.
  rewrite (bool_decide_eq_true_2 _ Hshown).
  unfold handleOptionSelect, toggleExplanation, dispatch.
  cbn [fold_left apply userResponses currentQuestionIndex currentQuestions quizState].
  split.
  - rewrite lookup_insert_eq. split.
    + unfold currentResponse, responseAt.
      destruct (userResponses s !! currentQuestionIndex s); reflexivity.
    + repeat split; try assumption.
      intros k Hk. apply lookup_insert_ne. congruence.
  - unfold responseAt. rewrite lookup_insert_eq. cbn.
    repeat split; try assumption.
    intros k Hk. apply lookup_insert_ne. congruence.
Qed.

(** At the first question of the sample session the option yes is shown. *)
Lemma select_and_toggle_witness :
  userResponses (step Sample.clock (PressOption "yes") Sample.started) !! 0
  = Some (mkResponse (Some "yes") (Some true) false) /\
  isExplanationVisible
    (responseAt (userResponses (step Sample.clock PressExplanation Sample.started)) 0)
  = true.
Proof.
  pose proof (select_and_toggle Sample.clock Sample.started "yes" ["yes"; "no"]
                eq_refl eq_refl eq_refl) as H.
  cbn zeta in H. destruct H as ((H1 & _) & (H2 & _)).
  - apply list_elem_of_here.
  - split; [exact H1|exact H2].
Defined.

End Answering.

(** ** Starting a session *)

Section StartPractice.
Import JS App.

Lemma digits_no_dash (d : Decimal.uint) :
  Row.noChar "-" (DecimalString.NilEmpty.string_of_uint d) = true.
Proof. induction d; cbn; auto. Qed.

(** Where two texts agree up to their first dash, the parts before it
    are the same. *)
Lemma dash_split (a : string) :
  forall b x y : string,
    Row.noChar "-" a = true -> Row.noChar "-" b = true ->
    a +:+ String "-" x = b +:+ String "-" y -> a = b.
Proof.
  induction a as [|c a IH]; intros [|d b] x y Ha Hb H.
  - reflexivity.
  - exfalso. injection H as H _. subst d. cbn in Hb. discriminate.
  - exfalso. injection H as H _. subst c. cbn in Ha. discriminate.
  - injection H as -> H. f_equal.
    cbn [Row.noChar] in Ha, Hb.
    apply andb_true_iff in Ha as [_ Ha]. apply andb_true_iff in Hb as [_ Hb].
    exact (IH b x y Ha Hb H).
Qed.

Lemma toString_inj (a b : N) : Num.toString a = Num.toString b -> a = b.
Proof.
  unfold Num.toString. intros H.
  apply DecimalN.Unsigned.to_uint_inj.
  apply (f_equal DecimalString.NilEmpty.uint_of_string) in H.
  rewrite !DecimalString.NilEmpty.usu in H. congruence.
Qed.

(** The ids of a session differ from one index to the other, whatever
    the clock reads. *)
Lemma sessionId_inj (clock : nat -> N) (i j : nat) :
  Spec.sessionId clock i = Spec.sessionId clock j -> i = j.
Proof.
  unfold Spec.sessionId. intros H.
  apply dash_split in H; [|apply digits_no_dash..].
  apply toString_inj in H. lia.
Qed.

Lemma dispatch_setMessage (m : string) (s : AppState) :
  dispatch [setMessage m] s =
  mkState (loading s) (topics s) (quizState s) (csvContent s) (fileName s)
    (newTopicName s) (currentQuestions s) (currentQuestionIndex s)
    (userResponses s) (isDrawerOpen s) m (selectedTopicIds s) (openMenuId s).
Proof. reflexivity. Qed.

(** C8. [startPractice] makes no transition exactly when the list is
    absent or empty: it then only sets the message, and every other part
    of the state stays as it was.  On a list that is not empty the state
    becomes the practice state, the questions are those of the list in
    order, each with an id of its own, the index is 0 and the response
    map is empty. *)
Theorem startPractice_transition (clock : nat -> N)
    (questionsList : option (list Question.t)) (s : AppState) :
  let s' := dispatch (startPractice clock questionsList) s in
  (startPractice clock questionsList = [setMessage "No questions to practice."] <->
   questionsList = None \/ questionsList = Some []) /\
  match questionsList with
  | None | Some [] =>
      s' = mkState (loading s) (topics s) (quizState s) (csvContent s) (fileName s)
             (newTopicName s) (currentQuestions s) (currentQuestionIndex s)
             (userResponses s) (isDrawerOpen s) "No questions to practice."
             (selectedTopicIds s) (openMenuId s)
  | Some l =>
      quizState s' = PRACTICE /\
      currentQuestionIndex s' = 0 /\
      userResponses s' = ∅ /\
      message s' = message s /\
      topics s' = topics s /\
      length (currentQuestions s') = length l /\
      (forall i, currentQuestions s' !! i =
                 Question.set_id
                   (Num.toString (N.of_nat i) +:+ "-" +:+ Num.toString (clock i))
                   <$> l !! i) /\
      (forall i j qi qj,
         currentQuestions s' !! i = Some qi -> currentQuestions s' !! j = Some qj ->
         Question.id qi = Question.id qj -> i = j)
  end.
Proof.
  cbn zeta. split.
  - destruct questionsList as [[|qu l]|]; cbn.
    + split; auto.
    + split; [discriminate|]. intros [H|H]; discriminate.
    + split; auto.
  - destruct questionsList as [[|qu l]|]; [reflexivity| |reflexivity].
    set (l' := qu :: l).
    change (startPractice clock (Some l')) with
      [setCurrentQuestions (imap (fun i x => Question.set_id (Spec.sessionId clock i) x) l');
       setCurrentQuestionIndex 0; setUserResponses (fun _ => ∅);
       setQuizState PRACTICE; setIsDrawerOpen (fun _ => false)].
    cbn [dispatch fold_left apply quizState currentQuestionIndex userResponses message
         topics currentQuestions].
    repeat split.
    + apply length_imap.
    + intros i.
      exact (list_lookup_imap (fun i x => Question.set_id (Spec.sessionId clock i) x) l' i).
    + intros i j qi qj Hi Hj Hid.
      rewrite list_lookup_imap in Hi, Hj.
      destruct (l' !! i) as [xi|]; [|discriminate].
      destruct (l' !! j) as [xj|]; [|discriminate].
      cbn in Hi, Hj. injection Hi as <-. injection Hj as <-.
      cbn in Hid. injection Hid as Hid. eapply sessionId_inj. eassumption.
Qed.

End StartPractice.

(** ** Importing a topic *)

Section ImportTopic.
Import JS App.

Lemma nameTaken_spec (name : string) (ts : list Topic) :
  nameTaken name ts = true <->
  exists t, t ∈ ts /\ toLowerCase (topicName t) = toLowerCase (trim name).
Proof.
  unfold nameTaken. rewrite existsb_exists. split.
  - intros (t & Hin & Heq). exists t. split.
    + apply list_elem_of_In. assumption.
    + apply String.eqb_eq. assumption.
  - intros (t & Hin & Heq). exists t. split.
    + apply list_elem_of_In. assumption.
    + apply String.eqb_eq. assumption.
Qed.

(** The outcomes of [handleImport] when the name is taken. *)
Lemma handleImport_taken (now : N) (s : AppState) :
  nameTaken (newTopicName s) (topics s) = true ->
  handleImport now s =
    [setMessage
       (if negb (truthy (trim (csvContent s)))
        then "Please select a file OR paste content."
        else if negb (truthy (trim (newTopicName s)))
        then "Enter topic name."
        else if length (CSV.parseCSV (csvContent s)) =? 0
        then "No valid questions parsed from content."
        else "Topic with this name already exists.")].
Proof.
  intros Ht. unfold handleImport. rewrite Ht.
  destruct (negb (truthy (trim (csvContent s)))); [reflexivity|].
  destruct (negb (truthy (trim (newTopicName s)))); [reflexivity|].
  destruct (length (CSV.parseCSV (csvContent s)) =? 0); reflexivity.
Qed.

(** C9, as the code has it.  An import under a name that equals the name
    of a stored topic, compared in lower case after trimming, fails: it
    sets a message and nothing else, so the topic store is unchanged.
    The message is the duplicate-name one whenever the content is not
    blank, the name is not blank and the content yields a question; the
    checks for those three come first. *)
Theorem import_duplicate_name (now : N) (s : AppState)
    (Hdup : exists t, t ∈ topics s /\
              toLowerCase (topicName t) = toLowerCase (trim (newTopicName s))) :
  topics (dispatch (handleImport now s) s) = topics s /\
  (exists m, handleImport now s = [setMessage m]) /\
  (handleImport now s = [setMessage "Topic with this name already exists."] <->
   truthy (trim (csvContent s)) = true /\
   truthy (trim (newTopicName s)) = true /\
   CSV.parseCSV (csvContent s) <> []).
Proof.
  apply nameTaken_spec in Hdup. rewrite (handleImport_taken now s Hdup).
  split; [reflexivity|]. split; [eauto|].
  destruct (truthy (trim (csvContent s))); cbn [negb].
  2:{ split; [discriminate|]. intros (H & _). discriminate. }
  destruct (truthy (trim (newTopicName s))); cbn [negb].
  2:{ split; [discriminate|]. intros (_ & H & _). discriminate. }
  destruct (CSV.parseCSV (csvContent s)) as [|qu l]; cbn [length Nat.eqb].
  - split; [discriminate|]. intros (_ & _ & H). congruence.
  - split; auto.
Qed.

(** After Math is stored, an import of the sample file under the name
    mAtH, blanks around it; and after a name with an accented capital
    is stored, an import under that name with the letters in the other
    case, a no-break space before it. *)
Lemma import_duplicate_name_witness :
  (topics (dispatch (handleImport 5 (Sample.typed " mAtH " Sample.csv Sample.mathStore))
            (Sample.typed " mAtH " Sample.csv Sample.mathStore))
   = topics Sample.mathStore /\
   handleImport 5 (Sample.typed " mAtH " Sample.csv Sample.mathStore)
   = [setMessage "Topic with this name already exists."]) /\
  (topics (dispatch (handleImport 5 (Sample.typed Sample.ecoleVariant Sample.csv
                                       Sample.ecoleStore))
            (Sample.typed Sample.ecoleVariant Sample.csv Sample.ecoleStore))
   = topics Sample.ecoleStore /\
   handleImport 5 (Sample.typed Sample.ecoleVariant Sample.csv Sample.ecoleStore)
   = [setMessage "Topic with this name already exists."]).
Proof.
  split.
  2:{ assert (Hdup : exists t,
            t ∈ topics (Sample.typed Sample.ecoleVariant Sample.csv Sample.ecoleStore) /\
            toLowerCase (topicName t) =
            toLowerCase (trim (newTopicName
                                 (Sample.typed Sample.ecoleVariant Sample.csv
                                    Sample.ecoleStore)))).
      { eexists. split; [apply list_elem_of_here|]. vm_compute. reflexivity. }
      destruct (import_duplicate_name 5 _ Hdup) as (Htopics & _ & Hmsg).
      split; [exact Htopics|].
      apply Hmsg. vm_compute. repeat split; discriminate. }
  assert (Hdup : exists t, t ∈ topics (Sample.typed " mAtH " Sample.csv Sample.mathStore) /\
            toLowerCase (topicName t) =
            toLowerCase (trim (newTopicName (Sample.typed " mAtH " Sample.csv Sample.mathStore)))).
  { eexists. split; [apply list_elem_of_here|]. vm_compute. reflexivity. }
  destruct (import_duplicate_name 5 _ Hdup) as (Htopics & _ & Hmsg).
  split; [exact Htopics|].
  apply Hmsg. vm_compute. repeat split; discriminate.
Defined.

(** C9, an attempt on which the sentence of the specification fails: with
    blank content the import under a stored name fails with the
    empty-content message, not with the duplicate-name one. *)
Lemma import_duplicate_name_other_error :
  (exists t, t ∈ topics (Sample.typed "MATH" "" Sample.mathStore) /\
     toLowerCase (topicName t) =
     toLowerCase (trim (newTopicName (Sample.typed "MATH" "" Sample.mathStore)))) /\
  handleImport 5 (Sample.typed "MATH" "" Sample.mathStore)
    = [setMessage "Please select a file OR paste content."] /\
  handleImport 5 (Sample.typed "MATH" "" Sample.mathStore)
    <> [setMessage "Topic with this name already exists."].
Proof.
  split; [|split].
  - eexists. split; [apply list_elem_of_here|]. vm_compute. reflexivity.
  - vm_compute. reflexivity.
  - vm_compute. discriminate.
Qed.

(** After Math is stored, no attempt under a case variant of that name
    changes the store, whatever the content. *)
Lemma import_math_twice (now : N) (variant content : string) :
  toLowerCase (trim variant) = "math" ->
  let s := Sample.typed variant content Sample.mathStore in
  topics (dispatch (handleImport now s) s) = topics Sample.mathStore /\
  map topicName (topics (dispatch (handleImport now s) s)) = ["Math"].
Proof.
  intros Hv s.
  assert (Ht : nameTaken (newTopicName s) (topics s) = true).
  { change (newTopicName s) with variant.
    change (topics s) with (topics Sample.mathStore).
    unfold nameTaken. rewrite Hv. vm_compute. reflexivity. }
  rewrite (handleImport_taken now s Ht). unfold dispatch. cbn [fold_left apply topics].
  change (topics s) with (topics Sample.mathStore).
  split; [reflexivity|]. vm_compute. reflexivity.
Qed.

End ImportTopic.

(** ** The score *)

Section Score.
Import JS App Tally.

Lemma keyLe_trans : Transitive keyLe.
Proof. intros a b c. unfold keyLe. lia. Qed.

Lemma keyLe_total : Total keyLe.
Proof. intros a b. unfold keyLe. lia. Qed.

Lemma keys_strictly_sorted (l : list (nat * Response)) :
  StronglySorted keyLe l -> NoDup l.*1 -> StronglySorted lt l.*1.
Proof.
  induction 1 as [|x l Hl IH Hall]; intros Hnd; [constructor|].
  cbn in Hnd |- *. apply NoDup_cons in Hnd as [Hx Hnd].
  constructor; [apply IH; assumption|].
  apply Forall_fmap. apply Forall_forall. intros y Hy.
  rewrite Forall_forall in Hall. specialize (Hall y Hy). unfold keyLe in Hall.
  cbn. destruct (decide (x.1 = y.1)) as [Heq|Hne]; [|lia].
  exfalso. apply Hx. rewrite Heq. apply list_elem_of_fmap. eauto.
Qed.

(** [entries] lists the entries of the map, each once, by ascending key. *)
Lemma entries_spec (m : gmap nat Response) :
  (forall k r, (k, r) ∈ entries m <-> m !! k = Some r) /\
  NoDup (entries m).*1 /\
  StronglySorted lt (entries m).*1.
Proof.
  pose proof (merge_sort_Permutation keyLe (map_to_list m)) as Hperm.
  fold (entries m) in Hperm.
  assert (Hnd : NoDup (entries m).*1).
  { rewrite Hperm. apply NoDup_fst_map_to_list. }
  split; [|split; [exact Hnd|]].
  - intros k r. rewrite Hperm. apply elem_of_map_to_list.
  - apply keys_strictly_sorted; [|exact Hnd].
    exact (@StronglySorted_merge_sort _ keyLe _ keyLe_trans keyLe_total (map_to_list m)).
Qed.

(** The loop of [calculateScore], as counts and a selection. *)
Lemma score_fold (qs : list Question.t) (l : list (nat * Response)) :
  forall t : Tally,
    fold_left (scoreStep qs) l t =
    mkTally (t_attempted t + length (List.filter isAttempted l))
            (t_corrects t + length (List.filter isRight l))
            (t_incorrects t ++ omap (fun kr => qs !! kr.1) (List.filter isWrong l)).
Proof.
  induction l as [|[k r] l IH]; intros t.
  - cbn. rewrite !Nat.add_0_r, app_nil_r. destruct t; reflexivity.
  - cbn [fold_left List.filter]. rewrite IH.
    unfold scoreStep, isAttempted, isRight, isWrong. cbn [fst snd].
    destruct (selected r); cbn [andb]; [|reflexivity].
    destruct (markedCorrect r); cbn [negb length].
    + cbn [t_attempted t_corrects t_incorrects]. f_equal; first [lia|reflexivity].
    + cbn [omap list_omap fst].
      destruct (qs !! k) as [orig|]; cbn [t_attempted t_corrects t_incorrects];
        (f_equal; first [lia|rewrite <- ?app_assoc; reflexivity]).
Qed.

(** The parts of the score that are counts and selections. *)
Lemma calculateScore_tally (s : AppState) :
  let sc := calculateScore s in
  let es := entries (userResponses s) in
  attempted sc = length (List.filter isAttempted es) /\
  finalScore sc = length (List.filter isRight es) /\
  incorrects sc = omap (fun kr => currentQuestions s !! kr.1) (List.filter isWrong es) /\
  total sc = length (currentQuestions s) /\
  unanswered sc = (Z.of_nat (total sc) - Z.of_nat (attempted sc))%Z /\
  accuracy sc = percent (finalScore sc) (attempted sc) /\
  (attempted sc = 0 -> accuracy sc = 0%Z).
Proof.
  cbn zeta. unfold calculateScore. rewrite score_fold.
  cbn [attempted finalScore incorrects total unanswered accuracy
       t_attempted t_corrects t_incorrects Nat.add app].
  repeat split.
  intros ->. reflexivity.
Qed.

Lemma filter_keys_sorted (p : nat * Response -> bool) (l : list (nat * Response)) :
  StronglySorted lt l.*1 -> StronglySorted lt (List.filter p l).*1.
Proof.
  induction l as [|x l IH]; intros Hs; [constructor|].
  cbn in Hs. apply StronglySorted_inv in Hs as [Hl Hall].
  cbn [List.filter]. destruct (p x); [|apply IH; assumption].
  cbn. constructor; [apply IH; assumption|].
  rewrite Forall_forall in Hall |- *. intros k Hk. apply Hall.
  apply list_elem_of_fmap in Hk as (y & -> & Hy).
  apply list_elem_of_fmap. exists y. split; [reflexivity|].
  apply list_elem_of_In in Hy. apply filter_In in Hy as [Hy _].
  apply list_elem_of_In. assumption.
Qed.

Lemma omap_keys (qs : list Question.t) (l : list (nat * Response)) :
  omap (fun kr => qs !! kr.1) l = omap (fun k => qs !! k) l.*1.
Proof.
  induction l as [|x l IH]; [reflexivity|]. cbn. rewrite IH. reflexivity.
Qed.

(** The parts of the score that hold as stated: the counts, the list of
    the questions answered wrongly by ascending index, the number left
    unanswered, the accuracy 0 when nothing was attempted, and the score
    of the example (ten questions, six answered, four rightly). *)
Theorem calculateScore_counts :
  (forall s : AppState,
     let sc := calculateScore s in
     let es := entries (userResponses s) in
     (forall k r, (k, r) ∈ es <-> userResponses s !! k = Some r) /\
     NoDup es.*1 /\
     attempted sc = length (List.filter isAttempted es) /\
     finalScore sc = length (List.filter isRight es) /\
     (exists ks,
        StronglySorted lt ks /\
        (forall k, k ∈ ks <->
           exists r, userResponses s !! k = Some r /\ isWrong (k, r) = true) /\
        incorrects sc = omap (fun k => currentQuestions s !! k) ks) /\
     total sc = length (currentQuestions s) /\
     unanswered sc = (Z.of_nat (total sc) - Z.of_nat (attempted sc))%Z /\
     (attempted sc = 0 -> accuracy sc = 0%Z)) /\
  (let sc := calculateScore Sample.sixOfTen in
   total sc = 10 /\ attempted sc = 6 /\ finalScore sc = 4 /\
   unanswered sc = 4%Z /\ accuracy sc = 67%Z /\ length (incorrects sc) = 2).
Proof.
  split; [|vm_compute; repeat split].
  intros s. cbn zeta.
  destruct (entries_spec (userResponses s)) as (Hin & Hnd & Hsorted).
  destruct (calculateScore_tally s) as (Ha & Hc & Hi & Ht & Hu & _ & Hz).
  split; [exact Hin|]. split; [exact Hnd|]. split; [exact Ha|]. split; [exact Hc|].
  split; [|auto].
  exists (List.filter isWrong (entries (userResponses s))).*1.
  split; [apply filter_keys_sorted; exact Hsorted|]. split.
  - intros k. rewrite list_elem_of_fmap. split.
    + intros ([k' r] & -> & Hkr). apply list_elem_of_In in Hkr.
      apply filter_In in Hkr as [Hkr Hw]. apply list_elem_of_In in Hkr.
      exists r. split; [apply Hin; exact Hkr|exact Hw].
    + intros (r & Hr & Hw). exists (k, r). split; [reflexivity|].
      apply list_elem_of_In. apply filter_In. split; [|exact Hw].
      apply list_elem_of_In. apply Hin. exact Hr.
  - rewrite Hi. apply omap_keys.
Qed.

(** C5, where the code departs from the specification.  After a session
    of 40 questions, all answered and 23 of them rightly, the counts are
    as specified, and the accuracy is 57: the quotient 23/40 is rounded to
    binary64 before it is multiplied by 100, the product is just below
    57.5, and [Math.round] takes it down.  The specified
    round(100 * 23 / 40) is the rounding of 57.5, which is 58. *)
Theorem accuracy_at_tie :
  let sc := calculateScore (Sample.played 40 23) in
  quizState (Sample.played 40 23) = SUMMARY /\
  total sc = 40 /\ attempted sc = 40 /\ finalScore sc = 23 /\
  length (incorrects sc) = 17 /\ unanswered sc = 0%Z /\
  accuracy sc = 57%Z /\
  roundHalfUp (100 * Z.of_nat (finalScore sc)) (Z.of_nat (attempted sc)) = 58%Z.
Proof. vm_compute. repeat split. Qed.

End Score.

(** ** Shuffling *)

Section ShuffleArray.
Import Shuffle.
Context {A : Type}.
Implicit Types (a l : list A) (pick : Picks).

Lemma insert_head_perm (x y : A) (l : list A) (j : nat) :
  l !! j = Some y -> y :: <[j := x]> l ≡ₚ x :: l.
Proof.
  revert j. induction l as [|z l IH]; intros [|j] Hj; try discriminate.
  - injection Hj as ->. cbn. apply Permutation_swap.
  - cbn in Hj. cbn. etrans; [apply Permutation_swap|].
    rewrite (IH j Hj). apply Permutation_swap.
Qed.

Lemma swap_perm (i j : nat) (a : list A) : swap i j a ≡ₚ a.
Proof.
  unfold swap. revert i j. induction a as [|z a IH]; intros i j.
  - destruct i; reflexivity.
  - destruct i as [|i], j as [|j]; cbn.
    + reflexivity.
    + destruct (a !! j) as [y|] eqn:Hj; [|reflexivity].
      apply insert_head_perm. exact Hj.
    + destruct (a !! i) as [x|] eqn:Hi; [|reflexivity].
      apply insert_head_perm. exact Hi.
    + specialize (IH i j).
      destruct (a !! i) as [x|]; [|reflexivity].
      destruct (a !! j) as [y|]; [|reflexivity].
      cbn. rewrite IH. reflexivity.
Qed.

Lemma loop_perm pick (c : nat) : forall (k : nat) a, loop pick k c a ≡ₚ a.
Proof.
  induction c as [|c IH]; intros k a; cbn [loop]; [reflexivity|].
  rewrite IH. apply swap_perm.
Qed.

(** The passes from [currentIndex = c] on touch the first [c] elements
    only. *)
Lemma swap_app (i j : nat) (p s : list A) :
  i < length p -> j < length p -> swap i j (p ++ s) = swap i j p ++ s.
Proof.
  intros Hi Hj. unfold swap.
  rewrite !lookup_app_l by assumption.
  destruct (p !! i) as [x|]; [|reflexivity].
  destruct (p !! j) as [y|]; [|reflexivity].
  rewrite insert_app_l by assumption.
  rewrite insert_app_l by (rewrite length_insert; assumption).
  reflexivity.
Qed.

Lemma swap_length (i j : nat) (a : list A) : length (swap i j a) = length a.
Proof. apply Permutation_length, swap_perm. Qed.

Lemma loop_app pick (c : nat) :
  forall (k : nat) (p s : list A),
    c <= length p -> loop pick k c (p ++ s) = loop pick k c p ++ s.
Proof.
  induction c as [|c IH]; intros k p s Hc; cbn [loop]; [reflexivity|].
  pose proof (fin_to_nat_lt (pick k c)) as Hlt.
  rewrite swap_app by lia.
  apply IH. rewrite swap_length. lia.
Qed.

(** Only the indices drawn for smaller values of [currentIndex] matter. *)
Lemma loop_ext pick pick' (c : nat) :
  (forall k n, n < c -> pick k n = pick' k n) ->
  forall (k : nat) a, loop pick k c a = loop pick' k c a.
Proof.
  induction c as [|c IH]; intros Hp k a; cbn [loop]; [reflexivity|].
  rewrite (Hp k c) by lia. apply IH. intros k' n Hn. apply Hp. lia.
Qed.

(** The last element after a swap with index [j] is the element that was
    at [j]. *)
Lemma swap_last (c j : nat) (a : list A) (z : A) :
  length a = S c -> a !! j = Some z ->
  exists p, swap c j a = p ++ [z] /\ length p = c.
Proof.
  intros Hlen Hj.
  assert (Hc : c < length a) by lia.
  destruct (lookup_lt_is_Some_2 a c Hc) as [x Hx].
  assert (Hs : swap c j a !! c = Some z).
  { unfold swap. rewrite Hx, Hj.
    destruct (decide (j = c)) as [->|Hne].
    - rewrite list_lookup_insert_eq by (rewrite length_insert; lia).
      congruence.
    - rewrite list_lookup_insert_ne by assumption.
      rewrite list_lookup_insert_eq by lia. reflexivity. }
  exists (take c (swap c j a)). split.
  - rewrite <- (take_drop_middle _ _ _ Hs) at 1.
    f_equal. f_equal. apply nil_length_inv. rewrite length_drop, swap_length. lia.
  - rewrite length_take, swap_length. lia.
Qed.

Lemma pickAt_here (c : nat) (j : fin (S c)) pick (k : nat) :
  fin_to_nat (pickAt c j pick k c) = fin_to_nat j.
Proof.
  unfold pickAt. destruct (decide (c = c)) as [e|Hne]; [|congruence].
  assert (He : e = eq_refl) by apply (proof_irrel _ _). rewrite He. reflexivity.
Qed.

Lemma pickAt_below (c : nat) (j : fin (S c)) pick (k n : nat) :
  n < c -> pickAt c j pick k n = pick k n.
Proof.
  intros Hn. unfold pickAt. destruct (decide (c = n)) as [e|Hne]; [lia|reflexivity].
Qed.

Lemma loop_complete (l : list A) :
  forall (k : nat) a, l ≡ₚ a -> exists pick, loop pick k (length a) a = l.
Proof.
  induction l as [|z l IH] using rev_ind; intros k a Hperm.
  - apply Permutation_nil_l in Hperm. subst a.
    exists (fun _ _ => 0%fin). reflexivity.
  - assert (Hlen : length a = S (length l)).
    { rewrite <- (Permutation_length Hperm), length_app. cbn. lia. }
    assert (Hz : z ∈ a).
    { rewrite <- Hperm. set_solver. }
    apply list_elem_of_lookup in Hz as [j Hj].
    assert (Hjlt : j < S (length l)).
    { rewrite <- Hlen. apply lookup_lt_Some in Hj. exact Hj. }
    destruct (swap_last (length l) j a z Hlen Hj) as (p & Hp & Hplen).
    assert (Hlp : l ≡ₚ p).
    { apply (Permutation_app_inv_r [z]).
      rewrite <- Hp, swap_perm. exact Hperm. }
    destruct (IH (S k) p Hlp) as [pick' Hpick'].
    exists (pickAt (length l) (nat_to_fin Hjlt) pick').
    rewrite Hlen. cbn [loop].
    rewrite pickAt_here, fin_to_nat_to_fin, Hp.
    rewrite loop_app by lia.
    rewrite (loop_ext _ pick') by (intros; apply pickAt_below; assumption).
    rewrite <- Hplen, Hpick'. reflexivity.
Qed.

(** [shuffleArray] rearranges: whatever the random draws are, the result
    holds the elements of the array, each as many times as the array
    does, and has its length; the empty array and an array of one
    element come back as they are. *)
Theorem shuffleArray_permutation (pick : Picks) (array : list A) :
  shuffleArray pick array ≡ₚ array /\
  length (shuffleArray pick array) = length array /\
  (forall x, x ∈ shuffleArray pick array <-> x ∈ array) /\
  (length array <= 1 -> shuffleArray pick array = array).
Proof.
  pose proof (loop_perm pick (length array) 0 array) as Hperm.
  fold (shuffleArray pick array) in Hperm.
  split; [exact Hperm|]. split; [apply Permutation_length, Hperm|].
  split; [intros x; rewrite Hperm; reflexivity|].
  intros Hlen. destruct array as [|x [|y array]]; cbn in Hlen; try lia.
  - reflexivity.
  - apply Permutation_length_1_inv. symmetry. exact Hperm.
Qed.

(** Every rearrangement of the array is the result of [shuffleArray] for
    some sequence of random draws. *)
Theorem shuffleArray_reaches_every_order (array l : list A) :
  l ≡ₚ array <-> exists pick : Picks, shuffleArray pick array = l.
Proof.
  split.
  - intros Hperm. apply (loop_complete l 0 array Hperm).
  - intros [pick <-]. apply loop_perm.
Qed.

End ShuffleArray.

(** ** Header cells *)

Section Headers.
Import JS Regex CSV Text.


















End Headers.

(** ** The records of an import *)

Section Records.
Import JS Regex CSV Spec Row Text.

Lemma lineRecords_valid (rh : list string) (line : string) :
  Forall (fun x => Valid.record x = true) (lineRecords rh (map mapHeader rh) line).
Proof.
  unfold lineRecords, processLine.
  destruct (negb (truthy (trim line))); [constructor|].
  destruct (length (parseLine line) =? length rh) eqn:Hlen; cbn [negb]; [|constructor].
  apply Nat.eqb_eq in Hlen.
  destruct (accepted (assemble (map mapHeader rh) (parseLine line))) eqn:Hacc;
    [|constructor].
  cbn [questions app]. constructor; [|constructor].
  rewrite assemble_walk in * by (rewrite length_map; congruence).
  pose proof (walk_fields (map mapHeader rh) (parseLine line) rowInit) as H.
  cbv zeta in H. destruct H as (Hq & Hc & _ & _ & Hi & _ & Hh).
  set (r := walk (map mapHeader rh) (parseLine line) rowInit) in *.
  unfold accepted in Hacc.
  apply andb_prop in Hacc as [Hacc Hcorrect]. apply andb_prop in Hacc as [Hhas Hopts].
  rewrite Hh in Hhas. cbn [hasQuestionText rowInit orb] in Hhas.
  apply bool_decide_eq_true in Hhas.
  unfold Valid.record, Question.set_options. cbn.
  rewrite Hq, Hi. cbn [rowInit question Question.empty Question.q Question.id].
  destruct (columnValues (isKey "q") (map mapHeader rh) (parseLine line)) as [|v vs] eqn:Hqs;
    [congruence|].
  destruct (last (v :: vs)) eqn:Hlast.
  2:{ apply last_None in Hlast. discriminate. }
  cbn [orElse].
  destruct (Question.correct (question r)) as [c|]; [|discriminate].
  cbn [truthyOpt] in Hcorrect. rewrite Hcorrect.
  change (match length (options r) with S (S _) => true | _ => false end)
    with (2 <=? length (options r)).
  rewrite Hopts. reflexivity.
Qed.

(** The pattern of the line break, position by position. *)
Lemma exec_newline (c : ascii) (s : string) :
  exec reNewline (String c s) =
  if ascii_eqb c LF then Some s
  else if ascii_eqb c CR
       then match s with
            | String d s' => if ascii_eqb d LF then Some s' else None
            | EmptyString => None
            end
       else None.
Proof.
  unfold exec, reNewline, Opt, Chr. rewrite run_cat, run_alt, !run_cls.
  cbn [run].
  destruct (ascii_eqb c LF) eqn:Hlf.
  - apply ascii_eqb_true in Hlf. subst c. reflexivity.
  - assert (Hlf' : ascii_eqb LF c = false).
    { destruct (ascii_eqb LF c) eqn:H; [|reflexivity].
      apply ascii_eqb_true in H. subst c. rewrite ascii_eqb_refl in Hlf. discriminate. }
    rewrite Hlf'.
    destruct (ascii_eqb c CR) eqn:Hcr.
    + apply ascii_eqb_true in Hcr. subst c. rewrite ascii_eqb_refl.
      destruct s as [|d s']; [reflexivity|].
      unfold ascii_eqb. rewrite (Ascii.eqb_sym LF d).
      destruct (Ascii.eqb d LF); reflexivity.
    + assert (Hcr' : ascii_eqb CR c = false).
      { destruct (ascii_eqb CR c) eqn:H; [|reflexivity].
        apply ascii_eqb_true in H. subst c. rewrite ascii_eqb_refl in Hcr. discriminate. }
      rewrite Hcr'. reflexivity.
Qed.

Lemma noChar_eqb (c a : ascii) (s : string) :
  noChar c (String a s) = true -> ascii_eqb a c = false /\ noChar c s = true.
Proof.
  cbn [noChar]. intros H. apply andb_prop in H as [H1 H2]. split; [|exact H2].
  unfold ascii_eqb in *. rewrite Ascii.eqb_sym. apply negb_true_iff. exact H1.
Qed.

(** A text without a line feed is one line. *)
Lemma split_from_one_line (l : string) :
  forall (fuel : nat) (piece : string),
    noChar LF l = true -> split_from reNewline fuel piece l = [piece +:+ l].
Proof.
  induction l as [|c l IH]; intros fuel piece Hl.
  - destruct fuel; cbn [split_from]; [reflexivity|]. rewrite append_nil_r. reflexivity.
  - destruct fuel; [reflexivity|].
    destruct (noChar_eqb _ _ _ Hl) as [Hc Hl'].
    cbn [split_from]. rewrite exec_newline, Hc.
    assert (Hnone : (if ascii_eqb c CR
                     then match l with
                          | String d s' => if ascii_eqb d LF then Some s' else None
                          | EmptyString => None
                          end
                     else None) = None).
    { destruct (ascii_eqb c CR); [|reflexivity].
      destruct l as [|d l']; [reflexivity|].
      destruct (noChar_eqb _ _ _ Hl') as [Hd _]. rewrite Hd. reflexivity. }
    rewrite Hnone, IH by assumption.
    rewrite string_append_assoc. reflexivity.
Qed.

Lemma split_one_line (s : string) :
  noChar LF s = true -> Regex.split reNewline s = [s].
Proof.
  intros H. destruct s as [|c s]; [reflexivity|].
  unfold Regex.split. rewrite split_from_one_line by assumption. reflexivity.
Qed.

(** A line without line feed and carriage return is scanned to its end,
    whatever follows it. *)
Lemma split_from_line (l : string) :
  forall (fuel : nat) (piece rest : string),
    plainLine l = true -> String.length (l +:+ rest) <= fuel ->
    split_from reNewline fuel piece (l +:+ rest)
    = split_from reNewline (fuel - String.length l) (piece +:+ l) rest.
Proof.
  induction l as [|c l IH]; intros fuel piece rest Hl Hfuel.
  - rewrite append_nil, append_nil_r. cbn. rewrite Nat.sub_0_r. reflexivity.
  - unfold plainLine in Hl. apply andb_prop in Hl as [Hlf Hcr].
    destruct (noChar_eqb _ _ _ Hlf) as [Hc1 Hlf'].
    destruct (noChar_eqb _ _ _ Hcr) as [Hc2 Hcr'].
    rewrite append_cons in *. cbn [String.length] in *.
    destruct fuel as [|fuel]; [lia|].
    cbn [split_from]. rewrite exec_newline, Hc1, Hc2.
    rewrite IH; [|unfold plainLine; rewrite Hlf', Hcr'; reflexivity|lia].
    rewrite string_append_assoc. reflexivity.
Qed.

Lemma concat_cons2 (sep x y : string) (l : list string) :
  String.concat sep (x :: y :: l) = x +:+ sep +:+ String.concat sep (y :: l).
Proof. reflexivity. Qed.

Lemma split_from_lines (sep : string) (lines : list string) :
  sep = LFs \/ sep = CRLF ->
  forallb plainLine lines = true ->
  forall (line : string) (fuel : nat) (piece : string),
    plainLine line = true ->
    String.length (String.concat sep (line :: lines)) <= fuel ->
    split_from reNewline fuel piece (String.concat sep (line :: lines))
    = (piece +:+ line) :: lines.
Proof.
  intros Hsep. induction lines as [|next lines IH]; intros Hall line fuel piece Hline Hfuel.
  - cbn [String.concat]. apply split_from_one_line.
    unfold plainLine in Hline. apply andb_prop in Hline as [H _]. exact H.
  - cbn [forallb] in Hall. apply andb_prop in Hall as [Hnext Hall].
    rewrite concat_cons2 in *.
    rewrite split_from_line by assumption.
    rewrite !string_length_append in Hfuel.
    set (tail := String.concat sep (next :: lines)) in *.
    assert (Hstep : forall f, String.length sep + String.length tail <= f ->
              split_from reNewline f (piece +:+ line) (sep +:+ tail)
              = (piece +:+ line) :: split_from reNewline (String.length tail) "" tail).
    { intros f Hf. destruct Hsep as [-> | ->].
      - unfold LFs in *. rewrite append_cons, append_nil in *. cbn [String.length] in Hf.
        destruct f as [|f]; [lia|].
        cbn [split_from]. rewrite exec_newline, ascii_eqb_refl.
        assert (Hlt : (String.length tail <? String.length (String LF tail)) = true)
          by (apply Nat.ltb_lt; cbn; lia).
        rewrite Hlt. f_equal. apply split_from_fuel; lia.
      - unfold CRLF in *. rewrite !append_cons, append_nil in *. cbn [String.length] in Hf.
        destruct f as [|f]; [lia|].
        cbn [split_from]. rewrite exec_newline, ascii_eqb_refl.
        change (ascii_eqb CR LF) with false. cbv iota. rewrite ascii_eqb_refl.
        assert (Hlt : (String.length tail <? String.length (String CR (String LF tail))) = true)
          by (apply Nat.ltb_lt; cbn; lia).
        rewrite Hlt. f_equal. apply split_from_fuel; lia. }
    rewrite Hstep by lia. f_equal.
    unfold tail. rewrite IH by (assumption || lia). rewrite append_nil. reflexivity.
Qed.

(** The records that [parseCSV] returns are complete: each has a
    question text, two options or more, a correct answer that is not
    empty, and no id.  A text that is empty, blank, or without a line
    feed after trimming (a header alone, or a file whose lines end in
    carriage returns only) gives no record. *)
Theorem parseCSV_records_complete :
  (forall csvText : string,
     Forall (fun x => Valid.record x = true) (parseCSV csvText)) /\
  (forall (csvText : string) (x : Question.t),
     x ∈ parseCSV csvText ->
     exists (text correct : string) (options : list string),
       Question.q x = Some text /\ Question.options x = Some options /\
       2 <= length options /\ Question.correct x = Some correct /\ correct <> "" /\
       Question.id x = None) /\
  parseCSV "" = [] /\
  (forall csvText : string, trim csvText = "" -> parseCSV csvText = []) /\
  (forall csvText : string, noChar LF (trim csvText) = true -> parseCSV csvText = []).
Proof.
  assert (Hvalid : forall csvText, Forall (fun x => Valid.record x = true) (parseCSV csvText)).
  { intros csvText. unfold parseCSV, parseCSV_log.
    destruct (negb (truthy csvText)); [constructor|].
    destruct (Regex.split reNewline (trim csvText)) as [|header rows]; [constructor|].
    rewrite processLines_questions. cbn [questions app].
    apply Forall_flat_map, Forall_forall. intros line _. apply lineRecords_valid. }
  assert (Hone : forall csvText, noChar LF (trim csvText) = true -> parseCSV csvText = []).
  { intros csvText H. unfold parseCSV, parseCSV_log.
    destruct (negb (truthy csvText)); [reflexivity|].
    rewrite (split_one_line _ H). reflexivity. }
  split; [exact Hvalid|]. split; [|split; [reflexivity|split; [|exact Hone]]].
  - intros csvText x Hx.
    pose proof (proj1 (Forall_forall _ _) (Hvalid csvText) x) as H.
    specialize (H Hx). cbv beta in H.
    unfold Valid.record in H.
    destruct (Question.q x) as [text|]; [|discriminate].
    destruct (Question.options x) as [os|]; [|discriminate].
    destruct (Question.correct x) as [c|]; [|discriminate].
    destruct (Question.id x); [discriminate|].
    apply andb_prop in H as [Hos Hc]. apply Nat.leb_le in Hos.
    exists text, c, os. repeat split; try assumption.
    intros ->. discriminate.
  - intros csvText H. apply Hone. rewrite H. reflexivity.
Qed.

(** Lines that hold neither a line feed nor a carriage return, joined by
    line feeds or by carriage return and line feed, are split into
    themselves by [split(/\r?\n/)]. *)
Theorem lines_split_back (lines : list string)
    (Hsome : lines <> [])
    (Hplain : forallb plainLine lines = true) :
  Regex.split reNewline (String.concat LFs lines) = lines /\
  Regex.split reNewline (String.concat CRLF lines) = lines.
Proof.
  destruct lines as [|line lines]; [congruence|].
  cbn [forallb] in Hplain. apply andb_prop in Hplain as [Hline Hall].
  assert (H : forall sep, sep = LFs \/ sep = CRLF ->
            Regex.split reNewline (String.concat sep (line :: lines)) = line :: lines).
  { intros sep Hsep. unfold Regex.split.
    destruct (String.concat sep (line :: lines)) as [|c s] eqn:Hs.
    - destruct lines as [|next lines].
      + cbn in Hs. subst line. reflexivity.
      + rewrite concat_cons2 in Hs.
        apply (f_equal String.length) in Hs. rewrite !string_length_append in Hs.
        destruct Hsep as [-> | ->]; cbn in Hs; lia.
    - rewrite <- Hs.
      rewrite (split_from_lines sep lines Hsep Hall line _ "" Hline) by lia.
      rewrite append_nil. reflexivity. }
  split; apply H; [left|right]; reflexivity.
Qed.

Lemma lines_split_back_witness :
  Regex.split reNewline (String.concat LFs ["q,a,b,correct"; "1+1?,2,3,A"; ""; "2+2?,3,4,B"])
  = ["q,a,b,correct"; "1+1?,2,3,A"; ""; "2+2?,3,4,B"] /\
  Regex.split reNewline (String.concat CRLF ["q,a,b,correct"; "1+1?,2,3,A"; ""; "2+2?,3,4,B"])
  = ["q,a,b,correct"; "1+1?,2,3,A"; ""; "2+2?,3,4,B"].
Proof.
  apply (lines_split_back ["q,a,b,correct"; "1+1?,2,3,A"; ""; "2+2?,3,4,B"]).
  - discriminate.
  - vm_compute. reflexivity.
Defined.

End Records.

(** ** Rows without quoted fields *)

Section PlainRows.
Import JS Regex CSV Spec Row Text.

Lemma split_not_nil (sep : ascii) (s : string) : JS.split sep s <> [].
Proof.
  induction s as [|c s IH]; cbn [JS.split]; [discriminate|].
  destruct (ascii_eqb c sep); [discriminate|].
  destruct (JS.split sep s); [congruence|discriminate].
Qed.

Lemma concat_split (s : string) : String.concat "," (JS.split comma s) = s.
Proof.
  induction s as [|c s IH]; [reflexivity|].
  cbn [JS.split]. pose proof (split_not_nil comma s) as Hne.
  destruct (ascii_eqb c comma) eqn:Hc.
  - apply ascii_eqb_true in Hc. subst c.
    destruct (JS.split comma s) as [|p ps]; [congruence|].
    rewrite concat_cons2, IH. reflexivity.
  - destruct (JS.split comma s) as [|p ps]; [congruence|].
    destruct ps as [|p' ps].
    + cbn [String.concat] in *. rewrite IH. reflexivity.
    + rewrite concat_cons2 in *. rewrite append_cons, IH. reflexivity.
Qed.

Lemma split_cells_no_comma (s : string) :
  Forall (fun cell => noChar comma cell = true) (JS.split comma s).
Proof.
  induction s as [|c s IH]; cbn [JS.split]; [repeat constructor|].
  destruct (ascii_eqb c comma) eqn:Hc.
  - constructor; [reflexivity|exact IH].
  - destruct (JS.split comma s) as [|p ps]; [repeat constructor|].
    + cbn. unfold ascii_eqb in *. rewrite Ascii.eqb_sym, Hc. reflexivity.
    + inversion IH as [|? ? Hp Hps]; subst. constructor; [|exact Hps].
      cbn [noChar]. unfold ascii_eqb in *. rewrite Ascii.eqb_sym, Hc. exact Hp.
Qed.

Lemma tokens_of_cells (cells : list string) :
  map fieldValue (tokenFields (map Bare cells)) = map trim (List.filter truthy cells).
Proof.
  induction cells as [|c cells IH]; [reflexivity|].
  cbn [map]. unfold tokenFields in *. cbn [List.filter].
  destruct c as [|a c]; cbn [isEmptyBare negb truthy]; [exact IH|].
  cbn [map fieldValue]. rewrite IH. reflexivity.
Qed.

Lemma cells_wellFormed (cells : list string) :
  Forall (fun cell => noChar comma cell = true) cells ->
  forallb bareCell cells = true ->
  forallb wellFormed (map Bare cells) = true.
Proof.
  induction 1 as [|c cells Hc _ IH]; [reflexivity|].
  cbn [forallb map]. intros H. apply andb_prop in H as [Hb Hrest].
  rewrite (IH Hrest). cbn [wellFormed]. rewrite Hc. unfold bareCell in Hb.
  rewrite Hb. reflexivity.
Qed.

Lemma filter_all_length {X} (p : X -> bool) (l : list X) :
  length (List.filter p l) = length l <-> forallb p l = true.
Proof.
  induction l as [|x l IH]; [cbn; tauto|].
  cbn [List.filter forallb]. pose proof (filter_length_le p l) as Hle.
  destruct (p x); cbn [length andb].
  - rewrite <- IH. lia.
  - split; [lia|discriminate].
Qed.

(** A row none of whose cells starts with a quote: its tokens are its
    cells, as [split(",")] cuts them, without the empty ones and trimmed.
    The row has the number of tokens that the column check asks for
    exactly when it has as many cells as the header and none is empty. *)
Theorem parseLine_plain_cells (line : string)
    (Hbare : forallb bareCell (JS.split comma line) = true) :
  String.concat "," (JS.split comma line) = line /\
  parseLine line = map trim (List.filter truthy (JS.split comma line)) /\
  (length (parseLine line) = length (JS.split comma line) <->
   forallb truthy (JS.split comma line) = true) /\
  (forall header : string,
     length (JS.split comma line) = length (JS.split comma header) ->
     (mismatch (JS.split comma header) line = false <->
      forallb truthy (JS.split comma line) = true)).
Proof.
  pose proof (concat_split line) as Hcat.
  assert (Hparse : parseLine line = map trim (List.filter truthy (JS.split comma line))).
  { rewrite <- Hcat at 1.
    replace (String.concat "," (JS.split comma line))
      with (joinFields (map Bare (JS.split comma line))).
    2:{ unfold joinFields. rewrite map_map. cbn [render]. rewrite map_id. reflexivity. }
    rewrite parseLine_fields; [apply tokens_of_cells|].
    apply cells_wellFormed; [apply split_cells_no_comma|exact Hbare]. }
  assert (Hlen : length (parseLine line) = length (JS.split comma line) <->
                 forallb truthy (JS.split comma line) = true).
  { rewrite Hparse, length_map. apply filter_all_length. }
  split; [exact Hcat|]. split; [exact Hparse|]. split; [exact Hlen|].
  intros header Hh. unfold mismatch. rewrite <- Hh, <- Hlen.
  rewrite negb_false_iff. apply Nat.eqb_eq.
Qed.

Lemma parseLine_plain_cells_witness :
  parseLine "1+1?, 2 ,,A" = ["1+1?"; "2"; "A"] /\
  length (parseLine "1+1?, 2 ,,A") <> length (JS.split comma "1+1?, 2 ,,A").
Proof.
  destruct (parseLine_plain_cells "1+1?, 2 ,,A") as (_ & Hp & Hl & _).
  - vm_compute. reflexivity.
  - split.
    + rewrite Hp. vm_compute. reflexivity.
    + intros H. apply Hl in H. vm_compute in H. discriminate.
Defined.

End PlainRows.

(** ** The topic list: selection, deletion, random practice *)

Section TopicList.
Import JS App Topics Ui.

Lemma run_state (acts : list action) (s : AppState) :
  run (map state acts) s = dispatch acts s.
Proof.
  revert s. induction acts as [|a acts IH]; intros s; [reflexivity|].
  cbn [map run fold_left]. apply IH.
Qed.

Lemma includesId_spec (id : string) (ids : list string) :
  includesId id ids = true <-> id ∈ ids.
Proof.
  unfold includesId. induction ids as [|x ids IH]; cbn [existsb].
  - split; [discriminate|]. intros H. inversion H.
  - rewrite orb_true_iff, IH, elem_of_cons, String.eqb_eq. split; intros [H|H]; auto.
Qed.

Lemma includesId_false (id : string) (ids : list string) :
  includesId id ids = false <-> id ∉ ids.
Proof.
  rewrite <- includesId_spec. destruct (includesId id ids); split; congruence.
Qed.

Lemma withoutId_spec (id x : string) (ids : list string) :
  x ∈ withoutId id ids <-> x ∈ ids /\ x <> id.
Proof.
  unfold withoutId. induction ids as [|y ids IH]; cbn [List.filter].
  - split; [intros H; inversion H|intros [H _]; inversion H].
  - destruct (String.eqb_spec y id) as [->|Hne]; cbn [negb].
    + rewrite IH, elem_of_cons. split; [tauto|]. intros [[->|H] Hx]; [congruence|tauto].
    + rewrite !elem_of_cons, IH. split; [|tauto].
      intros [->|[H Hx]]; [split; [left; reflexivity|exact Hne]|tauto].
Qed.

Lemma withoutId_absent (id : string) (ids : list string) :
  id ∉ ids -> withoutId id ids = ids.
Proof.
  unfold withoutId. induction ids as [|y ids IH]; intros H; [reflexivity|].
  apply not_elem_of_cons in H as [Hne Hids]. cbn [List.filter].
  destruct (String.eqb_spec y id) as [->|_]; [congruence|].
  cbn [negb]. rewrite IH by assumption. reflexivity.
Qed.

Lemma withoutId_app (id : string) (a b : list string) :
  withoutId id (a ++ b) = withoutId id a ++ withoutId id b.
Proof. apply List.filter_app. Qed.

Lemma withoutId_NoDup (id : string) (ids : list string) :
  NoDup ids -> NoDup (withoutId id ids).
Proof.
  unfold withoutId. induction 1 as [|y ids Hy Hnd IH]; cbn [List.filter]; [constructor|].
  destruct (negb (String.eqb y id)); [|exact IH].
  constructor; [|exact IH]. intros H. apply withoutId_spec in H as [H _]. contradiction.
Qed.

Lemma withoutId_sublist (id : string) (ids : list string) :
  sublist (withoutId id ids) ids.
Proof.
  unfold withoutId. induction ids as [|y ids IH]; cbn [List.filter]; [constructor|].
  destruct (negb (String.eqb y id)); [apply sublist_skip|apply sublist_cons]; exact IH.
Qed.

Lemma toggled_NoDup (id : string) (ids : list string) :
  NoDup ids -> NoDup (toggled id ids).
Proof.
  intros Hnd. unfold toggled. destruct (includesId id ids) eqn:Hin.
  - apply withoutId_NoDup. exact Hnd.
  - apply includesId_false in Hin. apply NoDup_app. split; [exact Hnd|].
    split; [|apply NoDup_singleton].
    intros x Hx Hx'. apply list_elem_of_singleton in Hx'. subst x. contradiction.
Qed.

Lemma toggled_elem (id x : string) (ids : list string) :
  x ∈ toggled id ids <-> (x <> id /\ x ∈ ids) \/ (x = id /\ id ∉ ids).
Proof.
  unfold toggled. destruct (includesId id ids) eqn:Hin.
  - apply includesId_spec in Hin. rewrite withoutId_spec. split.
    + intros [H Hx]. left. tauto.
    + intros [[Hx H]|[-> H]]; [tauto|contradiction].
  - apply includesId_false in Hin. rewrite elem_of_app, list_elem_of_singleton. split.
    + intros [H| ->]; [|right; tauto].
      left. split; [|exact H]. intros ->. contradiction.
    + intros [[Hx H]|[-> H]]; [left; exact H|right; reflexivity].
Qed.

(** The checkbox of a row of the topic list toggles the id of its topic
    in the selection, and nothing else changes.  An id that was not
    selected is put last; for an id that was selected every occurrence
    is removed; the other ids stay, in their order.  A selection without
    repetition stays so, and ticking a box that was not ticked and then
    unticking it gives the selection back. *)
Theorem checkbox_toggles_selection (clock : nat -> N) (pick : Shuffle.Picks)
    (row : nat) (t : Topic) (s : AppState)
    (Hload : loading s = false)
    (Hscreen : quizState s = TOPIC_SELECT)
    (Hrow : topics s !! row = Some t) :
  let id := topic_id t in
  let s' := step (mkInput clock pick (PressCheckbox row)) s in
  s' = mkState (loading s) (topics s) (quizState s) (csvContent s) (fileName s)
         (newTopicName s) (currentQuestions s) (currentQuestionIndex s)
         (userResponses s) (isDrawerOpen s) (message s)
         (toggled id (selectedTopicIds s)) (openMenuId s) /\
  (id ∉ selectedTopicIds s -> selectedTopicIds s' = selectedTopicIds s ++ [id]) /\
  (id ∈ selectedTopicIds s -> selectedTopicIds s' = withoutId id (selectedTopicIds s)) /\
  (id ∈ selectedTopicIds s' <-> id ∉ selectedTopicIds s) /\
  (forall other, other <> id ->
     (other ∈ selectedTopicIds s' <-> other ∈ selectedTopicIds s)) /\
  (NoDup (selectedTopicIds s) -> NoDup (selectedTopicIds s')) /\
  (id ∉ selectedTopicIds s ->
   step (mkInput clock pick (PressCheckbox row)) s' = s).
Proof.
  intros id s'.
  assert (Hstep : forall u, loading u = false -> quizState u = TOPIC_SELECT ->
            topics u !! row = Some t ->
            step (mkInput clock pick (PressCheckbox row)) u
            = mkState (loading u) (topics u) (quizState u) (csvContent u) (fileName u)
                (newTopicName u) (currentQuestions u) (currentQuestionIndex u)
                (userResponses u) (isDrawerOpen u) (message u)
                (toggled id (selectedTopicIds u)) (openMenuId u)).
  { intros u Hl Hq Hr. unfold step, handle, onTopicScreen. cbn [operated Ui.clock Ui.pick].
    open_state u. subst. rewrite Hr. reflexivity. }
  assert (Hs' : s' = mkState (loading s) (topics s) (quizState s) (csvContent s) (fileName s)
         (newTopicName s) (currentQuestions s) (currentQuestionIndex s)
         (userResponses s) (isDrawerOpen s) (message s)
         (toggled id (selectedTopicIds s)) (openMenuId s))
    by (apply Hstep; assumption).
  assert (Hsel : selectedTopicIds s' = toggled id (selectedTopicIds s))
    by (rewrite Hs'; reflexivity).
  split; [exact Hs'|]. rewrite Hsel.
  split; [|split; [|split; [|split; [|split]]]].
  - intros H. apply includesId_false in H. unfold toggled. rewrite H. reflexivity.
  - intros H. apply includesId_spec in H. unfold toggled. rewrite H. reflexivity.
  - rewrite toggled_elem. split; [intros [[H _]|[_ H]]; [congruence|exact H]|].
    intros H. right. split; [reflexivity|exact H].
  - intros other Hne. rewrite toggled_elem. split; [|intros H; left; tauto].
    intros [[_ H]|[H _]]; [exact H|congruence].
  - apply toggled_NoDup.
  - intros Hnot. rewrite Hstep; [|rewrite Hs'; assumption..].
    rewrite Hs'. cbn.
    assert (Hback : toggled id (toggled id (selectedTopicIds s)) = selectedTopicIds s).
    { unfold toggled at 2. rewrite (proj2 (includesId_false _ _) Hnot).
      unfold toggled.
      assert (Hin : includesId id (selectedTopicIds s ++ [id]) = true)
        by (apply includesId_spec; set_solver).
      rewrite Hin, withoutId_app, withoutId_absent by assumption.
      unfold withoutId. cbn [List.filter]. rewrite String.eqb_refl. cbn.
      apply app_nil_r. }
    rewrite Hback. destruct s; reflexivity.
Qed.

Lemma checkbox_toggles_selection_witness :
  selectedTopicIds
    (step (mkInput Sample.clock (fun _ _ => 0%fin) (PressCheckbox 0)) Sample.mathStore)
  = ["topic-1700000000000"] /\
  step (mkInput Sample.clock (fun _ _ => 0%fin) (PressCheckbox 0))
    (step (mkInput Sample.clock (fun _ _ => 0%fin) (PressCheckbox 0)) Sample.mathStore)
  = Sample.mathStore.
Proof.
  destruct (checkbox_toggles_selection Sample.clock (fun _ _ => 0%fin) 0
              (mkTopic "topic-1700000000000" "Math" (CSV.parseCSV Sample.csv))
              Sample.mathStore)
    as (_ & Hadd & _ & _ & _ & _ & Hback).
  - reflexivity.
  - reflexivity.
  - vm_compute. reflexivity.
  - split.
    + rewrite Hadd; [vm_compute; reflexivity|].
      vm_compute. intros H. inversion H.
    + apply Hback. vm_compute. intros H. inversion H.
Defined.

Lemma withoutTopic_spec (id : string) (x : Topic) (ts : list Topic) :
  x ∈ withoutTopic id ts <-> x ∈ ts /\ topic_id x <> id.
Proof.
  unfold withoutTopic. induction ts as [|y ts IH]; cbn [List.filter].
  - split; [intros H; inversion H|intros [H _]; inversion H].
  - destruct (String.eqb_spec (topic_id y) id) as [He|Hne]; cbn [negb].
    + rewrite IH, elem_of_cons. split; [tauto|]. intros [[->|H] Hx]; [congruence|tauto].
    + rewrite !elem_of_cons, IH. split; [|tauto].
      intros [->|[H Hx]]; [split; [left; reflexivity|exact Hne]|tauto].
Qed.

Lemma withoutTopic_sublist (id : string) (ts : list Topic) :
  sublist (withoutTopic id ts) ts.
Proof.
  unfold withoutTopic. induction ts as [|y ts IH]; cbn [List.filter]; [constructor|].
  destruct (negb (String.eqb (topic_id y) id)); [apply sublist_skip|apply sublist_cons];
    exact IH.
Qed.

Lemma withoutTopic_absent (id : string) (ts : list Topic) :
  id ∉ map topic_id ts -> withoutTopic id ts = ts.
Proof.
  unfold withoutTopic. induction ts as [|y ts IH]; intros H; [reflexivity|].
  cbn [map] in H. apply not_elem_of_cons in H as [Hne Hids]. cbn [List.filter].
  destruct (String.eqb_spec (topic_id y) id) as [He|_]; [congruence|].
  cbn [negb]. rewrite IH by assumption. reflexivity.
Qed.

Lemma withoutTopic_delete (ts : list Topic) :
  forall (row : nat) (t : Topic),
    NoDup (map topic_id ts) -> ts !! row = Some t ->
    withoutTopic (topic_id t) ts = delete row ts.
Proof.
  induction ts as [|y ts IH]; intros row t Hnd Hrow; [discriminate|].
  cbn [map] in Hnd. apply NoDup_cons in Hnd as [Hy Hnd].
  destruct row as [|row].
  - injection Hrow as ->. unfold withoutTopic. cbn [List.filter delete].
    rewrite String.eqb_refl. cbn [negb]. apply withoutTopic_absent. exact Hy.
  - cbn in Hrow. unfold withoutTopic. cbn [List.filter].
    destruct (String.eqb_spec (topic_id y) (topic_id t)) as [He|Hne]; cbn [negb].
    + exfalso. apply Hy. rewrite He. apply list_elem_of_fmap.
      exists t. split; [reflexivity|]. apply list_elem_of_lookup. eauto.
    + change (delete (S row) (y :: ts)) with (y :: delete row ts).
      f_equal. apply IH; assumption.
Qed.

Lemma withoutTopic_length (id : string) (t : Topic) (ts : list Topic) :
  t ∈ ts -> topic_id t = id -> length (withoutTopic id ts) < length ts.
Proof.
  unfold withoutTopic. induction ts as [|y ts IH]; intros Hin Hid; [inversion Hin|].
  cbn [List.filter length]. pose proof (filter_length_le (fun t => negb (String.eqb (topic_id t) id)) ts).
  apply elem_of_cons in Hin as [<-|Hin].
  - rewrite Hid, String.eqb_refl. cbn [negb]. lia.
  - specialize (IH Hin Hid). destruct (negb (String.eqb (topic_id y) id)); cbn [length]; lia.
Qed.

(** Deleting from the menu of a row, once confirmed, removes every
    topic whose id is that of the row (one topic when the ids are
    distinct) and removes the id from the selection; the other topics
    and the other selected ids stay, in their order, and the menu is
    closed.  When the alert is cancelled only the menu is closed.  The
    session is not touched. *)
Theorem delete_removes_topic (clock : nat -> N) (pick : Shuffle.Picks)
    (row : nat) (t : Topic) (s : AppState)
    (Hload : loading s = false)
    (Hscreen : quizState s = TOPIC_SELECT)
    (Hrow : topics s !! row = Some t)
    (Hmenu : openMenuId s = Some (topic_id t)) :
  let id := topic_id t in
  let kept := step (mkInput clock pick (PressDelete row Cancel)) s in
  let deleted := step (mkInput clock pick (PressDelete row Delete)) s in
  kept = mkState (loading s) (topics s) (quizState s) (csvContent s) (fileName s)
           (newTopicName s) (currentQuestions s) (currentQuestionIndex s)
           (userResponses s) (isDrawerOpen s) (message s) (selectedTopicIds s) None /\
  deleted = mkState (loading s) (withoutTopic id (topics s)) (quizState s) (csvContent s)
              (fileName s) (newTopicName s) (currentQuestions s) (currentQuestionIndex s)
              (userResponses s) (isDrawerOpen s) (message s)
              (withoutId id (selectedTopicIds s)) None /\
  (forall t', t' ∈ topics deleted <-> t' ∈ topics s /\ topic_id t' <> id) /\
  sublist (topics deleted) (topics s) /\
  length (topics deleted) < length (topics s) /\
  (NoDup (map topic_id (topics s)) -> topics deleted = delete row (topics s)) /\
  (forall other, other ∈ selectedTopicIds deleted <->
                 other ∈ selectedTopicIds s /\ other <> id) /\
  sublist (selectedTopicIds deleted) (selectedTopicIds s).
Proof.
  intros id kept deleted.
  assert (Hopen : isMenuOpen s t = true).
  { unfold isMenuOpen. rewrite Hmenu. apply String.eqb_refl. }
  assert (Hk : kept = mkState (loading s) (topics s) (quizState s) (csvContent s) (fileName s)
           (newTopicName s) (currentQuestions s) (currentQuestionIndex s)
           (userResponses s) (isDrawerOpen s) (message s) (selectedTopicIds s) None).
  { unfold kept, step, handle, onTopicScreen. cbn [operated Ui.clock Ui.pick].
    rewrite Hrow, Hopen. clear Hopen kept deleted.
    open_state s. subst. reflexivity. }
  assert (Hd : deleted = mkState (loading s) (withoutTopic id (topics s)) (quizState s)
              (csvContent s) (fileName s) (newTopicName s) (currentQuestions s)
              (currentQuestionIndex s) (userResponses s) (isDrawerOpen s) (message s)
              (withoutId id (selectedTopicIds s)) None).
  { unfold deleted, step, handle, onTopicScreen. cbn [operated Ui.clock Ui.pick].
    rewrite Hrow, Hopen. clear Hopen Hk kept deleted.
    open_state s. subst. reflexivity. }
  split; [exact Hk|]. split; [exact Hd|]. rewrite Hd.
  cbn [topics selectedTopicIds].
  split; [intros t'; apply withoutTopic_spec|].
  split; [apply withoutTopic_sublist|].
  split; [apply (withoutTopic_length id t); [apply list_elem_of_lookup; eauto|reflexivity]|].
  split; [intros Hnd; apply withoutTopic_delete; assumption|].
  split; [intros other; apply withoutId_spec|].
  apply withoutId_sublist.
Qed.

Lemma delete_removes_topic_witness :
  topics (step (mkInput Sample.clock (fun _ _ => 0%fin) (PressDelete 0 Delete))
            (step (mkInput Sample.clock (fun _ _ => 0%fin) (PressDots 0)) Sample.mathStore))
  = [] /\
  topics (step (mkInput Sample.clock (fun _ _ => 0%fin) (PressDelete 0 Cancel))
            (step (mkInput Sample.clock (fun _ _ => 0%fin) (PressDots 0)) Sample.mathStore))
  = topics Sample.mathStore.
Proof.
  destruct (delete_removes_topic Sample.clock (fun _ _ => 0%fin) 0
              (mkTopic "topic-1700000000000" "Math" (CSV.parseCSV Sample.csv))
              (step (mkInput Sample.clock (fun _ _ => 0%fin) (PressDots 0)) Sample.mathStore))
    as (Hk & Hd & _).
  - reflexivity.
  - reflexivity.
  - vm_compute. reflexivity.
  - reflexivity.
  - rewrite Hk, Hd. split; vm_compute; reflexivity.
Defined.

Lemma startPractice_state (clock : nat -> N) (l : list Question.t) (s : AppState) :
  l <> [] ->
  dispatch (startPractice clock (Some l)) s
  = mkState (loading s) (topics s) PRACTICE (csvContent s) (fileName s) (newTopicName s)
      (imap (fun i qu => Question.set_id (Spec.sessionId clock i) qu) l) 0 ∅ false
      (message s) (selectedTopicIds s) (openMenuId s).
Proof. intros Hl. destruct l; [congruence|reflexivity]. Qed.

Lemma selectedQuestions_spec (s : AppState) (x : Question.t) :
  x ∈ selectedQuestions s <->
  exists t, t ∈ topics s /\ topic_id t ∈ selectedTopicIds s /\ x ∈ topic_questions t.
Proof.
  unfold selectedQuestions. rewrite list_elem_of_In, in_flat_map. split.
  - intros (t & Ht & Hx). apply filter_In in Ht as [Ht Hsel].
    exists t. apply includesId_spec in Hsel.
    split; [apply list_elem_of_In; exact Ht|].
    split; [exact Hsel|apply list_elem_of_In; exact Hx].
  - intros (t & Ht & Hsel & Hx). exists t.
    split; [|apply list_elem_of_In; exact Hx].
    apply filter_In. split; [apply list_elem_of_In; exact Ht|].
    apply includesId_spec. exact Hsel.
Qed.

(** Random practice.  With no topic selected there is only the message
    (and the button is disabled then); with selected topics that hold no
    question there is the message of [startPractice].  Otherwise the
    session starts at index 0 with no response, and its questions are
    the questions of the topics whose id is selected, each once, in
    some order, under the ids that [startPractice] gives. *)
Theorem random_practice_draws_selected (clock : nat -> N) (pick : Shuffle.Picks)
    (s : AppState) :
  let s' := run (practiceRandomFromSelected clock pick s) s in
  (selectedTopicIds s = [] ->
   handle clock pick PressRandom s = [] /\
   s' = mkState (loading s) (topics s) (quizState s) (csvContent s) (fileName s)
          (newTopicName s) (currentQuestions s) (currentQuestionIndex s)
          (userResponses s) (isDrawerOpen s)
          "Please select at least one topic for random practice."
          (selectedTopicIds s) (openMenuId s)) /\
  (selectedTopicIds s <> [] -> selectedQuestions s = [] ->
   s' = mkState (loading s) (topics s) (quizState s) (csvContent s) (fileName s)
          (newTopicName s) (currentQuestions s) (currentQuestionIndex s)
          (userResponses s) (isDrawerOpen s) "No questions to practice."
          (selectedTopicIds s) (openMenuId s)) /\
  (selectedTopicIds s <> [] -> selectedQuestions s <> [] ->
   exists order : list Question.t,
     order ≡ₚ selectedQuestions s /\
     s' = mkState (loading s) (topics s) PRACTICE (csvContent s) (fileName s)
            (newTopicName s)
            (imap (fun i qu => Question.set_id (Spec.sessionId clock i) qu) order)
            0 ∅ false (message s) (selectedTopicIds s) (openMenuId s)) /\
  (forall x, x ∈ selectedQuestions s <->
     exists t, t ∈ topics s /\ topic_id t ∈ selectedTopicIds s /\ x ∈ topic_questions t) /\
  length (selectedQuestions s)
  = sum_list (map (fun t => length (topic_questions t))
                (List.filter (fun t => includesId (topic_id t) (selectedTopicIds s))
                   (topics s))).
Proof.
  intros s'.
  assert (Hnone : selectedTopicIds s = [] ->
            s' = mkState (loading s) (topics s) (quizState s) (csvContent s) (fileName s)
          (newTopicName s) (currentQuestions s) (currentQuestionIndex s)
          (userResponses s) (isDrawerOpen s)
          "Please select at least one topic for random practice."
          (selectedTopicIds s) (openMenuId s)).
  { intros H. unfold s', practiceRandomFromSelected.
    destruct (selectedTopicIds s) eqn:Hids; [|congruence].
    cbn. rewrite Hids. reflexivity. }
  assert (Hempty : selectedTopicIds s <> [] -> selectedQuestions s = [] ->
   s' = mkState (loading s) (topics s) (quizState s) (csvContent s) (fileName s)
          (newTopicName s) (currentQuestions s) (currentQuestionIndex s)
          (userResponses s) (isDrawerOpen s) "No questions to practice."
          (selectedTopicIds s) (openMenuId s)).
  { intros Hsel Hq. unfold s', practiceRandomFromSelected.
    destruct (selectedTopicIds s) as [|i ids] eqn:Hids; [congruence|].
    cbn [length Nat.eqb]. rewrite Hq. cbn. rewrite Hids. reflexivity. }
  assert (Hstart : selectedTopicIds s <> [] -> selectedQuestions s <> [] ->
   exists order : list Question.t,
     order ≡ₚ selectedQuestions s /\
     s' = mkState (loading s) (topics s) PRACTICE (csvContent s) (fileName s)
            (newTopicName s)
            (imap (fun i qu => Question.set_id (Spec.sessionId clock i) qu) order)
            0 ∅ false (message s) (selectedTopicIds s) (openMenuId s)).
  { intros Hsel Hq. exists (Shuffle.shuffleArray pick (selectedQuestions s)).
    pose proof (loop_perm pick (length (selectedQuestions s)) 0 (selectedQuestions s)) as Hp.
    fold (Shuffle.shuffleArray pick (selectedQuestions s)) in Hp.
    split; [exact Hp|].
    unfold s', practiceRandomFromSelected.
    destruct (selectedTopicIds s) as [|i ids] eqn:Hids; [congruence|].
    cbn [length Nat.eqb]. rewrite run_state, startPractice_state; [rewrite Hids; reflexivity|].
    intros Hnil. rewrite Hnil in Hp. apply Permutation_nil_l in Hp. congruence. }
  split; [|split; [exact Hempty|split; [exact Hstart|split; [apply selectedQuestions_spec|]]]].
  - intros H. split; [|apply Hnone; exact H].
    unfold handle. destruct (loading s || negb (onTopicScreen s)); [reflexivity|].
    rewrite H. cbn. rewrite andb_false_r. reflexivity.
  - unfold selectedQuestions.
    induction (List.filter (fun t => includesId (topic_id t) (selectedTopicIds s)) (topics s))
      as [|t ts IH]; [reflexivity|].
    cbn [flat_map map sum_list sum_list_with]. rewrite length_app, IH. reflexivity.
Qed.

End TopicList.

(** ** What holds in every state *)

Section Invariants.
Import JS App Topics Files Ui Inv.

Lemma store_same (s s' : AppState) :
  loading s' = loading s -> topics s' = topics s ->
  selectedTopicIds s' = selectedTopicIds s -> openMenuId s' = openMenuId s ->
  store s -> store s'.
Proof.
  intros Hl Ht Hs Hm [H1 H2 H3 H4 H5 H6].
  constructor; rewrite ?Hl, ?Ht, ?Hs, ?Hm; assumption.
Qed.

Lemma startPractice_frame (clock : nat -> N) (l : option (list Question.t)) (s : AppState) :
  let s' := dispatch (startPractice clock l) s in
  loading s' = loading s /\ topics s' = topics s /\
  selectedTopicIds s' = selectedTopicIds s /\ openMenuId s' = openMenuId s.
Proof. destruct l as [[|x l]|]; repeat split; reflexivity. Qed.

Lemma store_startPractice (clock : nat -> N) (l : option (list Question.t)) (s : AppState) :
  store s -> store (dispatch (startPractice clock l) s).
Proof.
  intros H. destruct (startPractice_frame clock l s) as (H1 & H2 & H3 & H4).
  apply (store_same s); assumption.
Qed.

Lemma nameTaken_false (name : string) (ts : list Topic) :
  nameTaken name ts = false -> toLowerCase (trim name) ∉ lowerNames ts.
Proof.
  intros H Hin. unfold lowerNames in Hin. apply list_elem_of_fmap in Hin as (t & Ht & Hin).
  assert (Htaken : nameTaken name ts = true).
  { apply nameTaken_spec. exists t. split; [exact Hin|]. symmetry. exact Ht. }
  congruence.
Qed.

Lemma parseCSV_valid (csvText : string) :
  Forall (fun x => Valid.record x = true) (CSV.parseCSV csvText).
Proof.
  unfold CSV.parseCSV, CSV.parseCSV_log.
  destruct (negb (truthy csvText)); [constructor|].
  destruct (Regex.split CSV.reNewline (trim csvText)) as [|header rows]; [constructor|].
  rewrite processLines_questions. cbn [CSV.questions app].
  apply Forall_flat_map, Forall_forall. intros line _. apply lineRecords_valid.
Qed.

Lemma store_handleImport (now : N) (s : AppState) :
  store s -> store (dispatch (handleImport now s) s).
Proof.
  intros Hs. unfold handleImport.
  destruct (negb (truthy (trim (csvContent s)))); [apply (store_same s); auto|].
  destruct (negb (truthy (trim (newTopicName s)))) eqn:Hname; [apply (store_same s); auto|].
  destruct (length (CSV.parseCSV (csvContent s)) =? 0) eqn:Hlen;
    [apply (store_same s); auto|].
  destruct (nameTaken (newTopicName s) (topics s)) eqn:Htaken;
    [apply (store_same s); auto|].
  destruct Hs as [H1 H2 H3 H4 H5 H6].
  constructor; cbn [dispatch fold_left apply loading topics selectedTopicIds openMenuId].
  - exact H1.
  - unfold lowerNames. cbn [map topicName]. apply NoDup_cons. split; [|exact H2].
    apply nameTaken_false. exact Htaken.
  - intros t Ht. apply elem_of_cons in Ht as [->|Ht]; [|apply H3; exact Ht].
    cbn [topicName topic_questions]. split; [|split].
    + apply negb_false_iff in Hname. intros He. rewrite He in Hname. discriminate.
    + intros He. rewrite He in Hlen. discriminate.
    + apply parseCSV_valid.
  - exact H4.
  - intros id Hid. destruct (H5 id Hid) as (t & Ht & Hti).
    exists t. split; [right; exact Ht|exact Hti].
  - intros id Hid. destruct (H6 id Hid) as (t & Ht & Hti).
    exists t. split; [right; exact Ht|exact Hti].
Qed.

Lemma store_handler (clock : nat -> N) (e : event) (s : AppState) :
  store s -> store (dispatch (handler clock e s) s).
Proof.
  intros Hs. unfold handler.
  destruct (loading s); [exact Hs|].
  destruct (quizState s), e;
    try exact Hs;
    try (apply (store_same s); [reflexivity..|exact Hs]);
    try (apply store_startPractice; exact Hs).
  - destruct (CSV.truthyOpt (fileName s));
      first [exact Hs|apply (store_same s); [reflexivity..|exact Hs]].
  - destruct (truthy (trim (newTopicName s))); [apply store_handleImport|]; exact Hs.
  - destruct (currentQuestion s ≫= Question.options) as [opts|]; [|exact Hs].
    destruct (bool_decide (option ∈ opts)); [|exact Hs].
    apply (store_same s); [reflexivity..|exact Hs].
  - unfold previous. destruct (0 <? currentQuestionIndex s);
      apply (store_same s); try reflexivity; exact Hs.
  - unfold next. destruct (isLast s);
      apply (store_same s); try reflexivity; exact Hs.
  - destruct (isDrawerOpen s && (i <? length (currentQuestions s)));
      [apply (store_same s); [reflexivity..|exact Hs]|exact Hs].
  - destruct (incorrects (calculateScore s)) as [|x l]; [exact Hs|].
    apply store_startPractice. exact Hs.
Qed.

Lemma lowerNames_without (id : string) (ts : list Topic) :
  sublist (lowerNames (withoutTopic id ts)) (lowerNames ts).
Proof. apply (fmap_sublist (fun t => toLowerCase (topicName t))), withoutTopic_sublist. Qed.

Lemma store_delete (id name : string) (answer : AlertButton) (s : AppState) :
  store s -> store (run (handleDeleteTopic id name answer) s).
Proof.
  intros [H1 H2 H3 H4 H5 H6]. destruct answer.
  - constructor; cbn [run fold_left perform handleDeleteTopic loading topics
                        selectedTopicIds openMenuId]; try assumption.
    intros ? [=].
  - constructor; cbn [run fold_left perform apply handleDeleteTopic loading topics
                        selectedTopicIds openMenuId]; try assumption.
    + eapply sublist_NoDup; [exact H2|apply lowerNames_without].
    + intros t Ht. apply withoutTopic_spec in Ht as [Ht _]. apply H3. exact Ht.
    + apply withoutId_NoDup. exact H4.
    + intros x Hx. apply withoutId_spec in Hx as [Hx Hne].
      destruct (H5 x Hx) as (t & Ht & Hti). exists t. split; [|exact Hti].
      apply withoutTopic_spec. split; [exact Ht|congruence].
    + intros ? [=].
Qed.

Lemma store_files (os : Platform) (chosen : option File) (picker : option Picking)
    (s : AppState) :
  store s -> store (run (handleFileSelectPress os chosen picker) s).
Proof.
  intros Hs. pose proof (shown s Hs) as Hl.
  unfold handleFileSelectPress, handleWebFileChange, handleNativeFileSelect.
  apply (store_same s); try exact Hs;
    destruct os, chosen as [[name [text|]]|], picker as [[| | |[pname [ptext|]]]|];
    cbn [file_name file_text];
    try destruct (negb (hasExtension (toLowerCase name)));
    first [reflexivity|symmetry; exact Hl].
Qed.

Lemma store_step (i : input) (s : AppState) : store s -> store (step i s).
Proof.
  intros Hs. unfold step, handle.
  destruct (operated i) as [e|row|row|row answer| |os chosen picker|].
  - rewrite run_state. apply store_handler. exact Hs.
  - destruct (loading s || negb (onTopicScreen s)); [exact Hs|].
    destruct (topics s !! row) as [t|] eqn:Hrow; [|exact Hs].
    destruct Hs as [H1 H2 H3 H4 H5 H6].
    constructor; cbn [run fold_left perform handleTopicToggle loading topics
                        selectedTopicIds openMenuId]; try assumption.
    + apply toggled_NoDup. exact H4.
    + intros x Hx. apply toggled_elem in Hx as [[_ Hx]|[-> _]]; [apply H5; exact Hx|].
      exists t. split; [|reflexivity]. apply list_elem_of_lookup. eauto.
  - destruct (loading s || negb (onTopicScreen s)); [exact Hs|].
    destruct (topics s !! row) as [t|] eqn:Hrow; [|exact Hs].
    destruct Hs as [H1 H2 H3 H4 H5 H6].
    constructor; cbn [run fold_left perform loading topics selectedTopicIds openMenuId];
      try assumption.
    intros x Hx. destruct (isMenuOpen s t); [discriminate|].
    injection Hx as <-. exists t. split; [|reflexivity].
    apply list_elem_of_lookup. eauto.
  - destruct (loading s || negb (onTopicScreen s)); [exact Hs|].
    destruct (topics s !! row) as [t|]; [|exact Hs].
    destruct (isMenuOpen s t); [|exact Hs].
    apply store_delete. exact Hs.
  - destruct (loading s || negb (onTopicScreen s)); [exact Hs|].
    destruct ((0 <? length (topics s)) && negb (length (selectedTopicIds s) =? 0));
      [|exact Hs].
    unfold practiceRandomFromSelected.
    destruct (length (selectedTopicIds s) =? 0);
      [apply (store_same s); [reflexivity..|exact Hs]|].
    rewrite run_state. apply store_startPractice. exact Hs.
  - destruct (loading s || negb (onTopicScreen s)); [exact Hs|].
    apply store_files. exact Hs.
  - apply (store_same s); [reflexivity..|exact Hs].
Qed.

Lemma store_initial : store initialState.
Proof.
  constructor; cbn.
  - reflexivity.
  - constructor.
  - intros t Ht. inversion Ht.
  - constructor.
  - intros id Hid. inversion Hid.
  - intros id [=].
Qed.

Lemma after_invariant (P : AppState -> Prop) :
  P initialState -> (forall i s, P s -> P (step i s)) ->
  forall trace, P (after trace).
Proof.
  intros H0 Hstep trace. unfold after.
  generalize initialState H0. induction trace as [|i trace IH]; intros s Hs; [exact Hs|].
  cbn [fold_left]. apply IH, Hstep, Hs.
Qed.

(** The session *)

Lemma sessionOk_start (clock : nat -> N) (l : list Question.t) :
  l <> [] ->
  sessionOk PRACTICE (imap (fun i qu => Question.set_id (Spec.sessionId clock i) qu) l) 0 ∅.
Proof.
  intros Hl.
  assert (Hlen : 0 < length (imap (fun i qu => Question.set_id (Spec.sessionId clock i) qu) l)).
  { rewrite length_imap. destruct l; [congruence|cbn; lia]. }
  split; [|split; [|split]].
  - intros _ He. rewrite He in Hlen. cbn in Hlen. lia.
  - intros _. exact Hlen.
  - intros k r Hk. rewrite lookup_empty in Hk. discriminate.
  - intros k r o Hk. rewrite lookup_empty in Hk. discriminate.
Qed.

Lemma session_startPractice (clock : nat -> N) (l : option (list Question.t))
    (s : AppState) :
  session s -> session (dispatch (startPractice clock l) s).
Proof.
  intros Hs. destruct l as [[|x l]|]; try exact Hs.
  apply (sessionOk_start clock (x :: l)). discriminate.
Qed.

Lemma sessionOk_leave (st : QuizState) (qs : list Question.t) (i : nat)
    (rs : gmap nat Response) :
  sessionOk st qs i rs -> sessionOk TOPIC_SELECT qs i rs.
Proof. intros (_ & H). split; [congruence|exact H]. Qed.

Lemma sessionOk_finish (qs : list Question.t) (i : nat) (rs : gmap nat Response) :
  sessionOk PRACTICE qs i rs -> sessionOk SUMMARY qs i rs.
Proof.
  intros (H1 & H). split; [|exact H]. intros _. apply H1. discriminate.
Qed.

Lemma sessionOk_visibility (st : QuizState) (qs : list Question.t) (i i' j : nat)
    (rs : gmap nat Response) (v : bool) :
  sessionOk st qs i rs -> i' < length qs -> j < length qs ->
  sessionOk st qs i' (<[j := withVisibility rs j v]> rs).
Proof.
  intros (H1 & H2 & H3 & H4) Hi Hj. split; [exact H1|]. split; [intros _; exact Hi|].
  split.
  - intros k r Hk. destruct (decide (k = j)) as [->|Hne]; [exact Hj|].
    rewrite lookup_insert_ne in Hk by congruence. apply (H3 k r Hk).
  - intros k r o Hk Ho. destruct (decide (k = j)) as [->|Hne].
    + rewrite lookup_insert_eq in Hk. injection Hk as <-.
      unfold withVisibility in *. cbn [selectedOption isCorrect] in *.
      destruct (rs !! j) as [r0|] eqn:Hr0; [|discriminate].
      cbn in Ho. destruct (H4 j r0 o Hr0 Ho) as [Hc Hopts].
      split; [exact Hc|exact Hopts].
    + rewrite lookup_insert_ne in Hk by congruence. apply (H4 k r o Hk Ho).
Qed.

Lemma sessionOk_select (st : QuizState) (qs : list Question.t) (i : nat)
    (rs : gmap nat Response) (o : string) (opts : list string) (v : bool) :
  sessionOk st qs i rs -> qs !! i ≫= Question.options = Some opts -> o ∈ opts ->
  sessionOk st qs i (<[i := mkResponse (Some o) (Some (checkAnswer o (qs !! i))) v]> rs).
Proof.
  intros (H1 & H2 & H3 & H4) Hopts Ho.
  assert (Hi : i < length qs).
  { destruct (qs !! i) eqn:Hq; [|discriminate]. apply lookup_lt_Some in Hq. exact Hq. }
  split; [exact H1|]. split; [exact H2|]. split.
  - intros k r Hk. destruct (decide (k = i)) as [->|Hne]; [exact Hi|].
    rewrite lookup_insert_ne in Hk by congruence. apply (H3 k r Hk).
  - intros k r o' Hk Ho'. destruct (decide (k = i)) as [->|Hne].
    + rewrite lookup_insert_eq in Hk. injection Hk as <-.
      cbn [selectedOption isCorrect] in *. injection Ho' as <-.
      split; [reflexivity|]. exists opts. split; assumption.
    + rewrite lookup_insert_ne in Hk by congruence. apply (H4 k r o' Hk Ho').
Qed.

Lemma handleImport_session (now : N) (s : AppState) :
  session s -> session (dispatch (handleImport now s) s).
Proof.
  intros Hs. unfold handleImport.
  destruct (negb (truthy (trim (csvContent s)))); [exact Hs|].
  destruct (negb (truthy (trim (newTopicName s)))); [exact Hs|].
  destruct (length (CSV.parseCSV (csvContent s)) =? 0); [exact Hs|].
  destruct (nameTaken (newTopicName s) (topics s)); exact Hs.
Qed.

Lemma session_handler (clock : nat -> N) (e : event) (s : AppState) :
  session s -> session (dispatch (handler clock e s) s).
Proof.
  intros Hs. unfold handler.
  destruct (loading s); [exact Hs|].
  destruct (quizState s) eqn:Hq, e; try exact Hs;
    try (apply session_startPractice; exact Hs);
    pose proof Hs as Hs'; unfold session in Hs, Hs'; rewrite Hq in Hs'.
  - destruct (CSV.truthyOpt (fileName s)); exact Hs.
  - destruct (truthy (trim (newTopicName s))); [apply handleImport_session|]; exact Hs.
  - apply (sessionOk_leave _ _ _ _ Hs).
  - destruct (currentQuestion s ≫= Question.options) as [opts|] eqn:Hopts; [|exact Hs].
    destruct (bool_decide (option ∈ opts)) eqn:Ho; [|exact Hs].
    apply bool_decide_eq_true in Ho.
    exact (sessionOk_select (quizState s) (currentQuestions s) (currentQuestionIndex s)
             (userResponses s) option opts _ Hs Hopts Ho).
  - assert (Hi : currentQuestionIndex s < length (currentQuestions s)).
    { destruct Hs' as (H1 & H2 & _). apply H2, H1. discriminate. }
    exact (sessionOk_visibility (quizState s) (currentQuestions s) (currentQuestionIndex s)
             (currentQuestionIndex s) (currentQuestionIndex s) (userResponses s) _ Hs Hi Hi).
  - assert (Hi : currentQuestionIndex s < length (currentQuestions s)).
    { destruct Hs' as (H1 & H2 & _). apply H2, H1. discriminate. }
    unfold previous. destruct (0 <? currentQuestionIndex s) eqn:Hpos.
    + apply Nat.ltb_lt in Hpos.
      assert (Hj : currentQuestionIndex s - 1 < length (currentQuestions s)) by lia.
      exact (sessionOk_visibility (quizState s) (currentQuestions s) (currentQuestionIndex s)
               (currentQuestionIndex s - 1) (currentQuestionIndex s - 1) (userResponses s)
               false Hs Hj Hj).
    + apply (sessionOk_leave _ _ _ _ Hs).
  - assert (Hi : currentQuestionIndex s < length (currentQuestions s)).
    { destruct Hs' as (H1 & H2 & _). apply H2, H1. discriminate. }
    unfold next, isLast.
    destruct (currentQuestionIndex s + 1 =? length (currentQuestions s)) eqn:Hlast.
    + apply sessionOk_finish. exact Hs'.
    + apply Nat.eqb_neq in Hlast.
      assert (Hj : currentQuestionIndex s + 1 < length (currentQuestions s)) by lia.
      exact (sessionOk_visibility (quizState s) (currentQuestions s) (currentQuestionIndex s)
               (currentQuestionIndex s + 1) (currentQuestionIndex s + 1) (userResponses s)
               false Hs Hj Hj).
  - destruct (isDrawerOpen s && (i <? length (currentQuestions s))) eqn:Hj; [|exact Hs].
    apply andb_prop in Hj as [_ Hj]. apply Nat.ltb_lt in Hj.
    destruct Hs as (H1 & H2 & H3). split; [exact H1|].
    split; [intros _; exact Hj|exact H3].
  - apply (sessionOk_leave _ _ _ _ Hs).
  - destruct (incorrects (calculateScore s)) as [|x l]; [exact Hs|].
    apply (sessionOk_start clock (x :: l)). discriminate.
Qed.

Lemma session_files (os : Platform) (chosen : option File) (picker : option Picking)
    (s : AppState) :
  session s -> session (run (handleFileSelectPress os chosen picker) s).
Proof.
  intros Hs.
  unfold handleFileSelectPress, handleWebFileChange, handleNativeFileSelect.
  destruct os, chosen as [[name [text|]]|], picker as [[| | |[pname [ptext|]]]|];
    cbn [file_name file_text];
    try destruct (negb (hasExtension (toLowerCase name)));
    exact Hs.
Qed.

Lemma session_step (i : input) (s : AppState) : session s -> session (step i s).
Proof.
  intros Hs. unfold step, handle.
  destruct (operated i) as [e|row|row|row answer| |os chosen picker|].
  - rewrite run_state. apply session_handler. exact Hs.
  - destruct (loading s || negb (onTopicScreen s)); [exact Hs|].
    destruct (topics s !! row) as [t|]; exact Hs.
  - destruct (loading s || negb (onTopicScreen s)); [exact Hs|].
    destruct (topics s !! row) as [t|]; exact Hs.
  - destruct (loading s || negb (onTopicScreen s)); [exact Hs|].
    destruct (topics s !! row) as [t|]; [|exact Hs].
    destruct (isMenuOpen s t); [|exact Hs].
    destruct answer; exact Hs.
  - destruct (loading s || negb (onTopicScreen s)); [exact Hs|].
    destruct ((0 <? length (topics s)) && negb (length (selectedTopicIds s) =? 0));
      [|exact Hs].
    unfold practiceRandomFromSelected.
    destruct (length (selectedTopicIds s) =? 0); [exact Hs|].
    rewrite run_state. apply session_startPractice. exact Hs.
  - destruct (loading s || negb (onTopicScreen s)); [exact Hs|].
    apply session_files. exact Hs.
  - exact Hs.
Qed.

Lemma session_initial : session initialState.
Proof.
  split; [intros H; cbn in H; congruence|]. split; [intros H; cbn in H; congruence|].
  split; intros k r; cbn; rewrite lookup_empty; discriminate.
Qed.

End Invariants.

(** ** The states that the controls lead to *)

Section Reachable.
Import JS App Topics Files Ui Inv View Tally.

Lemma after_store (trace : list input) : store (after trace).
Proof. apply after_invariant; [apply store_initial|intros i s; apply store_step]. Qed.

Lemma after_session (trace : list input) : session (after trace).
Proof. apply after_invariant; [apply session_initial|intros i s; apply session_step]. Qed.

Lemma selected_has_questions (s : AppState) :
  store s -> selectedTopicIds s <> [] -> selectedQuestions s <> [].
Proof.
  intros Hs Hsel Hnil.
  destruct (selectedTopicIds s) as [|id ids] eqn:Hids; [congruence|].
  destruct (selection_known s Hs id) as (t & Ht & Hid); [rewrite Hids; left|].
  destruct (topics_filled s Hs t Ht) as (_ & Hq & _).
  destruct (topic_questions t) as [|x xs] eqn:Hqs; [congruence|].
  assert (Hx : x ∈ selectedQuestions s).
  { apply selectedQuestions_spec. exists t. split; [exact Ht|].
    split; [rewrite Hid, Hids; left|rewrite Hqs; left]. }
  rewrite Hnil in Hx. inversion Hx.
Qed.

(** Whatever the user does, from the first render on, once the handlers
    have run to their end: no two topics of the store have the same
    name, even when case is ignored; every topic has a name and at least
    one question, and its questions are complete records; the selection
    lists no id twice and only ids of topics of the store, so that the
    selected topics hold questions as soon as one is selected and the
    random practice then starts a session; the open menu is that of a
    topic of the store; and the processing screen is not left on. *)
Theorem topic_store_invariant (trace : list input) :
  let s := after trace in
  loading s = false /\
  NoDup (map (fun t => toLowerCase (topicName t)) (topics s)) /\
  (forall t, t ∈ topics s ->
     topicName t <> "" /\ topic_questions t <> [] /\
     Forall (fun x => Valid.record x = true) (topic_questions t)) /\
  NoDup (selectedTopicIds s) /\
  (forall id, id ∈ selectedTopicIds s -> exists t, t ∈ topics s /\ topic_id t = id) /\
  (forall id, openMenuId s = Some id -> exists t, t ∈ topics s /\ topic_id t = id) /\
  (selectedTopicIds s <> [] -> selectedQuestions s <> []) /\
  (forall (clock : nat -> N) (pick : Shuffle.Picks),
     quizState s = TOPIC_SELECT -> selectedTopicIds s <> [] ->
     let s' := step (mkInput clock pick PressRandom) s in
     quizState s' = PRACTICE /\
     length (currentQuestions s') = length (selectedQuestions s)).
Proof.
  intros s. pose proof (after_store trace) as Hs. fold s in Hs.
  pose proof Hs as [H1 H2 H3 H4 H5 H6].
  split; [exact H1|]. split; [exact H2|]. split; [exact H3|]. split; [exact H4|].
  split; [exact H5|]. split; [exact H6|].
  split; [apply selected_has_questions; exact Hs|].
  intros clock pick Hq Hsel s'.
  pose proof (selected_has_questions s Hs Hsel) as Hqs.
  assert (Htopics : topics s <> []).
  { destruct (selectedTopicIds s) as [|id ids] eqn:Hids; [congruence|].
    destruct (H5 id) as (t & Ht & _); [left|]. intros Hn. rewrite Hn in Ht. inversion Ht. }
  assert (Hs' : s' = run (map state (startPractice clock
                   (Some (Shuffle.shuffleArray pick (selectedQuestions s))))) s).
  { unfold s', step, handle, onTopicScreen, practiceRandomFromSelected.
    cbn [operated Ui.clock Ui.pick]. rewrite H1, Hq.
    destruct (topics s); [congruence|].
    destruct (selectedTopicIds s); [congruence|]. reflexivity. }
  pose proof (loop_perm pick (length (selectedQuestions s)) 0 (selectedQuestions s)) as Hp.
  fold (Shuffle.shuffleArray pick (selectedQuestions s)) in Hp.
  rewrite Hs', run_state, startPractice_state.
  - cbn [quizState currentQuestions]. split; [reflexivity|].
    rewrite length_imap. apply Permutation_length. exact Hp.
  - intros Hn. rewrite Hn in Hp. apply Permutation_nil_l in Hp. congruence.
Qed.

(** Whatever the user does: on the practice and summary screens the
    current index is the index of a question, so that the explanation
    box can be computed; every key of the responses is the index of a
    question; and a stored answer is one of the options of its question,
    with the mark that [checkAnswer] gives it. *)
Theorem session_invariant (trace : list input) :
  let s := after trace in
  (quizState s <> TOPIC_SELECT ->
   currentQuestionIndex s < length (currentQuestions s) /\
   (exists qu, currentQuestion s = Some qu) /\
   explanationBox s <> None) /\
  (forall k r, userResponses s !! k = Some r -> k < length (currentQuestions s)) /\
  (forall k r o,
     userResponses s !! k = Some r -> selectedOption r = Some o ->
     isCorrect r = Some (checkAnswer o (currentQuestions s !! k)) /\
     exists qu opts,
       currentQuestions s !! k = Some qu /\ Question.options qu = Some opts /\ o ∈ opts).
Proof.
  intros s. pose proof (after_session trace) as Hs. fold s in Hs.
  destruct Hs as (H1 & H2 & H3 & H4).
  split; [|split; [exact H3|]].
  - intros Hq. pose proof (H2 (H1 Hq)) as Hi.
    destruct (lookup_lt_is_Some_2 _ _ Hi) as [qu Hqu].
    split; [exact Hi|]. split; [exists qu; exact Hqu|].
    unfold explanationBox, currentQuestion. rewrite Hqu.
    destruct (isExplanationVisible (currentResponse s)); discriminate.
  - intros k r o Hk Ho. destruct (H4 k r o Hk Ho) as (Hc & opts & Hopts & Hin).
    split; [exact Hc|].
    destruct (currentQuestions s !! k) as [qu|]; [|discriminate].
    exists qu, opts. repeat split; assumption.
Qed.

Lemma filter_attempted_split (l : list (nat * Response)) :
  length (List.filter isAttempted l)
  = length (List.filter isRight l) + length (List.filter isWrong l).
Proof.
  induction l as [|kr l IH]; [reflexivity|].
  cbn [List.filter]. unfold isAttempted, isRight, isWrong in *.
  destruct (selected kr.2), (markedCorrect kr.2); cbn [andb negb length]; lia.
Qed.

Lemma omap_total {X Y} (f : X -> option Y) (l : list X) :
  (forall x, x ∈ l -> is_Some (f x)) -> length (omap f l) = length l.
Proof.
  induction l as [|x l IH]; intros H; [reflexivity|].
  cbn [omap list_omap]. destruct (H x) as [y Hy]; [left|].
  rewrite Hy. cbn [length]. rewrite IH; [reflexivity|].
  intros z Hz. apply H. right. exact Hz.
Qed.

Lemma bounded_keys (l : list nat) (n : nat) :
  NoDup l -> (forall k, k ∈ l -> k < n) -> length l <= n.
Proof.
  intros Hnd Hb.
  assert (Hsub : l ⊆+ seq 0 n).
  { apply NoDup_submseteq; [exact Hnd|]. intros k Hk. apply elem_of_seq. specialize (Hb k Hk). lia. }
  apply submseteq_length in Hsub. rewrite length_seq in Hsub. exact Hsub.
Qed.

(** Whatever the user does, the figures of the score agree: the
    incorrect questions are as many as the attempted answers that are
    not correct, the attempted answers are no more than the questions,
    and the number of unanswered questions is not negative.  The review
    button is shown exactly when an attempted answer is not correct, and
    the review session has one question for each such answer. *)
Theorem score_invariant (trace : list input) :
  let s := after trace in
  let sc := calculateScore s in
  finalScore sc + length (incorrects sc) = attempted sc /\
  attempted sc <= total sc /\
  (0 <= unanswered sc)%Z /\
  unanswered sc = Z.of_nat (total sc - attempted sc) /\
  (incorrects sc <> [] <-> finalScore sc < attempted sc) /\
  (forall clock : nat -> N,
     quizState s = SUMMARY -> finalScore sc < attempted sc ->
     let s' := App.step clock PressReview s in
     quizState s' = PRACTICE /\
     length (currentQuestions s') = attempted sc - finalScore sc /\
     currentQuestionIndex s' = 0 /\ userResponses s' = ∅).
Proof.
  intros s sc.
  pose proof (after_session trace) as Hs. fold s in Hs.
  pose proof (after_store trace) as Hst. fold s in Hst.
  destruct Hs as (H1 & H2 & H3 & H4).
  destruct (calculateScore_tally s) as (Ha & Hf & Hi & Ht & Hu & _).
  fold sc in Ha, Hf, Hi, Ht, Hu.
  destruct (entries_spec (userResponses s)) as (Hspec & Hnd & _).
  set (es := entries (userResponses s)) in *.
  assert (Hwrong : length (incorrects sc) = length (List.filter isWrong es)).
  { rewrite Hi. apply omap_total. intros [k r] Hkr.
    apply list_elem_of_In, filter_In in Hkr as [Hkr _].
    apply list_elem_of_In, Hspec in Hkr. apply lookup_lt_is_Some_2. cbn.
    apply (H3 k r Hkr). }
  assert (Hsum : finalScore sc + length (incorrects sc) = attempted sc).
  { rewrite Hwrong, Ha, Hf. symmetry. apply filter_attempted_split. }
  assert (Hle : attempted sc <= total sc).
  { rewrite Ha, Ht.
    pose proof (filter_length_le isAttempted es) as Hfl.
    assert (Hkeys : length es <= length (currentQuestions s)).
    { rewrite <- (length_fmap fst es). apply bounded_keys; [exact Hnd|].
      intros k Hk. apply list_elem_of_fmap in Hk as ([k' r] & -> & Hkr).
      apply Hspec in Hkr. apply (H3 k' r Hkr). }
    lia. }
  assert (Hrev : incorrects sc <> [] <-> finalScore sc < attempted sc).
  { destruct (incorrects sc) as [|x l]; cbn [length] in Hsum; split; intros H;
      try lia; congruence. }
  split; [exact Hsum|]. split; [exact Hle|]. split; [lia|]. split; [lia|].
  split; [exact Hrev|].
  intros clock Hq Hlt s'.
  apply Hrev in Hlt as Hne.
  assert (Hs' : s' = dispatch (startPractice clock (Some (incorrects sc))) s).
  { unfold s', App.step, handler. rewrite (shown s Hst), Hq. fold sc.
    destruct (incorrects sc); [congruence|reflexivity]. }
  rewrite Hs', startPractice_state by exact Hne.
  cbn [quizState currentQuestions currentQuestionIndex userResponses].
  rewrite length_imap. repeat split; lia.
Qed.

(** Whatever the user does, the colours of the options on the practice
    screen tell the answer: when the current question has a stored
    answer that is not empty, the chosen option is shown as right if
    [checkAnswer] accepts it and as wrong if not, and every other option
    is revealed as right if [checkAnswer] accepts it and left plain if
    not; with no stored answer every option is plain. *)
Theorem option_colours (trace : list input) (opt : string) :
  let s := after trace in
  match selectedOption (currentResponse s) with
  | Some (String a o) =>
      optionStyle s opt =
      if String.eqb (String a o) opt
      then (if checkAnswer opt (currentQuestion s) then Right else Wrong)
      else (if checkAnswer opt (currentQuestion s) then Reveal else Plain)
  | _ => optionStyle s opt = Plain
  end.
Proof.
  intros s. pose proof (after_session trace) as Hs. fold s in Hs.
  destruct Hs as (_ & _ & _ & H4).
  unfold optionStyle, isSelected, selected, markedCorrect.
  destruct (selectedOption (currentResponse s)) as [[|a o]|] eqn:Hsel; try reflexivity.
  cbn [truthy].
  destruct (String.eqb_spec (String a o) opt) as [<-|Hne]; cbn [andb negb].
  - destruct (checkAnswer (String a o) (currentQuestion s)) eqn:Hc; [reflexivity|].
    unfold currentResponse, responseAt in *.
    destruct (userResponses s !! currentQuestionIndex s) as [r|] eqn:Hr;
      cbn [default from_option id] in *; [|discriminate].
    destruct (H4 _ r _ Hr Hsel) as [Hm _]. rewrite Hm.
    unfold currentQuestion in Hc. rewrite Hc. reflexivity.
  - destruct (checkAnswer opt (currentQuestion s)); reflexivity.
Qed.

End Reachable.

(** ** File names *)

Section FileNames.
Import JS Regex Files FileName.

Lemma run_lit_end (w : string) :
  forall s, run (lit w) s atEnd = if String.eqb s w then Some EmptyString else None.
Proof.
  induction w as [|c w IH]; intros s.
  - destruct s; reflexivity.
  - cbn [lit]. unfold Chr. rewrite run_cat. destruct s as [|a s]; [reflexivity|].
    rewrite run_cls, IH. cbn [String.eqb]. unfold ascii_eqb.
    rewrite (Ascii.eqb_sym c a). destruct (Ascii.eqb a c); reflexivity.
Qed.

Lemma run_extension (m : string) :
  run reExtension m atEnd <> None <->
  exists ext, ext ∈ extensions /\ m = dots +:+ ext.
Proof.
  unfold reExtension, Chr. rewrite run_cat. destruct m as [|a m].
  - cbn. split; [congruence|]. intros (ext & _ & H). discriminate.
  - rewrite run_cls, !run_alt, !run_lit_end.
    destruct (ascii_eqb dot a) eqn:Ha.
    + apply ascii_eqb_true in Ha. subst a. split.
      * intros H. exists m. split; [|reflexivity]. unfold extensions.
        destruct (String.eqb_spec m "csv") as [E|_]; [rewrite E; set_solver|].
        destruct (String.eqb_spec m "txt") as [E|_]; [rewrite E; set_solver|].
        destruct (String.eqb_spec m "xls") as [E|_]; [rewrite E; set_solver|].
        destruct (String.eqb_spec m "xlsx") as [E|_]; [rewrite E; set_solver|].
        congruence.
      * intros (ext & Hext & He). unfold dots in He. rewrite append_cons, append_nil in He.
        injection He as ->. unfold extensions in Hext.
        repeat (apply elem_of_cons in Hext as [->|Hext]; [vm_compute; discriminate|]).
        inversion Hext.
    + split; [congruence|]. intros (ext & _ & He).
      unfold dots in He. rewrite append_cons, append_nil in He. injection He as -> _.
      rewrite ascii_eqb_refl in Ha. discriminate.
Qed.

Lemma searchEnd_sound (r : regex) (s : string) :
  forall before, searchEnd r s = Some before ->
    exists m, s = before +:+ m /\ run r m atEnd <> None.
Proof.
  induction s as [|c s IH]; intros before H; cbn [searchEnd] in H.
  - destruct (run r "" atEnd) eqn:Hr; [|discriminate].
    injection H as <-. exists "". split; [reflexivity|congruence].
  - destruct (run r (String c s) atEnd) eqn:Hr.
    + injection H as <-. exists (String c s). split; [reflexivity|congruence].
    + destruct (searchEnd r s) as [b|] eqn:Hb; [|discriminate].
      cbn in H. injection H as <-.
      destruct (IH b eq_refl) as (m & -> & Hm). exists m. split; [reflexivity|exact Hm].
Qed.

Lemma searchEnd_complete (r : regex) (before m : string) :
  run r m atEnd <> None -> searchEnd r (before +:+ m) <> None.
Proof.
  intros Hm. induction before as [|c b IH].
  - rewrite append_nil. destruct m; cbn [searchEnd];
      destruct (run r _ atEnd); congruence.
  - rewrite append_cons. cbn [searchEnd].
    destruct (run r (String c (b +:+ m)) atEnd); [discriminate|].
    destruct (searchEnd r (b +:+ m)); [discriminate|congruence].
Qed.

Lemma hasExtension_spec (name : string) :
  hasExtension name = true <->
  exists base ext, name = base +:+ dots +:+ ext /\ ext ∈ extensions.
Proof.
  unfold hasExtension. split.
  - destruct (searchEnd reExtension name) as [b|] eqn:Hb; [|discriminate]. intros _.
    destruct (searchEnd_sound _ _ _ Hb) as (m & -> & Hm).
    apply run_extension in Hm as (ext & Hext & ->). exists b, ext. split; [reflexivity|exact Hext].
  - intros (base & ext & -> & Hext).
    assert (H : searchEnd reExtension (base +:+ dots +:+ ext) <> None).
    { apply searchEnd_complete, run_extension. exists ext. split; [exact Hext|reflexivity]. }
    destruct (searchEnd reExtension (base +:+ dots +:+ ext)); congruence.
Qed.

Lemma greedy_end (p : ascii -> bool) (s : string) :
  Row.greedy p s atEnd = if allChars p s then Some EmptyString else None.
Proof.
  induction s as [|a s IH]; [reflexivity|].
  cbn [Row.greedy allChars]. destruct (p a); [|reflexivity].
  rewrite IH. cbn [andb]. destruct (allChars p s); reflexivity.
Qed.

Lemma run_suffix_end (m : string) :
  run reSuffix m atEnd =
  match m with
  | String a ext => if ascii_eqb dot a && plainExt ext then Some EmptyString else None
  | EmptyString => None
  end.
Proof.
  unfold reSuffix, Chr, Plus. rewrite run_cat. destruct m as [|a ext]; [reflexivity|].
  rewrite run_cls. destruct (ascii_eqb dot a); [|reflexivity]. cbn [andb].
  rewrite run_cat. unfold plainExt. destruct ext as [|e ext]; [reflexivity|].
  rewrite run_cls. fold plainChar.
  change (negb (ascii_eqb e slash || ascii_eqb e dot)) with (plainChar e).
  cbn [truthy allChars andb].
  destruct (plainChar e); [|reflexivity]. cbn [andb].
  rewrite run_star_class. apply greedy_end.
Qed.

Lemma allChars_app (p : ascii -> bool) (a b : string) :
  allChars p (a +:+ b) = allChars p a && allChars p b.
Proof.
  induction a as [|c a IH]; [reflexivity|].
  rewrite append_cons. cbn [allChars]. rewrite IH, andb_assoc. reflexivity.
Qed.

Lemma stripSuffix_ext (base ext : string) :
  plainExt ext = true -> searchEnd reSuffix (base +:+ dots +:+ ext) = Some base.
Proof.
  intros Hext. induction base as [|c b IH].
  - rewrite append_nil. unfold dots. rewrite append_cons, append_nil.
    cbn [searchEnd]. rewrite run_suffix_end, ascii_eqb_refl, Hext. reflexivity.
  - rewrite append_cons. cbn [searchEnd]. rewrite run_suffix_end, IH.
    assert (Hno : plainExt (b +:+ dots +:+ ext) = false).
    { unfold plainExt. rewrite !allChars_app. unfold dots at 2. cbn [allChars].
      replace (plainChar dot) with false by reflexivity.
      rewrite andb_false_r. cbn. apply andb_false_r. }
    rewrite Hno, andb_false_r. reflexivity.
Qed.

Lemma stripSuffix_no_dot (name : string) :
  Row.noChar dot name = true -> searchEnd reSuffix name = None.
Proof.
  induction name as [|c s IH]; intros H; [reflexivity|].
  cbn [Row.noChar] in H. apply andb_prop in H as [Hc Hs].
  cbn [searchEnd]. rewrite run_suffix_end, (IH Hs).
  apply negb_true_iff in Hc. rewrite Hc. reflexivity.
Qed.

Lemma lower_split (x : string) :
  forall s y, toLowerCase s = x +:+ y ->
    exists s1 s2, s = s1 +:+ s2 /\ toLowerCase s1 = x /\ toLowerCase s2 = y.
Proof.
  induction x as [|c x IH]; intros s y H.
  - exists "", s. rewrite append_nil in H. repeat split. exact H.
  - rewrite append_cons in H. destruct s as [|a s]; [discriminate|].
    change (toLowerCase (String a s)) with (String (lowerChar a) (toLowerCase s)) in H.
    injection H as Ha Hs. destruct (IH s y Hs) as (s1 & s2 & -> & H1 & H2).
    exists (String a s1), s2. rewrite append_cons. repeat split; [|exact H2].
    change (toLowerCase (String a s1)) with (String (lowerChar a) (toLowerCase s1)).
    rewrite Ha, H1. reflexivity.
Qed.

Lemma lower_dot (c : ascii) : lowerChar c = dot -> c = dot.
Proof. destruct c as [[] [] [] [] [] [] [] []]; vm_compute; congruence. Qed.

Lemma lower_plain (c : ascii) : plainChar (lowerChar c) = plainChar c.
Proof. destruct c as [[] [] [] [] [] [] [] []]; vm_compute; congruence. Qed.

Lemma plainExt_lower (ext : string) : plainExt (toLowerCase ext) = plainExt ext.
Proof.
  unfold plainExt. f_equal; [destruct ext; reflexivity|].
  induction ext as [|c s IH]; [reflexivity|].
  change (toLowerCase (String c s)) with (String (lowerChar c) (toLowerCase s)).
  cbn [allChars]. rewrite lower_plain, IH. reflexivity.
Qed.

Lemma accepted_name (name : string) :
  hasExtension (toLowerCase name) = true ->
  exists base ext,
    name = base +:+ dots +:+ ext /\ toLowerCase ext ∈ extensions /\
    stripSuffix name = base.
Proof.
  intros H. apply hasExtension_spec in H as (b & e & Hname & He).
  apply lower_split in Hname as (base & rest & -> & _ & Hrest).
  apply lower_split in Hrest as (d & ext & -> & Hd & Hext).
  destruct d as [|c [|c' d]]; try discriminate.
  change (toLowerCase (String c "")) with (String (lowerChar c) "") in Hd.
  injection Hd as Hc. apply lower_dot in Hc. subst c. fold dots.
  exists base, ext. split; [reflexivity|]. rewrite Hext. split; [exact He|].
  unfold stripSuffix. rewrite stripSuffix_ext; [reflexivity|].
  rewrite <- plainExt_lower, Hext. unfold extensions in He.
  repeat (apply elem_of_cons in He as [->|He]; [reflexivity|]).
  inversion He.
Qed.

(** Choosing a file.  The web handler accepts a name exactly when, in
    lower case, it ends with a dot and one of csv, txt, xls, xlsx.  The
    topic name proposed for a file is its name without the last dot and
    what follows, when what follows is not empty and holds no dot and no
    slash, and the name itself when it holds no dot; for an accepted
    name this takes the extension off.  On the web an accepted file
    sets the file name, the proposed topic name and, once read, the
    content; a file that is not accepted leaves the content empty and
    no file name.  On a phone the asset picked sets the three of them,
    whatever its name, and the processing screen is over when the
    handler ends; without the picker module only a message is set. *)
Theorem file_choice :
  (forall name : string,
     hasExtension name = true <->
     exists base ext, name = base +:+ dots +:+ ext /\ ext ∈ extensions) /\
  (forall base ext : string,
     plainExt ext = true -> stripSuffix (base +:+ dots +:+ ext) = base) /\
  (forall name : string, Row.noChar dot name = true -> stripSuffix name = name) /\
  (forall name : string,
     hasExtension (toLowerCase name) = true ->
     exists base ext,
       name = base +:+ dots +:+ ext /\ toLowerCase ext ∈ extensions /\
       stripSuffix name = base) /\
  (forall (s : AppState) (f : File) (picker : option Picking),
     let s' := Topics.run (handleFileSelectPress web (Some f) picker) s in
     topics s' = topics s /\ loading s' = loading s /\ quizState s' = quizState s /\
     if hasExtension (toLowerCase (file_name f))
     then fileName s' = Some (file_name f) /\
          newTopicName s' = stripSuffix (file_name f) /\
          csvContent s' = default "" (file_text f)
     else fileName s' = None /\ newTopicName s' = newTopicName s /\ csvContent s' = "" /\
          message s' = "Invalid file type. Please select CSV, TXT, XLS, or XLSX.") /\
  (forall (s : AppState) (os : Platform) (chosen : option File) (f : File) (content : string),
     os = ios \/ os = android -> file_text f = Some content ->
     let s' := Topics.run (handleFileSelectPress os chosen (Some (Asset f))) s in
     topics s' = topics s /\ loading s' = false /\ quizState s' = quizState s /\
     fileName s' = Some (file_name f) /\
     newTopicName s' = stripSuffix (file_name f) /\ csvContent s' = content) /\
  (forall (s : AppState) (os : Platform) (chosen : option File),
     os <> web ->
     let s' := Topics.run (handleFileSelectPress os chosen None) s in
     topics s' = topics s /\ loading s' = loading s /\ quizState s' = quizState s /\
     fileName s' = None /\ newTopicName s' = newTopicName s /\ csvContent s' = "").
Proof.
  split; [exact hasExtension_spec|].
  split; [intros base ext H; unfold stripSuffix; rewrite stripSuffix_ext by exact H;
          reflexivity|].
  split; [intros name H; unfold stripSuffix; rewrite stripSuffix_no_dot by exact H;
          reflexivity|].
  split; [exact accepted_name|].
  split; [|split].
  - intros s f picker s'. unfold s', handleFileSelectPress, handleWebFileChange.
    destruct (hasExtension (toLowerCase (file_name f))); cbn [negb].
    + destruct (file_text f); repeat split; reflexivity.
    + repeat split; reflexivity.
  - intros s os chosen f content Hos Htext s'.
    unfold s', handleFileSelectPress, handleNativeFileSelect. rewrite Htext.
    destruct Hos as [-> | ->]; repeat split; reflexivity.
  - intros s os chosen Hos s'. unfold s', handleFileSelectPress, handleNativeFileSelect.
    destruct os; [congruence|..]; repeat split; reflexivity.
Qed.

End FileNames.

(** ** A successful import *)

Section ImportSuccess.
Import JS App FileName.

Lemma topicId_inj (a b : N) : topicId a = topicId b -> a = b.
Proof.
  unfold topicId. intros H. rewrite !append_cons, append_nil in H.
  injection H as H. apply toString_inj. exact H.
Qed.

Lemma truthy_false (x : string) : truthy x = false <-> x = "".
Proof. destruct x; cbn; split; congruence. Qed.

(** The Save button adds a topic exactly when the content is not blank,
    the name is not blank, the content yields a question, and no stored
    topic has the name, case ignored.  The topic is then put first, with
    the trimmed name, the parsed questions and the id made from the
    clock; the stored topics stay as they are, and the name, the content
    and the file name are cleared.  In every other case the store and
    the three inputs are left as they are.  Ids made at different clock
    readings differ. *)
Theorem import_adds_topic (clock : nat -> N) (s : AppState)
    (Hload : loading s = false)
    (Hscreen : quizState s = TOPIC_SELECT) :
  let s' := App.step clock PressSaveTopic s in
  let name := trim (newTopicName s) in
  let parsed := CSV.parseCSV (csvContent s) in
  let ok :=
    trim (csvContent s) <> "" /\ name <> "" /\ parsed <> [] /\
    forall t, t ∈ topics s -> toLowerCase (topicName t) <> toLowerCase name in
  (ok ->
   s' = mkState (loading s)
          (mkTopic (topicId (clock 0)) name parsed :: topics s)
          (quizState s) "" None "" (currentQuestions s) (currentQuestionIndex s)
          (userResponses s) (isDrawerOpen s)
          ("Saved '" +:+ name +:+ "' (" +:+
           Num.toString (N.of_nat (length parsed)) +:+ " questions)")
          (selectedTopicIds s) (openMenuId s)) /\
  (~ ok ->
   topics s' = topics s /\ csvContent s' = csvContent s /\
   newTopicName s' = newTopicName s /\ fileName s' = fileName s) /\
  (length (topics s') = S (length (topics s)) <-> ok) /\
  (forall a b : N, topicId a = topicId b -> a = b).
Proof.
  intros s' name parsed ok.
  assert (Hcases :
    (ok /\ s' = mkState (loading s)
          (mkTopic (topicId (clock 0)) name parsed :: topics s)
          (quizState s) "" None "" (currentQuestions s) (currentQuestionIndex s)
          (userResponses s) (isDrawerOpen s)
          ("Saved '" +:+ name +:+ "' (" +:+
           Num.toString (N.of_nat (length parsed)) +:+ " questions)")
          (selectedTopicIds s) (openMenuId s)) \/
    (~ ok /\ topics s' = topics s /\ csvContent s' = csvContent s /\
     newTopicName s' = newTopicName s /\ fileName s' = fileName s)).
  { unfold s', App.step, handler. rewrite Hload, Hscreen.
    destruct (truthy (trim (newTopicName s))) eqn:Hname.
    2:{ right. apply truthy_false in Hname. split; [|repeat split; reflexivity].
        intros (_ & H & _). contradiction. }
    unfold handleImport. rewrite Hname. cbn [negb].
    destruct (truthy (trim (csvContent s))) eqn:Hcontent; cbn [negb].
    2:{ right. apply truthy_false in Hcontent. split; [|repeat split; reflexivity].
        intros (H & _). contradiction. }
    fold parsed. destruct (length parsed =? 0) eqn:Hlen.
    { right. apply Nat.eqb_eq in Hlen. split; [|repeat split; reflexivity].
      intros (_ & _ & H & _). destruct parsed; [congruence|discriminate]. }
    destruct (nameTaken (newTopicName s) (topics s)) eqn:Htaken.
    { right. apply nameTaken_spec in Htaken as (t & Ht & Hsame).
      split; [|repeat split; reflexivity].
      intros (_ & _ & _ & H). apply (H t Ht). exact Hsame. }
    left. split;
      [|cbn [dispatch fold_left apply]; rewrite ?Hload, ?Hscreen; reflexivity].
    split; [intros H; rewrite H in Hcontent; discriminate|].
    split; [intros H; unfold name in H; rewrite H in Hname; discriminate|].
    split; [intros H; rewrite H in Hlen; discriminate|].
    intros t Ht Hsame.
    assert (Hyes : nameTaken (newTopicName s) (topics s) = true)
      by (apply nameTaken_spec; exists t; split; assumption).
    congruence. }
  split; [|split; [|split; [|exact topicId_inj]]].
  - intros Hok. destruct Hcases as [[_ H]|[H _]]; [exact H|contradiction].
  - intros Hno. destruct Hcases as [[H _]|[_ H]]; [contradiction|exact H].
  - destruct Hcases as [[Hok ->]|[Hno (Ht & _)]].
    + cbn [topics length]. split; [intros _; exact Hok|reflexivity].
    + rewrite Ht. split; [lia|]. intros Hok. contradiction.
Qed.

Lemma import_adds_topic_witness :
  map topicName (topics (App.step Sample.clock PressSaveTopic
                           (Sample.typed " Math " Sample.csv initialState)))
  = ["Math"] /\
  newTopicName (App.step Sample.clock PressSaveTopic
                  (Sample.typed " Math " Sample.csv initialState)) = "" /\
  topics (App.step Sample.clock PressSaveTopic
            (Sample.typed Sample.ecoleVariant Sample.csv Sample.ecoleStore))
  = topics Sample.ecoleStore /\
  topics (App.step Sample.clock PressSaveTopic
            (Sample.typed (String NBSP " ") Sample.csv initialState)) = [].
Proof.
  destruct (import_adds_topic Sample.clock (Sample.typed " Math " Sample.csv initialState))
    as (Hok & _).
  - reflexivity.
  - reflexivity.
  - rewrite Hok.
    + repeat split; vm_compute; reflexivity.
    + split; [|split; [|split]].
      * vm_compute. discriminate.
      * vm_compute. discriminate.
      * vm_compute. discriminate.
      * intros t Ht. vm_compute in Ht. inversion Ht.
Defined.

End ImportSuccess.

(** ** A pass through a session *)

Section Pass.
Import JS App Tally Play.

Lemma step_option (clock : nat -> N) (s : AppState) (o : string) (opts : list string) :
  loading s = false -> quizState s = PRACTICE ->
  currentQuestion s ≫= Question.options = Some opts -> o ∈ opts ->
  step clock (PressOption o) s =
  apply s (setUserResponses (fun prev =>
    <[currentQuestionIndex s :=
        mkResponse (Some o) (Some (checkAnswer o (currentQuestion s)))
          (match prev !! currentQuestionIndex s with
           | Some r => isExplanationVisible r
           | None => false
           end)]> prev)).
Proof.
  intros Hl Hq Hopts Ho. unfold step, handler. rewrite Hl, Hq, Hopts.
  rewrite (bool_decide_eq_true_2 _ Ho). reflexivity.
Qed.

Lemma stored_same (moves : list (option string)) (qs : list Question.t) (k : nat)
    (rs rs' : gmap nat Response) :
  (forall i, rs' !! i ≫= selectedOption = rs !! i ≫= selectedOption /\
             rs' !! i ≫= isCorrect = rs !! i ≫= isCorrect) ->
  stored moves qs k rs -> stored moves qs k rs'.
Proof.
  intros Hsame [H1 H2]. split.
  - intros i m Hi Hm. destruct (Hsame i) as [-> ->]. apply H1; assumption.
  - intros i Hi. destruct (Hsame i) as [-> _]. apply H2. exact Hi.
Qed.

Lemma stored_answer (moves : list (option string)) (qs : list Question.t) (k : nat)
    (rs rs1 : gmap nat Response) (m : option string) :
  moves !! k = Some m ->
  rs1 !! k ≫= selectedOption = m ->
  (forall a, m = Some a -> rs1 !! k ≫= isCorrect = Some (checkAnswer a (qs !! k))) ->
  (forall i, i <> k -> rs1 !! i = rs !! i) ->
  stored moves qs k rs -> stored moves qs (S k) rs1.
Proof.
  intros Hm Hsel Hcor Hother [H1 H2]. split.
  - intros i m' Hi Hm'. destruct (decide (i = k)) as [->|Hne].
    + assert (m' = m) by congruence. subst m'. split; assumption.
    + rewrite (Hother i Hne). apply H1; [lia|exact Hm'].
  - intros i Hi. rewrite (Hother i) by lia. apply H2. lia.
Qed.

Lemma move_step (clock : nat -> N) (moves : list (option string)) (qs : list Question.t)
    (s : AppState) (k : nat) (m : option string) (qu : Question.t) :
  loading s = false -> quizState s = PRACTICE -> currentQuestions s = qs ->
  currentQuestionIndex s = k -> qs !! k = Some qu -> moves !! k = Some m ->
  allowed m qu -> stored moves qs k (userResponses s) ->
  let s' := move clock m s in
  loading s' = false /\ currentQuestions s' = qs /\
  stored moves qs (S k) (userResponses s') /\
  (S k = length qs -> quizState s' = SUMMARY) /\
  (S k <> length qs -> quizState s' = PRACTICE /\ currentQuestionIndex s' = S k).
Proof.
  intros Hl Hq Hqs Hi Hqu Hm Hallowed Hstored s'.
  set (s1 := match m with
             | Some a => step clock (PressOption a) s
             | None => s
             end).
  assert (H1 : loading s1 = false /\ quizState s1 = PRACTICE /\ currentQuestions s1 = qs /\
               currentQuestionIndex s1 = k /\
               stored moves qs (S k) (userResponses s1)).
  { unfold s1. destruct m as [a|].
    - destruct Hallowed as (opts & Hopts & Ha).
      assert (Hcur : currentQuestion s ≫= Question.options = Some opts).
      { unfold currentQuestion. rewrite Hqs, Hi, Hqu. exact Hopts. }
      rewrite (step_option clock s a opts Hl Hq Hcur Ha).
      cbn [apply loading quizState currentQuestions currentQuestionIndex userResponses].
      split; [exact Hl|]. split; [exact Hq|]. split; [exact Hqs|]. split; [exact Hi|].
      apply (stored_answer moves qs k (userResponses s) _ (Some a)); try assumption.
      + rewrite Hi, lookup_insert_eq. reflexivity.
      + intros a' [= <-]. rewrite Hi, lookup_insert_eq. cbn.
        unfold currentQuestion. rewrite Hqs, Hi. reflexivity.
      + intros i Hne. rewrite Hi. apply lookup_insert_ne. congruence.
    - split; [exact Hl|]. split; [exact Hq|]. split; [exact Hqs|]. split; [exact Hi|].
      apply (stored_answer moves qs k (userResponses s) _ None); try assumption.
      + destruct Hstored as [_ H2]. apply H2. lia.
      + intros a [=].
      + reflexivity. }
  destruct H1 as (Hl1 & Hq1 & Hqs1 & Hi1 & Hst1).
  fold s1 in s'. unfold move in s'. fold s1 in s'.
  destruct (isLast s1) eqn:Hlast.
  - unfold s'. rewrite (step_next_last clock s1 Hl1 Hq1 Hlast).
    cbn [apply loading quizState currentQuestions currentQuestionIndex userResponses].
    unfold isLast in Hlast. rewrite Hi1, Hqs1 in Hlast. apply Nat.eqb_eq in Hlast.
    split; [exact Hl1|]. split; [exact Hqs1|]. split; [exact Hst1|].
    split; [reflexivity|]. intros Hne. lia.
  - unfold s'. rewrite (step_next clock s1 Hl1 Hq1 Hlast).
    cbn [apply loading quizState currentQuestions currentQuestionIndex userResponses].
    unfold isLast in Hlast. rewrite Hi1, Hqs1 in Hlast. apply Nat.eqb_neq in Hlast.
    rewrite !Hi1.
    split; [exact Hl1|]. split; [exact Hqs1|].
    split; [|split; [intros He; lia|intros _; split; [exact Hq1|lia]]].
    apply (stored_same moves qs (S k) (userResponses s1)); [|exact Hst1].
    intros i. pose proof (hide_at (userResponses s1) (k + 1)) as Hh.
    cbv zeta in Hh. destruct Hh as (_ & Hsel & Hcor & _ & _ & Hother).
    destruct (decide (i = k + 1)) as [->|Hne].
    + split; assumption.
    + rewrite (Hother i Hne). split; reflexivity.
Qed.

Lemma pass_all (clock : nat -> N) (moves : list (option string)) (qs : list Question.t)
    (Hlen : length moves = length qs)
    (Hallowed : Forall2 allowed moves qs) (rest : list (option string)) :
  forall (done : list (option string)) (s : AppState),
    moves = done ++ rest -> rest <> [] ->
    loading s = false -> quizState s = PRACTICE -> currentQuestions s = qs ->
    currentQuestionIndex s = length done ->
    stored moves qs (length done) (userResponses s) ->
    let s' := pass clock rest s in
    quizState s' = SUMMARY /\ currentQuestions s' = qs /\
    stored moves qs (length qs) (userResponses s').
Proof.
  induction rest as [|m rest IH]; intros done s Hmoves Hrest Hl Hq Hqs Hi Hst;
    [congruence|].
  assert (Hm : moves !! length done = Some m).
  { rewrite Hmoves. apply list_lookup_middle. reflexivity. }
  assert (Hk : length done < length qs).
  { rewrite <- Hlen. apply lookup_lt_Some in Hm. exact Hm. }
  destruct (lookup_lt_is_Some_2 qs _ Hk) as [qu Hqu].
  assert (Hal : allowed m qu).
  { apply (Forall2_lookup_lr _ _ _ _ _ _ Hallowed Hm Hqu). }
  destruct (move_step clock moves qs s (length done) m qu Hl Hq Hqs Hi Hqu Hm Hal Hst)
    as (Hl' & Hqs' & Hst' & Hend & Hgo).
  cbn [pass fold_left]. fold (pass clock rest (move clock m s)).
  destruct rest as [|m' rest].
  - cbn [pass fold_left].
    assert (Hfin : S (length done) = length qs).
    { rewrite <- Hlen, Hmoves, length_app. cbn. lia. }
    split; [apply Hend; exact Hfin|]. split; [exact Hqs'|].
    rewrite <- Hfin. exact Hst'.
  - assert (Hmore : S (length done) <> length qs).
    { rewrite <- Hlen, Hmoves, length_app. cbn. lia. }
    destruct (Hgo Hmore) as [Hq' Hi'].
    apply (IH (done ++ [m])); try assumption.
    + rewrite Hmoves, <- app_assoc. reflexivity.
    + discriminate.
    + rewrite length_app. cbn. rewrite Hi'. lia.
    + rewrite length_app. cbn. rewrite Nat.add_1_r. exact Hst'.
Qed.

Lemma filter_keys (P : nat * Response -> bool) (p : nat -> bool)
    (l : list (nat * Response)) :
  (forall kr, kr ∈ l -> P kr = p kr.1) -> (List.filter P l).*1 = List.filter p l.*1.
Proof.
  induction l as [|kr l IH]; intros H; [reflexivity|].
  cbn [List.filter fmap list_fmap]. rewrite (H kr) by left.
  rewrite <- IH by (intros x Hx; apply H; right; exact Hx).
  destruct (p kr.1); reflexivity.
Qed.

Lemma filter_sorted (p : nat -> bool) (l : list nat) :
  StronglySorted lt l -> StronglySorted lt (List.filter p l).
Proof.
  induction 1 as [|x l Hl IH Hx]; cbn [List.filter]; [constructor|].
  destruct (p x); [|exact IH]. constructor; [exact IH|].
  apply Forall_forall. intros y Hy. apply list_elem_of_In, filter_In in Hy as [Hy _].
  apply (proj1 (Forall_forall _ _) Hx). apply list_elem_of_In. exact Hy.
Qed.

Lemma seq_sorted (n : nat) : forall a, StronglySorted lt (seq a n).
Proof.
  induction n as [|n IH]; intros a; cbn [seq]; constructor; [apply IH|].
  apply Forall_forall. intros y Hy. apply elem_of_seq in Hy. lia.
Qed.

Lemma sorted_same (l1 l2 : list nat) :
  StronglySorted lt l1 -> StronglySorted lt l2 -> (forall x, x ∈ l1 <-> x ∈ l2) -> l1 = l2.
Proof.
  intros H1 H2 Hsame.
  apply (StronglySorted_unique_strong lt); try assumption.
  - intros x y _ _ Hxy Hyx. lia.
  - apply NoDup_Permutation; [| |exact Hsame].
    + clear -H1. induction H1 as [|x l _ IH Hx]; constructor; [|exact IH].
      intros Hin. apply (proj1 (Forall_forall _ _) Hx) in Hin. lia.
    + clear -H2. induction H2 as [|x l _ IH Hx]; constructor; [|exact IH].
      intros Hin. apply (proj1 (Forall_forall _ _) Hx) in Hin. lia.
Qed.

Lemma filtered_keys (P : nat * Response -> bool) (p : nat -> bool) (n : nat)
    (rs : gmap nat Response) :
  (forall k r, rs !! k = Some r -> P (k, r) = p k) ->
  (forall k, p k = true -> k < n /\ is_Some (rs !! k)) ->
  (List.filter P (entries rs)).*1 = List.filter p (seq 0 n).
Proof.
  intros HP Hp. destruct (entries_spec rs) as (Hspec & _ & Hsorted).
  rewrite (filter_keys P p).
  2:{ intros [k r] Hkr. apply HP, Hspec. exact Hkr. }
  apply sorted_same; [apply filter_sorted; exact Hsorted|apply filter_sorted, seq_sorted|].
  intros k. rewrite !list_elem_of_In, !filter_In, <- !list_elem_of_In. split.
  - intros [_ Hk]. split; [|exact Hk]. apply elem_of_seq. destruct (Hp k Hk). lia.
  - intros [_ Hk]. split; [|exact Hk]. destruct (Hp k Hk) as [_ [r Hr]].
    apply list_elem_of_fmap. exists (k, r). split; [reflexivity|]. apply Hspec. exact Hr.
Qed.

Lemma stored_entry (moves : list (option string)) (qs : list Question.t)
    (rs : gmap nat Response) (k : nat) (r : Response) :
  length moves = length qs -> stored moves qs (length qs) rs -> rs !! k = Some r ->
  selected r = answeredAt moves k /\
  selected r && markedCorrect r = rightAt moves qs k.
Proof.
  intros Hlen [H1 H2] Hr. unfold answeredAt, rightAt, selected, markedCorrect.
  destruct (decide (k < length qs)) as [Hk|Hk].
  - destruct (lookup_lt_is_Some_2 moves k) as [m Hm]; [lia|].
    destruct (H1 k m Hk Hm) as [Hsel Hcor]. rewrite Hr in Hsel, Hcor. cbn in Hsel, Hcor.
    rewrite Hm, Hsel. destruct m as [a|]; [|split; reflexivity].
    cbn [answered]. split; [reflexivity|].
    rewrite (Hcor a eq_refl). reflexivity.
  - specialize (H2 k ltac:(lia)). rewrite Hr in H2. cbn in H2. rewrite H2.
    rewrite (lookup_ge_None_2 moves k) by lia. split; reflexivity.
Qed.

Lemma stored_answered (moves : list (option string)) (qs : list Question.t)
    (rs : gmap nat Response) (k : nat) :
  length moves = length qs -> stored moves qs (length qs) rs ->
  answeredAt moves k = true -> k < length qs /\ is_Some (rs !! k).
Proof.
  intros Hlen [H1 _] Hk. unfold answeredAt in Hk.
  destruct (moves !! k) as [m|] eqn:Hm; [|discriminate].
  assert (Hlt : k < length qs) by (rewrite <- Hlen; apply lookup_lt_Some in Hm; exact Hm).
  split; [exact Hlt|]. destruct (H1 k m Hlt Hm) as [Hsel _].
  destruct m as [a|]; [|discriminate].
  destruct (rs !! k); [eexists; reflexivity|discriminate].
Qed.

Lemma answered_count (moves : list (option string)) :
  length (List.filter (answeredAt moves) (seq 0 (length moves)))
  = length (List.filter answered moves).
Proof.
  induction moves as [|m moves IH] using rev_ind; [reflexivity|].
  rewrite length_app. cbn [length]. rewrite Nat.add_1_r, seq_S, !List.filter_app, !length_app.
  cbn [plus List.filter]. f_equal.
  - rewrite <- IH. f_equal. apply filter_ext_in. intros i Hi.
    apply in_seq in Hi. unfold answeredAt. rewrite lookup_app_l by lia. reflexivity.
  - unfold answeredAt. rewrite list_lookup_middle by reflexivity.
    destruct (answered m); reflexivity.
Qed.

(** A whole pass through a session.  From a session that has just
    started, at each question in turn an option that the question shows
    is pressed, or none, and then Next.  After the last question the
    summary is shown, and the score counts what was done: the attempted
    answers are the options pressed whose text is not empty, the correct
    ones are those that [checkAnswer] accepts for their question, the
    incorrect questions are those of the other attempted answers, in the
    order of the session, and the rest is unanswered. *)
Theorem pass_is_scored (clock : nat -> N) (s0 : AppState) (moves : list (option string))
    (Hload : loading s0 = false)
    (Hpractice : quizState s0 = PRACTICE)
    (Hfirst : currentQuestionIndex s0 = 0)
    (Hfresh : userResponses s0 = ∅)
    (Hsome : moves <> [])
    (Hallowed : Forall2 allowed moves (currentQuestions s0)) :
  let qs := currentQuestions s0 in
  let s := pass clock moves s0 in
  let sc := calculateScore s in
  quizState s = SUMMARY /\ currentQuestions s = qs /\
  total sc = length qs /\
  attempted sc = length (List.filter answered moves) /\
  finalScore sc = length (List.filter (rightAt moves qs) (seq 0 (length qs))) /\
  incorrects sc
    = omap (fun i => qs !! i) (List.filter (wrongAt moves qs) (seq 0 (length qs))) /\
  unanswered sc = Z.of_nat (length qs - length (List.filter answered moves)).
Proof.
  intros qs s sc.
  pose proof (Forall2_length _ _ _ Hallowed) as Hlen. fold qs in Hlen.
  assert (Hst0 : stored moves qs 0 (userResponses s0)).
  { rewrite Hfresh. split; [intros i m Hi; lia|].
    intros i _. rewrite lookup_empty. reflexivity. }
  destruct (pass_all clock moves qs Hlen Hallowed moves [] s0 eq_refl Hsome Hload Hpractice
              eq_refl Hfirst Hst0) as (Hq & Hqs & Hst).
  fold s in Hq, Hqs, Hst.
  destruct (calculateScore_tally s) as (Ha & Hf & Hi & Ht & Hu & _).
  fold sc in Ha, Hf, Hi, Ht, Hu. rewrite Hqs in Hi, Ht.
  set (rs := userResponses s) in *.
  assert (Hatt : (List.filter isAttempted (entries rs)).*1
                 = List.filter (answeredAt moves) (seq 0 (length qs))).
  { apply filtered_keys.
    - intros k r Hr. unfold isAttempted. cbn. apply (stored_entry moves qs rs k r Hlen Hst Hr).
    - intros k Hk. apply (stored_answered moves qs rs k Hlen Hst Hk). }
  assert (Hright : (List.filter isRight (entries rs)).*1
                   = List.filter (rightAt moves qs) (seq 0 (length qs))).
  { apply filtered_keys.
    - intros k r Hr. unfold isRight. cbn. apply (stored_entry moves qs rs k r Hlen Hst Hr).
    - intros k Hk. apply (stored_answered moves qs rs k Hlen Hst).
      unfold rightAt in Hk. unfold answeredAt.
      destruct (moves !! k) as [[a|]|]; try discriminate.
      apply andb_prop in Hk as [Hk _]. exact Hk. }
  assert (Hwrong : (List.filter isWrong (entries rs)).*1
                   = List.filter (wrongAt moves qs) (seq 0 (length qs))).
  { apply filtered_keys.
    - intros k r Hr. unfold isWrong, wrongAt. cbn.
      destruct (stored_entry moves qs rs k r Hlen Hst Hr) as [H1 H2].
      rewrite <- H1, <- H2. destruct (selected r), (markedCorrect r); reflexivity.
    - intros k Hk. apply (stored_answered moves qs rs k Hlen Hst).
      unfold wrongAt in Hk. apply andb_prop in Hk as [Hk _]. exact Hk. }
  assert (Hcount : attempted sc = length (List.filter answered moves)).
  { rewrite Ha, <- (length_fmap fst), Hatt, <- Hlen. apply answered_count. }
  split; [exact Hq|]. split; [exact Hqs|]. split; [exact Ht|]. split; [exact Hcount|].
  split; [rewrite Hf, <- (length_fmap fst), Hright; reflexivity|].
  split; [rewrite Hi, omap_keys, Hwrong; reflexivity|].
  rewrite Hu, Ht, Hcount.
  assert (Hle : length (List.filter answered moves) <= length qs).
  { rewrite <- Hlen. apply filter_length_le. }
  lia.
Qed.

Lemma pass_is_scored_witness :
  quizState (pass Sample.clock [Some "yes"; None; Some "no"] Sample.started) = SUMMARY /\
  attempted (calculateScore (pass Sample.clock [Some "yes"; None; Some "no"] Sample.started))
  = 2 /\
  finalScore (calculateScore (pass Sample.clock [Some "yes"; None; Some "no"] Sample.started))
  = 1.
Proof.
  destruct (pass_is_scored Sample.clock Sample.started [Some "yes"; None; Some "no"])
    as (Hq & _ & _ & Ha & Hf & _).
  - reflexivity.
  - reflexivity.
  - reflexivity.
  - reflexivity.
  - discriminate.
  - repeat constructor; exists ["yes"; "no"]; (split; [reflexivity|set_solver]).
  - split; [exact Hq|]. split; [rewrite Ha; reflexivity|]. rewrite Hf. vm_compute. reflexivity.
Defined.

End Pass.
